(** * ipmigo: a shallow embedding of the IPMI-over-LAN client core

  The development follows the Go sources of [k-sone/ipmigo]: the checksum
  and the IPMI LAN response message (payload_ipmi.go), the wire headers, the
  RMCP+ open-session and RAKP payloads (payload_session.go), the v2.0
  session with its sequence counters, the AES-CBC payload protection and the
  HMAC-SHA1-96 session trailer (the sessionV2_0 part of command_message.go),
  and the SDR and SEL enumerators (sdr.go, sel.go).

  Bytes and machine integers are integers of [Z] with the wrap-around of
  the Go type written out; byte slices are [list Z]. A Go function that
  returns [(value, error)] returns a [result]; a method that writes its
  receiver returns the new state next to its outcome. *)

From Stdlib Require Import String ZArith List Lia Bool.
Import ListNotations.
Local Open Scope Z_scope.

(** ** Go values: fixed-width integers, slices, errors *)

Module Go.

(** Conversions [byte(n)], [uint16(n)], [uint32(n)]. *)
Definition byte (n : Z) : Z := n mod 256.
Definition uint16 (n : Z) : Z := n mod 65536.
Definition uint32 (n : Z) : Z := n mod 4294967296.

Definition MaxUint32 : Z := 4294967295.

(** [int(u)] for a [uint] [u], both of 64 bits: the values from 2^63 on
    come out negative. *)
Definition MaxInt64 : Z := 9223372036854775807.
Definition int (u : Z) : Z :=
  if u <=? MaxInt64 then u else u - 18446744073709551616.

(** [len(buf)] as a Go [int]. *)
Definition len {A : Type} (l : list A) : Z := Z.of_nat (length l).

(** [buf[i]] where the bounds have been established by the caller. *)
Definition index (buf : list Z) (i : Z) : Z := nth (Z.to_nat i) buf 0.

(** [buf[lo:hi]] and [buf[lo:]] where the bounds have been established. *)
Definition slice {A : Type} (buf : list A) (lo hi : Z) : list A :=
  firstn (Z.to_nat (hi - lo)) (skipn (Z.to_nat lo) buf).
Definition from {A : Type} (buf : list A) (lo : Z) : list A :=
  skipn (Z.to_nat lo) buf.

(** [make([]byte, n)]. *)
Definition make (n : Z) : list Z := repeat 0 (Z.to_nat n).

(** [copy(dst, src)]: overwrites the first [min(len dst, len src)] bytes. *)
Definition copy (dst src : list Z) : list Z :=
  firstn (length dst) src ++ skipn (length src) dst.

(** [binary.LittleEndian.Uint16], [Uint32] and [binary.BigEndian.Uint32]
    on the first bytes of a slice. *)
Definition le_uint16 (b : list Z) : Z :=
  Z.lor (index b 0) (Z.shiftl (index b 1) 8).
Definition le_uint32 (b : list Z) : Z :=
  Z.lor (Z.lor (Z.lor (index b 0) (Z.shiftl (index b 1) 8))
               (Z.shiftl (index b 2) 16))
        (Z.shiftl (index b 3) 24).
Definition be_uint32 (b : list Z) : Z :=
  Z.lor (Z.lor (Z.lor (index b 3) (Z.shiftl (index b 2) 8))
               (Z.shiftl (index b 1) 16))
        (Z.shiftl (index b 0) 24).

(** The three error kinds of [errors.go], a network error with its
    [Timeout()] flag, and any other [error] value. *)
Inductive error : Type :=
| ArgumentError (message : string)
| MessageError (message : string)
| CommandError (completionCode : Z) (command : string)
| NetError (timeout : bool)
| OtherError (message : string).

(** Outcome of a call: a value, a returned [error], a run-time panic, or
    exhaustion of the fuel that bounds an unbounded Go loop. *)
Inductive result (A : Type) : Type :=
| Ok (a : A)
| Err (e : error)
| Panic (what : string)
| OutOfFuel.

Arguments Ok {A} a.
Arguments Err {A} e.
Arguments Panic {A} what.
Arguments OutOfFuel {A}.

Definition is_message_error {A : Type} (r : result A) : Prop :=
  exists m, r = Err (MessageError m).

Fixpoint sum (buf : list Z) : Z :=
  match buf with
  | [] => 0
  | x :: rest => x + sum rest
  end.

Lemma len_nonneg {A : Type} (l : list A) : 0 <= len l.
Proof. unfold len. lia. Qed.

Lemma len_app {A : Type} (a b : list A) : len (a ++ b) = len a + len b.
Proof. unfold len. rewrite length_app. lia. Qed.

Lemma copy_same_length (dst src : list Z) :
  length src = length dst -> copy dst src = src.
Proof.
  intro H. unfold copy. rewrite <- H, firstn_all, H, skipn_all.
  apply app_nil_r.
Qed.

Lemma len_make (n : Z) : 0 <= n -> len (make n) = n.
Proof. intro H. unfold len, make. rewrite repeat_length. lia. Qed.

End Go.

Import Go.

(** ** payload_ipmi.go *)

Module PayloadIPMI.

Definition ipmiResponseMessageMinSize : Z := 8.

(** [func checksum(buf []byte) byte]: the accumulator [c] is a [byte], so
    each addition and the final negation wrap modulo 256. *)
Fixpoint checksum_loop (c : Z) (buf : list Z) : Z :=
  match buf with
  | [] => c
  | x :: rest => checksum_loop (byte (c + x)) rest
  end.

Definition checksum (buf : list Z) : Z := byte (- checksum_loop 0 buf).

Record ipmiResponseMessage : Type := {
  RqAddr : Z;
  NetFnRsRUN : Z;
  RsAddr : Z;
  RqSeq : Z;
  Code : Z;
  CompletionCode : Z;
  Data : list Z
}.

(** [func (m *ipmiResponseMessage) Unmarshal(buf []byte) ([]byte, error)] *)
Definition ipmiResponseMessage_Unmarshal (buf : list Z)
  : result ipmiResponseMessage :=
  if len buf <? ipmiResponseMessageMinSize then
    Err (MessageError "Invalid IPMI response size")
  else if negb (checksum (slice buf 0 2) =? index buf 2) then
    Err (MessageError "Invalid IPMI response 1st checksum")
  else if negb (checksum (slice buf 3 (len buf - 1)) =? index buf (len buf - 1)) then
    Err (MessageError "Invalid IPMI response 2nd checksum")
  else
    Ok {| RqAddr := index buf 0;
          NetFnRsRUN := index buf 1;
          RsAddr := index buf 3;
          RqSeq := index buf 4;
          Code := index buf 5;
          CompletionCode := index buf 6;
          Data := slice buf 7 (len buf - 1) |}.

(** *** Properties *)

Lemma checksum_loop_mod (buf : list Z) :
  forall c, (checksum_loop c buf) mod 256 = (c + sum buf) mod 256.
Proof.
  induction buf as [|x rest IH]; intro c; simpl.
  - f_equal; lia.
  - rewrite IH. unfold byte. rewrite Zplus_mod_idemp_l. f_equal; lia.
Qed.

Lemma checksum_range (buf : list Z) : 0 <= checksum buf < 256.
Proof. unfold checksum, byte. apply Z.mod_pos_bound. lia. Qed.

Lemma checksum_law (buf : list Z) : (checksum buf + sum buf) mod 256 = 0.
Proof.
  unfold checksum, byte.
  rewrite Zplus_mod_idemp_l.
  replace (- checksum_loop 0 buf + sum buf)
    with (sum buf - checksum_loop 0 buf) by lia.
  rewrite Zminus_mod, checksum_loop_mod. simpl (0 + _).
  rewrite Z.sub_diag. reflexivity.
Qed.

Lemma slice_header (buf : list Z) :
  2 <= len buf -> slice buf 0 2 = [index buf 0; index buf 1].
Proof.
  unfold len. destruct buf as [|a [|b rest]]; simpl length; try lia.
  intros _. reflexivity.
Qed.

Lemma first_checksum_ok (buf : list Z) :
  2 <= len buf ->
  checksum (slice buf 0 2) = index buf 2 ->
  (index buf 2 + index buf 0 + index buf 1) mod 256 = 0.
Proof.
  intros Hlen Heq.
  pose proof (checksum_law (slice buf 0 2)) as Hlaw.
  rewrite Heq, slice_header in Hlaw by assumption.
  simpl sum in Hlaw. etransitivity; [|exact Hlaw]. f_equal. lia.
Qed.

(** C6: the 8-bit checksum is the two's complement of the byte sum, so
    checksum plus sum is 0 modulo 256, in particular for a 2-byte header
    (a, b); and an IPMI response whose first or second checksum byte does not
    satisfy that equation is refused by [Unmarshal] with a message error. *)
Theorem checksum_twos_complement :
  (forall buf, 0 <= checksum buf < 256 /\ (checksum buf + sum buf) mod 256 = 0) /\
  (forall a b, (checksum [a; b] + a + b) mod 256 = 0) /\
  (forall buf,
      (index buf 2 + index buf 0 + index buf 1) mod 256 <> 0 \/
      (index buf (len buf - 1) + sum (slice buf 3 (len buf - 1))) mod 256 <> 0 ->
      is_message_error (ipmiResponseMessage_Unmarshal buf)).
Proof.
  split; [|split].
  - intro buf. split; [apply checksum_range | apply checksum_law].
  - intros a b. pose proof (checksum_law [a; b]) as H. simpl sum in H.
    etransitivity; [|exact H]. f_equal. lia.
  - intros buf Hbad. unfold ipmiResponseMessage_Unmarshal, ipmiResponseMessageMinSize.
    destruct (len buf <? 8) eqn:Hshort; [eexists; reflexivity|].
    apply Z.ltb_ge in Hshort.
    destruct (checksum (slice buf 0 2) =? index buf 2) eqn:H1; simpl;
      [|eexists; reflexivity].
    destruct (checksum (slice buf 3 (len buf - 1)) =? index buf (len buf - 1)) eqn:H2;
      simpl; [|eexists; reflexivity].
    exfalso. apply Z.eqb_eq in H1, H2.
    destruct Hbad as [Hbad | Hbad]; apply Hbad.
    + apply first_checksum_ok; [lia | assumption].
    + rewrite <- H2. apply checksum_law.
Qed.

(** A response whose body checksum is off by one is refused. *)
Lemma checksum_twos_complement_witness :
  is_message_error
    (ipmiResponseMessage_Unmarshal [0x81; 0x1c; 0x63; 0x20; 0x00; 0x01; 0x00; 0xe0]).
Proof.
  apply (proj2 (proj2 checksum_twos_complement)).
  right. vm_compute. discriminate.
Defined.

End PayloadIPMI.

(** ** Wire headers: RMCP and ASF (the rmcpHeader, asfHeader and pongMessage
    sources), IPMI v1.5 session header (lan.go), IPMI v2.0 session header
    (command_message.go) *)

Module Framing.

Definition rmcpHeaderSize : Z := 4.
Definition asfHeaderSize : Z := 8.
Definition pongBodySize : Z := 16.
Definition sessionHeaderV1_5Size : Z := 10.
Definition sessionHeaderV1_5SizeWithAuth : Z := 26.
Definition sessionHeaderV2_0Size : Z := 12.
Definition authTypeNone : Z := 0.
Definition authTypeRMCPPlus : Z := 6.

Record rmcpHeader : Type := {
  rmcp_Version : Z;
  rmcp_Reserved : Z;
  rmcp_Sequence : Z;
  rmcp_Class : Z
}.

(** [func (r *rmcpHeader) Unmarshal(buf []byte) ([]byte, error)] *)
Definition rmcpHeader_Unmarshal (buf : list Z) : result (rmcpHeader * list Z) :=
  if len buf <? rmcpHeaderSize then
    Err (MessageError "Invalid RMCP header size")
  else
    Ok ({| rmcp_Version := index buf 0;
           rmcp_Reserved := index buf 1;
           rmcp_Sequence := index buf 2;
           rmcp_Class := index buf 3 |},
        from buf rmcpHeaderSize).

Record asfHeader : Type := {
  asf_IANA : Z;
  asf_Type : Z;
  asf_Tag : Z;
  asf_Reserved : Z;
  asf_Length : Z
}.

(** [func (a *asfHeader) Unmarshal(buf []byte) ([]byte, error)] *)
Definition asfHeader_Unmarshal (buf : list Z) : result (asfHeader * list Z) :=
  if len buf <? asfHeaderSize then
    Err (MessageError "Invalid ASF header size")
  else
    Ok ({| asf_IANA := be_uint32 buf;
           asf_Type := index buf 4;
           asf_Tag := index buf 5;
           asf_Reserved := index buf 6;
           asf_Length := index buf 7 |},
        from buf 8).

Record pongMessage : Type := {
  pong_IANA : Z;
  pong_OEM : Z;
  pong_SupEntities : Z;
  pong_SupInteract : Z;
  pong_Reserved : list Z
}.

(** [func (p *pongMessage) Unmarshal(buf []byte) ([]byte, error)] *)
Definition pongMessage_Unmarshal (buf : list Z) : result (pongMessage * list Z) :=
  if len buf <? pongBodySize then
    Err (MessageError "Invalid Pong body size")
  else
    Ok ({| pong_IANA := be_uint32 buf;
           pong_OEM := be_uint32 (from buf 4);
           pong_SupEntities := index buf 8;
           pong_SupInteract := index buf 9;
           pong_Reserved := copy (make 6) (from buf 10) |},
        from buf pongBodySize).

Record sessionHeaderV1_5 : Type := {
  v15_authType : Z;
  v15_sequence : Z;
  v15_id : Z;
  v15_payloadLength : Z;
  v15_authCode : list Z
}.

(** [func (s *sessionHeaderV1_5) Unmarshal(buf []byte) ([]byte, error)]:
    both the too-short case and the missing-auth-code case reach the
    [ERROR] label. *)
Definition sessionHeaderV1_5_Unmarshal (buf : list Z)
  : result (sessionHeaderV1_5 * list Z) :=
  if len buf <? sessionHeaderV1_5Size then
    Err (MessageError "Invalid IPMI 1.5 session header size")
  else
    let authType := index buf 0 in
    let sequence := le_uint32 (from buf 1) in
    let id := le_uint32 (from buf 5) in
    if authType =? authTypeNone then
      Ok ({| v15_authType := authType; v15_sequence := sequence; v15_id := id;
             v15_payloadLength := index buf (sessionHeaderV1_5Size - 1);
             v15_authCode := make 16 |},
          from buf sessionHeaderV1_5Size)
    else if sessionHeaderV1_5SizeWithAuth <=? len buf then
      Ok ({| v15_authType := authType; v15_sequence := sequence; v15_id := id;
             v15_payloadLength := index buf (sessionHeaderV1_5SizeWithAuth - 1);
             v15_authCode := copy (make 16) (from buf (sessionHeaderV1_5Size - 1)) |},
          from buf sessionHeaderV1_5SizeWithAuth)
    else
      Err (MessageError "Invalid IPMI 1.5 session header size").

Record sessionHeaderV2_0 : Type := {
  v20_authType : Z;
  v20_payloadType : Z;
  v20_id : Z;
  v20_sequence : Z;
  v20_payloadLength : Z
}.

(** [func (s *sessionHeaderV2_0) Unmarshal(buf []byte) ([]byte, error)] *)
Definition sessionHeaderV2_0_Unmarshal (buf : list Z)
  : result (sessionHeaderV2_0 * list Z) :=
  if len buf <? sessionHeaderV2_0Size then
    Err (MessageError "Invalid IPMI 2.0 session header size")
  else
    Ok ({| v20_authType := index buf 0;
           v20_payloadType := index buf 1;
           v20_id := le_uint32 (from buf 2);
           v20_sequence := le_uint32 (from buf 6);
           v20_payloadLength := le_uint16 (from buf 10) |},
        from buf sessionHeaderV2_0Size).

End Framing.

(** ** payload_session.go: RMCP+ open-session and RAKP payloads *)

Module PayloadSession.

Definition openSessionResponseSize : Z := 36.
Definition rakpMessage2Size : Z := 40.
Definition rakpMessage4Size : Z := 8.
Definition integrityCheckSize : Z := 12.
Definition authCodeSize : Z := 20.

(** [if l := len(buf); l < size { buf = append(buf, make([]byte, size-l)...) }] *)
Definition zero_extend (buf : list Z) (size : Z) : list Z :=
  if len buf <? size then buf ++ make (size - len buf) else buf.

Record cipherSuite : Type := {
  Auth : Z;
  Integrity : Z;
  Crypt : Z
}.

Record openSessionResponse : Type := {
  osr_MessageTag : Z;
  osr_StatusCode : Z;
  osr_PrivilegeLevel : Z;
  osr_ConsoleID : Z;
  osr_ManagedID : Z;
  osr_CipherSuite : cipherSuite
}.

(** [func (o *openSessionResponse) Unmarshal(buf []byte) ([]byte, error)] *)
Definition openSessionResponse_Unmarshal (buf : list Z)
  : result (openSessionResponse * list Z) :=
  let buf := zero_extend buf openSessionResponseSize in
  Ok ({| osr_MessageTag := index buf 0;
         osr_StatusCode := index buf 1;
         osr_PrivilegeLevel := index buf 2;
         osr_ConsoleID := le_uint32 (from buf 4);
         osr_ManagedID := le_uint32 (from buf 8);
         osr_CipherSuite := {| Auth := index buf 16;
                               Integrity := index buf 24;
                               Crypt := index buf 32 |} |},
      from buf openSessionResponseSize).

Record rakpMessage2 : Type := {
  r2_MessageTag : Z;
  r2_StatusCode : Z;
  r2_ConsoleID : Z;
  r2_ManagedRand : list Z;
  r2_ManagedGUID : list Z;
  r2_KeyExchangeAuthCode : list Z
}.

(** [func (r *rakpMessage2) Unmarshal(buf []byte) ([]byte, error)] *)
Definition rakpMessage2_Unmarshal (buf : list Z)
  : result (rakpMessage2 * list Z) :=
  let size := rakpMessage2Size in
  let buf := zero_extend buf size in
  Ok ({| r2_MessageTag := index buf 0;
         r2_StatusCode := index buf 1;
         r2_ConsoleID := le_uint32 (from buf 4);
         r2_ManagedRand := copy (make 16) (slice buf 8 24);
         r2_ManagedGUID := copy (make 16) (slice buf 24 40);
         r2_KeyExchangeAuthCode := copy (make authCodeSize) (from buf 40) |},
      from buf size).

Record rakpMessage4 : Type := {
  r4_MessageTag : Z;
  r4_StatusCode : Z;
  r4_ConsoleID : Z;
  r4_IntegrityCheckValue : list Z
}.

(** [func (r *rakpMessage4) Unmarshal(buf []byte) ([]byte, error)] *)
Definition rakpMessage4_Unmarshal (buf : list Z)
  : result (rakpMessage4 * list Z) :=
  let size := rakpMessage4Size + integrityCheckSize in
  let buf := zero_extend buf size in
  Ok ({| r4_MessageTag := index buf 0;
         r4_StatusCode := index buf 1;
         r4_ConsoleID := le_uint32 (from buf 4);
         r4_IntegrityCheckValue := copy (make integrityCheckSize) (from buf 8) |},
      from buf size).

End PayloadSession.

(** ** Truncated receive buffers *)

Module Truncated.

Import PayloadIPMI Framing PayloadSession.

Lemma zero_extend_short (buf : list Z) (size : Z) :
  len buf < size -> zero_extend buf size = buf ++ make (size - len buf).
Proof.
  intro H. unfold zero_extend.
  destruct (len buf <? size) eqn:E; [reflexivity|].
  apply Z.ltb_ge in E. lia.
Qed.

Lemma zero_extend_long (buf : list Z) (size : Z) :
  size <= len buf -> zero_extend buf size = buf.
Proof.
  intro H. unfold zero_extend.
  destruct (len buf <? size) eqn:E; [|reflexivity].
  apply Z.ltb_lt in E. lia.
Qed.

Lemma zero_extend_idem (buf : list Z) (size : Z) :
  zero_extend (zero_extend buf size) size = zero_extend buf size.
Proof.
  destruct (Z_lt_le_dec (len buf) size) as [H | H].
  - rewrite (zero_extend_short buf size H).
    apply zero_extend_long. rewrite len_app, len_make by lia. lia.
  - rewrite (zero_extend_long buf size H). apply zero_extend_long, H.
Qed.

Lemma len_zero_extend (buf : list Z) (size : Z) :
  len buf < size -> len (zero_extend buf size) = size.
Proof.
  intro H. rewrite zero_extend_short by assumption.
  rewrite len_app, len_make by lia. lia.
Qed.

(** The handshake payloads accept the empty buffer and buffers cut in the
    middle of their fixed part: the claim that every short buffer is refused
    with a message error fails for them. *)
Lemma handshake_payloads_accept_short_buffers :
  (len ([] : list Z) < openSessionResponseSize /\
   ~ is_message_error (openSessionResponse_Unmarshal [])) /\
  (len [0; 1; 0; 0] < rakpMessage2Size /\
   ~ is_message_error (rakpMessage2_Unmarshal [0; 1; 0; 0])) /\
  (len [0; 2; 0; 0; 0x49] < rakpMessage4Size + integrityCheckSize /\
   ~ is_message_error (rakpMessage4_Unmarshal [0; 2; 0; 0; 0x49])).
Proof.
  repeat split; try reflexivity; intros [m H]; discriminate H.
Qed.

(** C3 (amended): a buffer shorter than the fixed size is refused with a
    message error by the RMCP header, the ASF header, the Pong body, both
    session headers and the IPMI response message; the RMCP+ Open Session
    Response, RAKP 2 and RAKP 4 payloads never fail: a short buffer is
    extended with zero bytes to the fixed size and decoded as such. *)
Theorem short_buffers :
  (forall buf, len buf < rmcpHeaderSize ->
               is_message_error (rmcpHeader_Unmarshal buf)) /\
  (forall buf, len buf < asfHeaderSize ->
               is_message_error (asfHeader_Unmarshal buf)) /\
  (forall buf, len buf < pongBodySize ->
               is_message_error (pongMessage_Unmarshal buf)) /\
  (forall buf, len buf < sessionHeaderV1_5Size ->
               is_message_error (sessionHeaderV1_5_Unmarshal buf)) /\
  (forall buf, len buf < sessionHeaderV1_5SizeWithAuth ->
               index buf 0 <> authTypeNone ->
               is_message_error (sessionHeaderV1_5_Unmarshal buf)) /\
  (forall buf, len buf < sessionHeaderV2_0Size ->
               is_message_error (sessionHeaderV2_0_Unmarshal buf)) /\
  (forall buf, len buf < ipmiResponseMessageMinSize ->
               is_message_error (ipmiResponseMessage_Unmarshal buf)) /\
  (forall buf, len buf < openSessionResponseSize ->
      (exists r, openSessionResponse_Unmarshal buf = Ok (r, [])) /\
      openSessionResponse_Unmarshal buf =
      openSessionResponse_Unmarshal (buf ++ make (openSessionResponseSize - len buf))) /\
  (forall buf, len buf < rakpMessage2Size ->
      (exists r, rakpMessage2_Unmarshal buf = Ok (r, [])) /\
      rakpMessage2_Unmarshal buf =
      rakpMessage2_Unmarshal (buf ++ make (rakpMessage2Size - len buf))) /\
  (forall buf, len buf < rakpMessage4Size + integrityCheckSize ->
      (exists r, rakpMessage4_Unmarshal buf = Ok (r, [])) /\
      rakpMessage4_Unmarshal buf =
      rakpMessage4_Unmarshal
        (buf ++ make (rakpMessage4Size + integrityCheckSize - len buf))).
Proof.
  assert (Hrest : forall buf size, len buf < size ->
                                   from (zero_extend buf size) size = []).
  { intros buf size H. unfold from. apply skipn_all2.
    pose proof (len_zero_extend buf size H) as L. unfold len in L. lia. }
  repeat split.
  - intros buf H. unfold rmcpHeader_Unmarshal.
    apply Z.ltb_lt in H. rewrite H. eexists; reflexivity.
  - intros buf H. unfold asfHeader_Unmarshal.
    apply Z.ltb_lt in H. rewrite H. eexists; reflexivity.
  - intros buf H. unfold pongMessage_Unmarshal.
    apply Z.ltb_lt in H. rewrite H. eexists; reflexivity.
  - intros buf H. unfold sessionHeaderV1_5_Unmarshal.
    apply Z.ltb_lt in H. rewrite H. eexists; reflexivity.
  - intros buf H Hauth. unfold sessionHeaderV1_5_Unmarshal.
    destruct (len buf <? sessionHeaderV1_5Size); [eexists; reflexivity|].
    apply Z.eqb_neq in Hauth. rewrite Hauth.
    replace (sessionHeaderV1_5SizeWithAuth <=? len buf) with false;
      [eexists; reflexivity|].
    symmetry. apply Z.leb_gt. assumption.
  - intros buf H. unfold sessionHeaderV2_0_Unmarshal.
    apply Z.ltb_lt in H. rewrite H. eexists; reflexivity.
  - intros buf H. unfold ipmiResponseMessage_Unmarshal.
    apply Z.ltb_lt in H. rewrite H. eexists; reflexivity.
  - unfold openSessionResponse_Unmarshal. eexists. apply f_equal.
    apply f_equal2; [reflexivity | apply Hrest; assumption].
  - unfold openSessionResponse_Unmarshal.
    rewrite <- zero_extend_short by assumption.
    rewrite zero_extend_idem. reflexivity.
  - unfold rakpMessage2_Unmarshal. eexists. apply f_equal.
    apply f_equal2; [reflexivity | apply Hrest; assumption].
  - unfold rakpMessage2_Unmarshal.
    rewrite <- zero_extend_short by assumption.
    rewrite zero_extend_idem. reflexivity.
  - unfold rakpMessage4_Unmarshal. eexists. apply f_equal.
    apply f_equal2; [reflexivity | apply Hrest; assumption].
  - unfold rakpMessage4_Unmarshal.
    rewrite <- zero_extend_short by assumption.
    rewrite zero_extend_idem. reflexivity.
Qed.

(** A 7-byte IPMI response is refused; a 4-byte RAKP 2 payload is decoded. *)
Lemma short_buffers_witness :
  is_message_error (ipmiResponseMessage_Unmarshal [0x81; 0x1c; 0x63; 0x20; 0; 1; 0]) /\
  (exists r, rakpMessage2_Unmarshal [0; 1; 0; 0] = Ok (r, [])).
Proof.
  pose proof short_buffers as (_ & _ & _ & _ & _ & _ & Hipmi & _ & Hr2 & _).
  split.
  - apply Hipmi. reflexivity.
  - apply (Hr2 [0; 1; 0; 0]). reflexivity.
Defined.

End Truncated.

(** ** command_message.go: payload confidentiality (AES-CBC-128) *)

Module Crypto.

Definition BlockSize : Z := 16.

(** [xorBytes] of crypto/cipher: byte-wise exclusive or. *)
Fixpoint xorBytes (a b : list Z) : list Z :=
  match a, b with
  | x :: a', y :: b' => Z.lxor x y :: xorBytes a' b'
  | _, _ => []
  end.

(** [bytes.Equal]. *)
Fixpoint bytes_Equal (a b : list Z) : bool :=
  match a, b with
  | [], [] => true
  | x :: a', y :: b' => (x =? y) && bytes_Equal a' b'
  | _, _ => false
  end.

(** [padLen] of [encryptPayload]. *)
Definition encryptPadLen (srcLen : Z) : Z :=
  let mod_ := (srcLen + 1) mod BlockSize in
  if mod_ =? 0 then 0 else BlockSize - mod_.

(** [for i := 0; i < padLen; i++ { input[srcLen+i] = byte(i + 1) }] *)
Definition encryptPad (padLen : Z) : list Z :=
  map (fun i => byte (Z.of_nat i + 1)) (seq 0 (Z.to_nat padLen)).

(** The buffer [input] of [encryptPayload]: source, pad, pad length. *)
Definition encryptInput (src : list Z) : list Z :=
  let padLen := encryptPadLen (len src) in
  src ++ encryptPad padLen ++ [byte padLen].

Section BlockCipher.

(** The AES block operations of crypto/aes under a 16-byte key; each maps a
    16-byte block to a 16-byte block. *)
Variable aes_Encrypt : list Z -> list Z -> list Z.
Variable aes_Decrypt : list Z -> list Z -> list Z.

(** [cipher.NewCBCEncrypter(block, iv).CryptBlocks(dst, src)] on [n] blocks. *)
Fixpoint cbcEncrypt (n : nat) (key iv src : list Z) : list Z :=
  match n with
  | O => []
  | S n' =>
      let c := aes_Encrypt key (xorBytes (firstn 16 src) iv) in
      c ++ cbcEncrypt n' key c (skipn 16 src)
  end.

(** [cipher.NewCBCDecrypter(block, iv).CryptBlocks(dst, src)] on [n] blocks. *)
Fixpoint cbcDecrypt (n : nat) (key iv src : list Z) : list Z :=
  match n with
  | O => []
  | S n' =>
      let c := firstn 16 src in
      xorBytes (aes_Decrypt key c) iv ++ cbcDecrypt n' key c (skipn 16 src)
  end.

(** [CryptBlocks] panics when the input is not a whole number of blocks. *)
Definition CryptBlocks (mode : nat -> list Z -> list Z -> list Z -> list Z)
           (key iv src : list Z) : result (list Z) :=
  if len src mod BlockSize =? 0 then
    Ok (mode (Z.to_nat (len src / BlockSize)) key iv src)
  else Panic "crypto/cipher: input not full blocks".

(** [func encryptPayload(src, key []byte) ([]byte, error)]; [rnd] is the
    outcome of [rand.Read(iv)] on the 16-byte [iv]. *)
Definition encryptPayload (src key : list Z) (rnd : result (list Z))
  : result (list Z) :=
  if len key <? 16 then Panic "slice bounds out of range"
  else
    let input := encryptInput src in
    match rnd with
    | Ok iv =>
        match CryptBlocks cbcEncrypt (slice key 0 16) iv input with
        | Ok c => Ok (iv ++ c)
        | other => other
        end
    | other => other
    end.

(** [func decryptPayload(src, key []byte) ([]byte, error)] *)
Definition decryptPayload (src key : list Z) : result (list Z) :=
  if len key <? 16 then Panic "slice bounds out of range"
  else
    let l := len src in
    if (l <? BlockSize) || negb (l mod BlockSize =? 0) then
      Err (MessageError "Payload is not the specified length")
    else
      let iv := slice src 0 BlockSize in
      let data := from src BlockSize in
      match CryptBlocks cbcDecrypt (slice key 0 16) iv data with
      | Ok dst =>
          if len dst - 1 <? 0 then Panic "index out of range"
          else
            let padLen := index dst (len dst - 1) in
            if len dst - padLen - 1 <? 0 then Panic "slice bounds out of range"
            else Ok (slice dst 0 (len dst - padLen - 1))
      | other => other
      end.

End BlockCipher.

(** A stand-in block cipher (exclusive or with the key) used to run the
    definitions on concrete inputs. *)
Definition fit16 (b : list Z) : list Z := firstn 16 (b ++ repeat 0 16).
Definition toy_Encrypt (key block : list Z) : list Z :=
  xorBytes (fit16 block) (fit16 key).
Definition toy_Decrypt (key block : list Z) : list Z :=
  xorBytes (fit16 block) (fit16 key).

(** ** command_message.go: integrity trailer (HMAC-SHA1-96) *)

(** [padLen] of [makeTrailer]. *)
Definition trailerPadLen (srcLen : Z) : Z :=
  let mod_ := (srcLen + 1 + 1 + 12) mod 4 in
  if mod_ =? 0 then 0 else 4 - mod_.

(** Inverts bit [j] of byte [i] of a message. *)
Fixpoint flip_bit (msg : list Z) (i : nat) (j : Z) : list Z :=
  match msg, i with
  | [], _ => []
  | b :: rest, O => Z.lxor b (Z.shiftl 1 j) :: rest
  | b :: rest, S i' => b :: flip_bit rest i' j
  end.

Section HMAC.

(** [mac := hmac.New(sha1.New, key); mac.Write(data); mac.Sum(nil)] of
    crypto/hmac and crypto/sha1: key, then message. *)
Variable hmac_sha1 : list Z -> list Z -> list Z.

(** The bytes [data[:srcLen+padLen+2]] of [makeTrailer], which the MAC covers. *)
Definition trailerData (src : list Z) : list Z :=
  let padLen := trailerPadLen (len src) in
  src ++ repeat 0xff (Z.to_nat padLen) ++ [byte padLen; 0x07].

(** [func makeTrailer(src, key []byte) []byte] *)
Definition makeTrailer (src key : list Z) : list Z :=
  let srcLen := len src in
  let data := trailerData src in
  let authCode := hmac_sha1 key data in
  from (data ++ copy (make 12) (slice authCode 0 12)) srcLen.

(** [func validateTrailer(src, key []byte) error] *)
Definition validateTrailer (src key : list Z) : result unit :=
  if len src <? 12 then
    Err (MessageError "Payload does not contain auth code")
  else
    let authCode := from src (len src - 12) in
    let generated := hmac_sha1 key (slice src 0 (len src - 12)) in
    if negb (bytes_Equal authCode (slice generated 0 12)) then
      Err (MessageError "Received message with invalid authcode")
    else Ok tt.

End HMAC.

(** A stand-in MAC (bit parity of the message in the first of 20 bytes) used
    to run the definitions on concrete inputs. *)
Definition parity8 (b : Z) : bool :=
  xorb (Z.testbit b 0) (xorb (Z.testbit b 1) (xorb (Z.testbit b 2)
  (xorb (Z.testbit b 3) (xorb (Z.testbit b 4) (xorb (Z.testbit b 5)
  (xorb (Z.testbit b 6) (Z.testbit b 7))))))).
Fixpoint parity (msg : list Z) : bool :=
  match msg with
  | [] => false
  | b :: rest => xorb (parity8 b) (parity rest)
  end.
Definition toy_hmac (key msg : list Z) : list Z :=
  Z.b2z (parity msg) :: repeat 0 19.

(** *** Slices of concatenations *)

Lemma slice_app_l (a b : list Z) : slice (a ++ b) 0 (len a) = a.
Proof.
  unfold slice, len. simpl skipn. rewrite Z.sub_0_r, Nat2Z.id.
  rewrite firstn_app, Nat.sub_diag, firstn_all. simpl. apply app_nil_r.
Qed.

Lemma from_app_r (a b : list Z) : from (a ++ b) (len a) = b.
Proof.
  unfold from, len. rewrite Nat2Z.id.
  rewrite skipn_app, Nat.sub_diag, skipn_all. reflexivity.
Qed.

Lemma index_app_last (a : list Z) (x : Z) : index (a ++ [x]) (len a) = x.
Proof.
  unfold index, len. rewrite Nat2Z.id. rewrite app_nth2 by lia.
  rewrite Nat.sub_diag. reflexivity.
Qed.

Lemma firstn_app_exact {A : Type} (a b : list A) (n : nat) :
  length a = n -> firstn n (a ++ b) = a.
Proof.
  intros <-. rewrite firstn_app, Nat.sub_diag, firstn_all. simpl.
  apply app_nil_r.
Qed.

Lemma skipn_app_exact {A : Type} (a b : list A) (n : nat) :
  length a = n -> skipn n (a ++ b) = b.
Proof.
  intros <-. rewrite skipn_app, Nat.sub_diag, skipn_all. reflexivity.
Qed.

(** *** Exclusive or *)

Lemma xorBytes_length (a b : list Z) :
  length (xorBytes a b) = Nat.min (length a) (length b).
Proof.
  revert b. induction a as [|x a IH]; intros [|y b]; simpl; auto.
Qed.

Lemma xorBytes_cancel (a b : list Z) :
  length a = length b -> xorBytes (xorBytes a b) b = a.
Proof.
  revert b. induction a as [|x a IH]; intros [|y b] H; simpl in *; try discriminate.
  - reflexivity.
  - rewrite IH by lia.
    rewrite Z.lxor_assoc, Z.lxor_nilpotent, Z.lxor_0_r. reflexivity.
Qed.

Lemma lxor_bit_neq (b j : Z) : 0 <= j -> Z.lxor b (Z.shiftl 1 j) <> b.
Proof.
  intros Hj Heq.
  assert (H : Z.testbit (Z.lxor b (Z.shiftl 1 j)) j = Z.testbit b j)
    by (rewrite Heq; reflexivity).
  rewrite Z.lxor_spec, Z.shiftl_spec, Z.sub_diag in H by lia.
  simpl in H. destruct (Z.testbit b j); discriminate.
Qed.

Lemma bytes_Equal_eq (a b : list Z) : bytes_Equal a b = true <-> a = b.
Proof.
  revert b. induction a as [|x a IH]; intros [|y b]; simpl;
    try (split; [discriminate | discriminate]); try tauto.
  rewrite andb_true_iff, Z.eqb_eq, IH. split.
  - intros [-> ->]; reflexivity.
  - intro H; inversion H; auto.
Qed.

(** *** The pad of [encryptPayload] *)

Lemma encryptPadLen_spec (l : Z) :
  0 <= encryptPadLen l < 16 /\ (l + 1 + encryptPadLen l) mod 16 = 0.
Proof.
  unfold encryptPadLen, BlockSize.
  pose proof (Z.mod_pos_bound (l + 1) 16 ltac:(lia)) as Hm.
  destruct ((l + 1) mod 16 =? 0) eqn:E.
  - apply Z.eqb_eq in E. split; [lia|]. rewrite Z.add_0_r. exact E.
  - apply Z.eqb_neq in E. split; [lia|].
    replace (l + 1 + (16 - (l + 1) mod 16)) with ((l + 1 - (l + 1) mod 16) + 1 * 16) by lia.
    rewrite Z.mod_add by lia.
    rewrite Zminus_mod, Zmod_mod, Z.sub_diag. reflexivity.
Qed.

Lemma encryptPad_spec (padLen : Z) :
  padLen < 256 -> encryptPad padLen = map Z.of_nat (seq 1 (Z.to_nat padLen)).
Proof.
  intro H. unfold encryptPad. rewrite <- seq_shift, map_map.
  apply map_ext_in. intros i Hi. apply in_seq in Hi.
  unfold byte. rewrite Z.mod_small by lia. lia.
Qed.

Lemma len_encryptPad (padLen : Z) : 0 <= padLen -> len (encryptPad padLen) = padLen.
Proof.
  intro H. unfold len, encryptPad. rewrite length_map, length_seq. lia.
Qed.

Lemma len_encryptInput (src : list Z) :
  len (encryptInput src) = len src + encryptPadLen (len src) + 1.
Proof.
  pose proof (encryptPadLen_spec (len src)) as [Hp _].
  unfold encryptInput. rewrite !len_app, len_encryptPad by lia.
  unfold len at 3. simpl. lia.
Qed.

(** *** CBC round trip *)

Section BlockCipherFacts.

Variable aes_Encrypt : list Z -> list Z -> list Z.
Variable aes_Decrypt : list Z -> list Z -> list Z.

(** AES-128 maps a 16-byte block to a 16-byte block, and decryption under
    the same 16-byte key inverts encryption. *)
Hypothesis aes_Encrypt_length :
  forall key block, length key = 16%nat -> length block = 16%nat ->
                    length (aes_Encrypt key block) = 16%nat.
Hypothesis aes_Decrypt_Encrypt :
  forall key block, length key = 16%nat -> length block = 16%nat ->
                    aes_Decrypt key (aes_Encrypt key block) = block.

Lemma cbcEncrypt_length (n : nat) (key : list Z) :
  length key = 16%nat ->
  forall iv src, length iv = 16%nat -> length src = (16 * n)%nat ->
  length (cbcEncrypt aes_Encrypt n key iv src) = (16 * n)%nat.
Proof.
  intro Hk. induction n as [|n IH]; intros iv src Hiv Hsrc; cbn [cbcEncrypt].
  - reflexivity.
  - assert (Hx : length (xorBytes (firstn 16 src) iv) = 16%nat)
      by (rewrite xorBytes_length, length_firstn; lia).
    rewrite length_app, aes_Encrypt_length by assumption.
    rewrite IH; [lia | apply aes_Encrypt_length; assumption
                | rewrite length_skipn; lia].
Qed.

Lemma cbc_roundtrip (n : nat) (key : list Z) :
  length key = 16%nat ->
  forall iv src, length iv = 16%nat -> length src = (16 * n)%nat ->
  cbcDecrypt aes_Decrypt n key iv (cbcEncrypt aes_Encrypt n key iv src) = src.
Proof.
  intro Hk. induction n as [|n IH]; intros iv src Hiv Hsrc.
  - destruct src; [reflexivity | discriminate].
  - assert (Hf : length (firstn 16 src) = 16%nat)
      by (rewrite length_firstn; lia).
    assert (Hx : length (xorBytes (firstn 16 src) iv) = 16%nat)
      by (rewrite xorBytes_length; lia).
    pose proof (aes_Encrypt_length key _ Hk Hx) as Hc.
    cbn [cbcEncrypt cbcDecrypt].
    set (c := aes_Encrypt key (xorBytes (firstn 16 src) iv)) in *.
    rewrite (firstn_app_exact c _ 16 Hc), (skipn_app_exact c _ 16 Hc).
    unfold c at 1. rewrite aes_Decrypt_Encrypt by assumption.
    rewrite xorBytes_cancel by lia.
    rewrite IH; [apply firstn_skipn | assumption | rewrite length_skipn; lia].
Qed.

Lemma slice_all (a : list Z) : slice a 0 (len a) = a.
Proof. rewrite <- (app_nil_r a) at 1. apply slice_app_l. Qed.

Lemma blocks_of_len (input : list Z) :
  0 < len input -> len input mod 16 = 0 ->
  0 < len input / 16 /\ len input = 16 * (len input / 16) /\
  length input = (16 * Z.to_nat (len input / 16))%nat.
Proof.
  intros Hpos Hmod.
  pose proof (Z.div_mod (len input) 16 ltac:(lia)) as Hdm.
  rewrite Hmod in Hdm. unfold len in *. split; [lia | split; lia].
Qed.

(** C4: for every plaintext [p] (in particular of 0 through 47 bytes), every
    16-byte key and every 16-byte IV, [encryptPayload] pads [p] with the
    bytes 1, 2, ..., padLen followed by the byte padLen, where
    (len p + 1 + padLen) is a multiple of 16; the ciphertext is the IV
    followed by a positive number of 16-byte blocks; and [decryptPayload]
    returns [p] byte for byte. *)
Theorem encrypt_decrypt_roundtrip (p key iv : list Z) :
  len key = 16 -> len iv = 16 ->
  let padLen := encryptPadLen (len p) in
  let input := p ++ map Z.of_nat (seq 1 (Z.to_nat padLen)) ++ [padLen] in
  let c := iv ++ cbcEncrypt aes_Encrypt (Z.to_nat (len input / 16)) key iv input in
  0 <= padLen < 16 /\
  (len p + 1 + padLen) mod 16 = 0 /\
  encryptInput p = input /\
  index input (len input - 1) = padLen /\
  encryptPayload aes_Encrypt p key (Ok iv) = Ok c /\
  (exists m, 0 < m /\ len c = 16 + 16 * m) /\
  decryptPayload aes_Decrypt c key = Ok p.
Proof.
  intros Hkey Hiv padLen input c.
  pose proof (encryptPadLen_spec (len p)) as [Hpad Hmod]. fold padLen in Hpad, Hmod.
  assert (Hinput : encryptInput p = input).
  { unfold encryptInput. fold padLen. rewrite encryptPad_spec by lia.
    unfold byte. rewrite Z.mod_small by lia. reflexivity. }
  assert (Hlen : len input = len p + padLen + 1).
  { rewrite <- Hinput. apply len_encryptInput. }
  assert (Hlast : index input (len input - 1) = padLen).
  { unfold input. rewrite app_assoc, len_app.
    replace (len (p ++ map Z.of_nat (seq 1 (Z.to_nat padLen))) + len [padLen] - 1)
      with (len (p ++ map Z.of_nat (seq 1 (Z.to_nat padLen))))
      by (unfold len at 3; simpl; lia).
    apply index_app_last. }
  pose proof (len_nonneg p) as Hp0.
  destruct (blocks_of_len input) as (Hm & Hdiv & Hnat);
    [lia | rewrite Hlen; rewrite <- Hmod; f_equal; lia |].
  set (n := Z.to_nat (len input / 16)) in *.
  assert (Hk : length key = 16%nat) by (unfold len in Hkey; lia).
  assert (Hi : length iv = 16%nat) by (unfold len in Hiv; lia).
  pose proof (cbcEncrypt_length n key Hk iv input Hi Hnat) as Hclen.
  assert (Hkslice : slice key 0 16 = key) by (rewrite <- Hkey; apply slice_all).
  assert (Henc : encryptPayload aes_Encrypt p key (Ok iv) = Ok c).
  { unfold encryptPayload, CryptBlocks, BlockSize.
    rewrite Hkey, Hinput, Hkslice. simpl (16 <? 16).
    replace (len input mod 16 =? 0) with true
      by (symmetry; apply Z.eqb_eq; rewrite Hdiv, Z.mul_comm; apply Z.mod_mul; lia).
    reflexivity. }
  assert (Hcl : len c = 16 + 16 * (len input / 16)).
  { unfold c. rewrite len_app, Hiv. unfold len at 1. fold n. rewrite Hclen.
    unfold n. rewrite Nat2Z.inj_mul, Z2Nat.id by lia. reflexivity. }
  repeat split; try assumption; try lia.
  - exists (len input / 16). split; assumption.
  - unfold decryptPayload, CryptBlocks, BlockSize.
    rewrite Hkey, Hkslice, Hcl. simpl (16 <? 16).
    replace (16 + 16 * (len input / 16) <? 16) with false
      by (symmetry; apply Z.ltb_ge; lia).
    replace ((16 + 16 * (len input / 16)) mod 16 =? 0) with true
      by (symmetry; apply Z.eqb_eq;
          replace (16 + 16 * (len input / 16)) with ((1 + len input / 16) * 16) by lia;
          apply Z.mod_mul; lia).
    simpl orb. cbv iota.
    unfold c. fold n.
    assert (Hs : forall x : list Z, slice (iv ++ x) 0 16 = iv)
      by (intro x; rewrite <- Hiv; apply slice_app_l).
    assert (Hf : forall x : list Z, from (iv ++ x) 16 = x)
      by (intro x; rewrite <- Hiv; apply from_app_r).
    rewrite Hs, Hf.
    assert (Hcz : len (cbcEncrypt aes_Encrypt n key iv input) = len input)
      by (unfold len; rewrite Hclen, Hnat; reflexivity).
    rewrite Hcz.
    replace (len input mod 16 =? 0) with true
      by (symmetry; apply Z.eqb_eq; rewrite Hdiv, Z.mul_comm; apply Z.mod_mul; lia).
    fold n. rewrite (cbc_roundtrip n key Hk iv input Hi Hnat).
    replace (len input - 1 <? 0) with false by (symmetry; apply Z.ltb_ge; lia).
    rewrite Hlast.
    replace (len input - padLen - 1 <? 0) with false by (symmetry; apply Z.ltb_ge; lia).
    replace (len input - padLen - 1) with (len p) by lia.
    unfold input. rewrite slice_app_l. reflexivity.
Qed.

Lemma decryptPayload_pad_too_long (key iv : list Z) :
  len key = 16 -> len iv = 16 ->
  decryptPayload aes_Decrypt
    (iv ++ aes_Encrypt key (xorBytes (make 15 ++ [0xff]) iv)) key
  = Panic "slice bounds out of range".
Proof.
  intros Hkey Hiv.
  assert (Hk : length key = 16%nat) by (unfold len in Hkey; lia).
  assert (Hi : length iv = 16%nat) by (unfold len in Hiv; lia).
  assert (Hx : length (xorBytes (make 15 ++ [0xff]) iv) = 16%nat)
    by (rewrite xorBytes_length, Hi; reflexivity).
  pose proof (aes_Encrypt_length key _ Hk Hx) as Hc.
  set (c := aes_Encrypt key (xorBytes (make 15 ++ [0xff]) iv)) in *.
  assert (Hlc : len c = 16) by (unfold len; rewrite Hc; reflexivity).
  assert (Hl : len (iv ++ c) = 32) by (rewrite len_app; lia).
  assert (Hkslice : slice key 0 16 = key) by (rewrite <- Hkey; apply slice_all).
  assert (Hs : slice (iv ++ c) 0 16 = iv) by (rewrite <- Hiv; apply slice_app_l).
  assert (Hf : from (iv ++ c) 16 = c) by (rewrite <- Hiv; apply from_app_r).
  unfold decryptPayload, CryptBlocks, BlockSize.
  rewrite Hkey, Hl, Hkslice, Hs, Hf, Hlc.
  change (Z.to_nat (16 / 16)) with 1%nat.
  simpl (16 <? 16). simpl ((32 <? 16) || negb (32 mod 16 =? 0)).
  simpl (16 mod 16 =? 0). cbv iota. cbn [cbcDecrypt].
  replace (firstn 16 c) with c by (symmetry; rewrite <- Hc; apply firstn_all).
  unfold c. rewrite aes_Decrypt_Encrypt by assumption.
  rewrite xorBytes_cancel by (rewrite Hi; reflexivity).
  reflexivity.
Qed.

End BlockCipherFacts.

(** *** The stand-in cipher is a block cipher *)

Lemma fit16_length (b : list Z) : length (fit16 b) = 16%nat.
Proof.
  unfold fit16. rewrite length_firstn, length_app, repeat_length. lia.
Qed.

Lemma fit16_id (b : list Z) : length b = 16%nat -> fit16 b = b.
Proof. intro H. unfold fit16. apply firstn_app_exact, H. Qed.

Lemma toy_Encrypt_length (key block : list Z) :
  length key = 16%nat -> length block = 16%nat ->
  length (toy_Encrypt key block) = 16%nat.
Proof.
  intros _ _. unfold toy_Encrypt. rewrite xorBytes_length, !fit16_length.
  reflexivity.
Qed.

Lemma toy_Decrypt_Encrypt (key block : list Z) :
  length key = 16%nat -> length block = 16%nat ->
  toy_Decrypt key (toy_Encrypt key block) = block.
Proof.
  intros Hk Hb. unfold toy_Decrypt, toy_Encrypt.
  rewrite (fit16_id key Hk), (fit16_id block Hb).
  rewrite fit16_id by (rewrite xorBytes_length; lia).
  apply xorBytes_cancel. lia.
Qed.

(** A 3-byte payload under the stand-in cipher: 12 pad bytes and the pad
    length fill one block, and decryption returns the payload. *)
Lemma encrypt_decrypt_roundtrip_witness :
  let p := [0x20; 0x18; 0xc8] in
  let key := [1; 2; 3; 4; 5; 6; 7; 8; 9; 10; 11; 12; 13; 14; 15; 16] in
  let iv := make 16 in
  let input := p ++ [1; 2; 3; 4; 5; 6; 7; 8; 9; 10; 11; 12] ++ [12] in
  let c := iv ++ cbcEncrypt toy_Encrypt 1 key iv input in
  encryptPayload toy_Encrypt p key (Ok iv) = Ok c /\
  decryptPayload toy_Decrypt c key = Ok p.
Proof.
  intros p key iv input c.
  pose proof (encrypt_decrypt_roundtrip toy_Encrypt toy_Decrypt
                toy_Encrypt_length toy_Decrypt_Encrypt p key iv
                eq_refl eq_refl) as (_ & _ & _ & _ & Henc & _ & Hdec).
  split; [exact Henc | exact Hdec].
Defined.

(** *** Adversarial ciphertexts *)

Lemma decryptPayload_iv_only (aes_Decrypt : list Z -> list Z -> list Z)
      (src key : list Z) :
  16 <= len key -> len src = 16 ->
  decryptPayload aes_Decrypt src key = Panic "index out of range".
Proof.
  intros Hk Hs. unfold decryptPayload, CryptBlocks, BlockSize.
  replace (len key <? 16) with false by (symmetry; apply Z.ltb_ge; lia).
  rewrite Hs. simpl.
  assert (Hd : from src 16 = []).
  { unfold from. apply skipn_all2. unfold len in Hs. lia. }
  rewrite Hd. reflexivity.
Qed.

(** C10 (refuted on the code): [decryptPayload] is not total. A ciphertext
    of exactly one block (the IV alone) passes the length check and the read
    of the last decrypted byte indexes an empty slice, for any cipher; and a
    ciphertext whose last decrypted byte exceeds the decrypted length minus
    one (here 0xff against 16 bytes, under the stand-in cipher) makes the
    final slice expression panic. *)
Theorem decryptPayload_panics :
  (forall aes_Decrypt,
      decryptPayload aes_Decrypt (make 16) (make 16) = Panic "index out of range") /\
  decryptPayload toy_Decrypt (make 16 ++ make 15 ++ [0xff]) (make 16)
  = Panic "slice bounds out of range".
Proof.
  split.
  - intro dec. apply decryptPayload_iv_only; reflexivity.
  - reflexivity.
Qed.

(** *** The integrity trailer *)

Lemma trailerPadLen_spec (l : Z) :
  0 <= trailerPadLen l < 4 /\
  (l + trailerPadLen l + 2 + 12) mod 4 = 0 /\
  forall q, 0 <= q -> (l + q + 2 + 12) mod 4 = 0 -> trailerPadLen l <= q.
Proof.
  unfold trailerPadLen.
  destruct ((l + 1 + 1 + 12) mod 4 =? 0) eqn:E;
    [apply Z.eqb_eq in E | apply Z.eqb_neq in E];
    repeat split; intros; Z.div_mod_to_equations; lia.
Qed.

Lemma flip_bit_length (msg : list Z) (j : Z) :
  forall i, length (flip_bit msg i j) = length msg.
Proof.
  induction msg as [|b rest IH]; intros [|i]; simpl; auto.
Qed.

Lemma flip_bit_neq (msg : list Z) (j : Z) :
  0 <= j -> forall i, (i < length msg)%nat -> flip_bit msg i j <> msg.
Proof.
  intro Hj. induction msg as [|b rest IH]; intros [|i] Hi; simpl in *; try lia.
  - intro H. inversion H as [Hb]. exact (lxor_bit_neq b j Hj Hb).
  - intro H. inversion H as [Hr]. exact (IH i ltac:(lia) Hr).
Qed.

Lemma flip_bit_app (a b : list Z) (j : Z) :
  forall i,
    flip_bit (a ++ b) i j =
    if (i <? length a)%nat then flip_bit a i j ++ b
    else a ++ flip_bit b (i - length a) j.
Proof.
  induction a as [|x a IH]; intros i; simpl.
  - rewrite Nat.sub_0_r. reflexivity.
  - destruct i as [|i]; simpl; [reflexivity|].
    rewrite IH. change (S i <? S (length a))%nat with (i <? length a)%nat.
    destruct (i <? length a)%nat; reflexivity.
Qed.

Section HMACFacts.

Variable hmac_sha1 : list Z -> list Z -> list Z.

(** HMAC-SHA1 returns [sha1.Size] = 20 bytes. *)
Hypothesis hmac_sha1_length :
  forall key msg, length (hmac_sha1 key msg) = 20%nat.

Lemma authCode_length (key msg : list Z) :
  length (firstn 12 (hmac_sha1 key msg)) = 12%nat.
Proof. rewrite length_firstn, hmac_sha1_length. reflexivity. Qed.

Lemma makeTrailer_layout (src key : list Z) :
  let p := trailerPadLen (len src) in
  makeTrailer hmac_sha1 src key =
  repeat 0xff (Z.to_nat p) ++ [p; 0x07]
    ++ firstn 12 (hmac_sha1 key (src ++ repeat 0xff (Z.to_nat p) ++ [p; 0x07])).
Proof.
  intro p. pose proof (trailerPadLen_spec (len src)) as [Hp _]. fold p in Hp.
  unfold makeTrailer, trailerData. fold p.
  unfold byte. rewrite (Z.mod_small p 256) by lia.
  rewrite <- app_assoc, from_app_r, <- app_assoc.
  f_equal. cbn [app]. do 2 f_equal.
  apply copy_same_length. unfold slice.
  change (Z.to_nat (12 - 0)) with 12%nat. change (Z.to_nat 0) with 0%nat.
  cbn [skipn].
  rewrite authCode_length. reflexivity.
Qed.

Lemma validateTrailer_split (data authCode key : list Z) :
  length authCode = 12%nat ->
  validateTrailer hmac_sha1 (data ++ authCode) key =
  if bytes_Equal authCode (firstn 12 (hmac_sha1 key data)) then Ok tt
  else Err (MessageError "Received message with invalid authcode").
Proof.
  intro Ha. unfold validateTrailer.
  assert (Hl : len (data ++ authCode) - 12 = len data)
    by (rewrite len_app; unfold len; lia).
  pose proof (len_nonneg data) as Hd.
  replace (len (data ++ authCode) <? 12) with false
    by (symmetry; apply Z.ltb_ge; lia).
  rewrite Hl, from_app_r, slice_app_l.
  unfold slice. change (Z.to_nat (12 - 0)) with 12%nat.
  change (Z.to_nat 0) with 0%nat. cbn [skipn].
  destruct (bytes_Equal authCode (firstn 12 (hmac_sha1 key data))); reflexivity.
Qed.

(** Without any assumption on the MAC: inverting a bit of the covered bytes
    is refused exactly when the 96-bit MAC of the modified bytes differs
    from the one in the trailer, and inverting a bit of the auth code is
    always refused. *)
Lemma validateTrailer_flip (data key : list Z) (i : nat) (j : Z) :
  0 <= j < 8 ->
  let authCode := firstn 12 (hmac_sha1 key data) in
  ((i < length data)%nat ->
   (is_message_error (validateTrailer hmac_sha1 (flip_bit (data ++ authCode) i j) key)
    <-> firstn 12 (hmac_sha1 key (flip_bit data i j)) <> authCode)) /\
  ((length data <= i < length data + 12)%nat ->
   is_message_error (validateTrailer hmac_sha1 (flip_bit (data ++ authCode) i j) key)).
Proof.
  intros Hj authCode.
  assert (Ha : length authCode = 12%nat) by apply authCode_length.
  rewrite flip_bit_app. split; intro Hi.
  - replace (i <? length data)%nat with true by (symmetry; apply Nat.ltb_lt; assumption).
    rewrite validateTrailer_split by assumption.
    destruct (bytes_Equal authCode (firstn 12 (hmac_sha1 key (flip_bit data i j))))
             eqn:Heq.
    + apply bytes_Equal_eq in Heq. split.
      * intros [m Hm]. discriminate Hm.
      * intro Hne. exfalso. apply Hne. symmetry. exact Heq.
    + split.
      * intros _ Hsame. rewrite Hsame in Heq.
        assert (Ht : bytes_Equal authCode authCode = true)
          by (apply bytes_Equal_eq; reflexivity).
        rewrite Ht in Heq. discriminate Heq.
      * intros _. eexists; reflexivity.
  - replace (i <? length data)%nat with false by (symmetry; apply Nat.ltb_ge; lia).
    rewrite validateTrailer_split by (rewrite flip_bit_length; assumption).
    fold authCode.
    destruct (bytes_Equal (flip_bit authCode (i - length data) j) authCode)
             eqn:Heq; [|eexists; reflexivity].
    apply bytes_Equal_eq in Heq. exfalso.
    apply (flip_bit_neq authCode j ltac:(lia) (i - length data)%nat); [lia | exact Heq].
Qed.

(** X16: for every MAC function with 20 bytes of output, the trailer built
    by [makeTrailer] is [p] bytes 0xFF, the pad-length byte [p], the
    next-header byte 0x07 and the first 12 bytes of the MAC of source, pad,
    pad length and next header, where [p] is the least non-negative integer
    with (len src + p + 2 + 12) mod 4 = 0; [validateTrailer] accepts the
    source followed by its trailer; it refuses the message once a bit of the
    12-byte authentication code is inverted; and once a bit of the bytes
    before it is inverted, it refuses the message exactly when the first 12
    bytes of the MAC of the changed bytes differ from the code: the pad, the
    pad length and the next header are not looked at by themselves. *)
Theorem trailer_layout_and_check (src key : list Z) :
  let p := trailerPadLen (len src) in
  let data := src ++ repeat 0xff (Z.to_nat p) ++ [p; 0x07] in
  let authCode := firstn 12 (hmac_sha1 key data) in
  let msg := src ++ makeTrailer hmac_sha1 src key in
  (0 <= p /\ (len src + p + 2 + 12) mod 4 = 0 /\
   forall q, 0 <= q -> (len src + q + 2 + 12) mod 4 = 0 -> p <= q) /\
  makeTrailer hmac_sha1 src key = repeat 0xff (Z.to_nat p) ++ [p; 0x07] ++ authCode /\
  length authCode = 12%nat /\
  msg = data ++ authCode /\
  validateTrailer hmac_sha1 msg key = Ok tt /\
  (forall i j, (length data <= i < length msg)%nat -> 0 <= j < 8 ->
     validateTrailer hmac_sha1 (flip_bit msg i j) key
     = Err (MessageError "Received message with invalid authcode")) /\
  (forall i j, (i < length data)%nat -> 0 <= j < 8 ->
     validateTrailer hmac_sha1 (flip_bit msg i j) key
     = if bytes_Equal authCode (firstn 12 (hmac_sha1 key (flip_bit data i j)))
       then Ok tt
       else Err (MessageError "Received message with invalid authcode")).
Proof.
  intros p data authCode msg.
  pose proof (trailerPadLen_spec (len src)) as (Hp & Hmod & Hmin).
  fold p in Hp, Hmod, Hmin.
  pose proof (makeTrailer_layout src key) as Hlay. cbv zeta in Hlay.
  fold p in Hlay. fold data in Hlay. fold authCode in Hlay.
  assert (Ha : length authCode = 12%nat) by apply authCode_length.
  assert (Hmsg : msg = data ++ authCode).
  { unfold msg, data. rewrite Hlay.
    rewrite <- !app_assoc. reflexivity. }
  split; [split; [lia | split; assumption] |].
  split; [exact Hlay |]. split; [exact Ha |]. split; [exact Hmsg|].
  split; [|split].
  - rewrite Hmsg, validateTrailer_split by assumption.
    fold authCode.
    replace (bytes_Equal authCode authCode) with true
      by (symmetry; apply bytes_Equal_eq; reflexivity).
    reflexivity.
  - intros i j Hi Hj. rewrite Hmsg in *. rewrite flip_bit_app.
    replace (i <? length data)%nat with false by (symmetry; apply Nat.ltb_ge; lia).
    rewrite length_app in Hi.
    rewrite validateTrailer_split by (rewrite flip_bit_length; assumption).
    fold authCode.
    destruct (bytes_Equal (flip_bit authCode (i - length data) j) authCode)
             eqn:Heq; [|reflexivity].
    apply bytes_Equal_eq in Heq. exfalso.
    apply (flip_bit_neq authCode j ltac:(lia) (i - length data)%nat); [lia | exact Heq].
  - intros i j Hi Hj. rewrite Hmsg. rewrite flip_bit_app.
    replace (i <? length data)%nat with true by (symmetry; apply Nat.ltb_lt; exact Hi).
    rewrite validateTrailer_split by assumption. reflexivity.
Qed.

End HMACFacts.

(** *** The stand-in MAC detects single-bit changes *)

Lemma parity8_flip (b j : Z) :
  0 <= j < 8 -> parity8 (Z.lxor b (Z.shiftl 1 j)) = negb (parity8 b).
Proof.
  intro Hj.
  assert (Hc : j = 0 \/ j = 1 \/ j = 2 \/ j = 3 \/ j = 4 \/ j = 5 \/ j = 6 \/ j = 7)
    by lia.
  unfold parity8. rewrite !Z.lxor_spec.
  generalize (Z.testbit b 0) (Z.testbit b 1) (Z.testbit b 2) (Z.testbit b 3)
             (Z.testbit b 4) (Z.testbit b 5) (Z.testbit b 6) (Z.testbit b 7).
  intros t0 t1 t2 t3 t4 t5 t6 t7.
  destruct Hc as [-> | [-> | [-> | [-> | [-> | [-> | [-> | ->]]]]]]];
    cbn; destruct t0, t1, t2, t3, t4, t5, t6, t7; reflexivity.
Qed.

Lemma parity_flip (msg : list Z) (j : Z) :
  0 <= j < 8 ->
  forall i, (i < length msg)%nat -> parity (flip_bit msg i j) = negb (parity msg).
Proof.
  intro Hj. induction msg as [|b rest IH]; intros [|i] Hi; simpl in *; try lia.
  - rewrite parity8_flip by assumption.
    destruct (parity8 b), (parity rest); reflexivity.
  - rewrite IH by lia. destruct (parity8 b), (parity rest); reflexivity.
Qed.

Lemma toy_hmac_length (key msg : list Z) : length (toy_hmac key msg) = 20%nat.
Proof. reflexivity. Qed.

Lemma toy_hmac_bit_flip (key msg : list Z) (i : nat) (j : Z) :
  (i < length msg)%nat -> 0 <= j < 8 ->
  firstn 12 (toy_hmac key (flip_bit msg i j)) <> firstn 12 (toy_hmac key msg).
Proof.
  intros Hi Hj. unfold toy_hmac. rewrite parity_flip by assumption.
  destruct (parity msg); discriminate.
Qed.

(** A 5-byte source gets one pad byte; its trailer validates, the message
    with a bit of the authentication code inverted does not, and with a bit
    of the source inverted it is refused under the stand-in MAC, which
    changes with every bit. *)
Lemma trailer_layout_and_check_witness :
  let src := [0x06; 0xc0; 0x49; 0x4d; 0x50] in
  let key := make 20 in
  makeTrailer toy_hmac src key =
    [0xff; 1; 0x07] ++ firstn 12 (toy_hmac key (src ++ [0xff; 1; 0x07])) /\
  validateTrailer toy_hmac (src ++ makeTrailer toy_hmac src key) key = Ok tt /\
  validateTrailer toy_hmac (flip_bit (src ++ makeTrailer toy_hmac src key) 9 0) key
  = Err (MessageError "Received message with invalid authcode") /\
  validateTrailer toy_hmac (flip_bit (src ++ makeTrailer toy_hmac src key) 2 3) key
  = Err (MessageError "Received message with invalid authcode").
Proof.
  intros src key.
  pose proof (trailer_layout_and_check toy_hmac toy_hmac_length src key)
    as (_ & Hlay & _ & _ & Hok & Hcode & Hdata).
  split; [exact Hlay | split; [exact Hok | split]].
  - apply Hcode; [vm_compute; lia | lia].
  - rewrite Hdata; [reflexivity | vm_compute; lia | lia].
Defined.

End Crypto.

(** ** Completion codes and the command interface (the CompletionCode and
    Command part of time.go) *)

Module Command.

(** The [const] block of completion codes. [iota] is the index of the
    constant in the block: [CompletionOK] is 0, [CompletionUnspecifiedError]
    is 1, so the first [iota + 0xc0] is evaluated with [iota = 2]. *)
Definition CompletionOK : Z := 0x00.
Definition CompletionUnspecifiedError : Z := 0xff.
Definition CompletionNodeBusy : Z := 2 + 0xc0.
Definition CompletionInvalidCommand : Z := 3 + 0xc0.
Definition CompletionInvalidCommandForLUN : Z := 4 + 0xc0.
Definition CompletionTimeout : Z := 5 + 0xc0.
Definition CompletionOutOfSpace : Z := 6 + 0xc0.
Definition CompletionReservationCancelled : Z := 7 + 0xc0.
Definition CompletionRequestDataTruncated : Z := 8 + 0xc0.
Definition CompletionRequestDataInvalidLength : Z := 9 + 0xc0.
Definition CompletionRequestDataFieldExceedEd : Z := 10 + 0xc0.

Definition NetFnAppReq : Z := 6.
Definition NetFnStorageReq : Z := 10.

(** [func NewNetFnRsLUN(netFn NetFn, rsLUN uint8) NetFnRsLUN] *)
Definition NewNetFnRsLUN (netFn rsLUN : Z) : Z :=
  Z.lor (byte (Z.shiftl netFn 2)) (Z.land rsLUN 0x3).

(** The [Command] interface: the request side is the marshalled body, the
    response side is what [Unmarshal] stores into the command object. *)
Record Command (R : Type) : Type := {
  Name : string;
  Code : Z;
  NetFnRsLUN : Z;
  Marshal : list Z;
  Unmarshal : list Z -> result R
}.

Arguments Name {R} c.
Arguments Code {R} c.
Arguments NetFnRsLUN {R} c.
Arguments Marshal {R} c.
Arguments Unmarshal {R} c.

(** [func cmdValidateLength(c Command, msg []byte, min int) error] *)
Definition cmdValidateLength (msg : list Z) (min : Z) : option error :=
  if len msg <? min then Some (MessageError "Invalid Response size") else None.

(** [closeSessionCommand] with [newCloseSessionCommand] (command_message.go). *)
Definition newCloseSessionCommand (id : Z) : Command unit :=
  {| Name := "Close Session";
     Code := 0x3c;
     NetFnRsLUN := NewNetFnRsLUN NetFnAppReq 0;
     Marshal := [byte id; byte (Z.shiftr id 8); byte (Z.shiftr id 16);
                 byte (Z.shiftr id 24)];
     Unmarshal := fun _ => Ok tt |}.

End Command.

(** ** command_message.go: the v2.0 session *)

Module Session.

Import PayloadIPMI Framing Command.

Definition payloadTypeIPMI : Z := 0x00.
Definition PrivilegeUser : Z := 2.

(** Modelled from the spec: the constants [bmcSlaveAddress] and
    [remoteSWID] are declared outside the given sources; section 4.1 fixes
    rsAddr = 0x20 (BMC) and rqAddr = 0x81 (remote software). *)
Definition bmcSlaveAddress : Z := 0x20.
Definition remoteSWID : Z := 0x81.

Record Arguments : Type := {
  Retries : Z;
  PrivilegeLevel : Z;
  CipherSuiteID : nat
}.

(** [type sessionV2_0 struct]; [conn] tells whether [s.conn != nil]. *)
Record sessionV2_0 : Type := {
  conn : bool;
  args : Arguments;
  id : Z;
  sequence : Z;
  rqSeq : Z;
  k1 : list Z;
  k2 : list Z
}.

Definition newSessionV2_0 (a : Arguments) : sessionV2_0 :=
  {| conn := false; args := a; id := 0; sequence := 0; rqSeq := 0;
     k1 := []; k2 := [] |}.

Definition set_conn (c : bool) (s : sessionV2_0) : sessionV2_0 :=
  {| conn := c; args := args s; id := id s; sequence := sequence s;
     rqSeq := rqSeq s; k1 := k1 s; k2 := k2 s |}.

Definition set_sequence (n : Z) (s : sessionV2_0) : sessionV2_0 :=
  {| conn := conn s; args := args s; id := id s; sequence := n;
     rqSeq := rqSeq s; k1 := k1 s; k2 := k2 s |}.

Definition set_rqSeq (n : Z) (s : sessionV2_0) : sessionV2_0 :=
  {| conn := conn s; args := args s; id := id s; sequence := sequence s;
     rqSeq := n; k1 := k1 s; k2 := k2 s |}.

(** [s.id = osr.ManagedID; s.k1 = r3.K1[:]; s.k2 = r3.K2[:]] at the end of
    the handshake in [openSession]. *)
Definition activate (managedID : Z) (K1 K2 : list Z) (s : sessionV2_0)
  : sessionV2_0 :=
  {| conn := conn s; args := args s; id := managedID; sequence := sequence s;
     rqSeq := rqSeq s; k1 := K1; k2 := K2 |}.

(** [s.id = 0; s.sequence = 0; s.rqSeq = 0; s.k1 = nil; s.k2 = nil] in [Close]. *)
Definition clear (s : sessionV2_0) : sessionV2_0 :=
  {| conn := conn s; args := args s; id := 0; sequence := 0; rqSeq := 0;
     k1 := []; k2 := [] |}.

(** [func (s *sessionV2_0) ActiveSession() bool] *)
Definition ActiveSession (s : sessionV2_0) : bool := 0 <? id s.

(** [func (s *sessionV2_0) NextSequence() uint32]: the returned value and
    the session after the call. *)
Definition NextSequence (s : sessionV2_0) : Z * sessionV2_0 :=
  let s' :=
    if ActiveSession s then
      if sequence s =? MaxUint32 then set_sequence 1 s
      else set_sequence (uint32 (sequence s + 1)) s
    else s in
  (sequence s', s').

(** [func (s *sessionV2_0) NextRqSeq() uint8] *)
Definition NextRqSeq (s : sessionV2_0) : Z * sessionV2_0 :=
  let n := rqSeq s in
  let r := byte (rqSeq s + 1) in
  let r := if 64 <=? r then 0 else r in
  (byte (Z.shiftl n 2), set_rqSeq r s).

(** [func (s *sessionV2_0) Header(p payloadType) sessionHeader] *)
Definition Header (p : Z) (s : sessionV2_0) : sessionHeaderV2_0 * sessionV2_0 :=
  let (seq, s') := NextSequence s in
  ({| v20_authType := authTypeRMCPPlus;
      v20_payloadType := p;
      v20_id := id s;
      v20_sequence := seq;
      v20_payloadLength := 0 |}, s').

(** [type ipmiRequestMessage struct], with the command reduced to what
    [Marshal] puts on the wire. *)
Record ipmiRequestMessage : Type := {
  req_RsAddr : Z;
  req_RqAddr : Z;
  req_RqSeq : Z;
  req_NetFnRsLUN : Z;
  req_Code : Z;
  req_Data : list Z
}.

(** The request side of [type ipmiPacket struct]. *)
Record ipmiPacket : Type := {
  SessionHeader : sessionHeaderV2_0;
  Request : ipmiRequestMessage
}.

(** The [Response] of a received packet: an IPMI response message, or one
    of the other payloads, for which the type assertion in [execute] fails. *)
Inductive response : Type :=
| IPMIResponse (rsm : ipmiResponseMessage)
| OtherResponse.

(** Session methods run in a state made of the network peer and the
    session object; a call returns the new state and its outcome. *)
Section Transport.

Variable World : Type.

(** [func (s *sessionV2_0) SendPacket(req)]:
    one datagram exchange with the peer, seen from [execute]. It reads the
    session (keys, id) and does not write it. *)
Variable SendPacket :
  World -> sessionV2_0 -> ipmiPacket -> World * result response.

(** The path of [Open] taken when [s.conn == nil]: dial, handshake and, if
    the handshake fails, the deferred [Close]. *)
Variable openConnection :
  World -> sessionV2_0 -> World * sessionV2_0 * result unit.

(** [c.Close()] on the socket. *)
Variable connClose : World -> World * option error.

Definition State : Type := World * sessionV2_0.
Definition M (A : Type) : Type := State -> State * result A.

(** The loop of [retry] for [calls] more passes of its guard; [last] is
    [err], and with it what the closure has stored: [None] as long as [f]
    has not run. A timeout of the network goes on with the next pass,
    anything else returns. *)
Fixpoint retry_loop {A : Type} (calls : nat) (f : M A)
         (last : option (result A)) (st : State) : State * option (result A) :=
  match calls with
  | O => (st, last)
  | S n =>
      let (st', r) := f st in
      match r with
      | Err (NetError true) => retry_loop n f (Some r) st'
      | _ => (st', Some r)
      end
  end.

(** [func retry(retries int, f func() error) (err error)] (util.go):
    [for i := 0; i <= retries; i++]. With a negative [retries] the guard
    fails at once, [f] is not called and [nil] is returned. With
    [retries = MaxInt64] the guard never fails, since [i] wraps: when the
    2^63 passes that the model makes have all timed out, the loop would go
    on, which is the outcome [OutOfFuel]. *)
Definition retry {A : Type} (retries : Z) (f : M A) (st : State)
  : State * option (result A) :=
  let out := retry_loop (Z.to_nat (retries + 1)) f None st in
  if retries =? MaxInt64 then
    match snd out with
    | Some (Err (NetError true)) => (fst out, Some OutOfFuel)
    | _ => out
    end
  else out.

(** The closure passed to [retry] in [execute]. *)
Definition attempt {R : Type} (cmd : Command R) : M response :=
  fun st =>
    let (w, s) := st in
    let (hdr, s1) := Header payloadTypeIPMI s in
    let (rq, s2) := NextRqSeq s1 in
    let req := {| SessionHeader := hdr;
                  Request := {| req_RsAddr := bmcSlaveAddress;
                                req_RqAddr := remoteSWID;
                                req_RqSeq := rq;
                                req_NetFnRsLUN := NetFnRsLUN cmd;
                                req_Code := Code cmd;
                                req_Data := Marshal cmd |} |} in
    let (w', r) := SendPacket w s2 req in
    ((w', s2), r).

(** [func (s *sessionV2_0) execute(cmd Command) (response, error)] *)
Definition execute {R : Type} (cmd : Command R) : M R :=
  fun st =>
    let (st', r) := retry (int (Retries (args (snd st)))) (attempt cmd) st in
    match r with
    | None =>
        (* [f] never ran: [err] and [res] are nil, [res.Response] *)
        (st', Panic "invalid memory address or nil pointer dereference")
    | Some (Ok (IPMIResponse rsm)) =>
        if negb (CompletionCode rsm =? CompletionOK) then
          (st', Err (CommandError (CompletionCode rsm) (Name cmd)))
        else (st', Unmarshal cmd (Data rsm))
    | Some (Ok OtherResponse) =>
        (st', Err (MessageError "Received an unexpected message (Command)"))
    | Some (Err e) => (st', Err e)
    | Some (Panic what) => (st', Panic what)
    | Some OutOfFuel => (st', OutOfFuel)
    end.

(** [func (s *sessionV2_0) Open() error] *)
Definition Open : M unit :=
  fun st =>
    let (w, s) := st in
    if conn s then (st, Ok tt)
    else let '(w', s', r) := openConnection w s in ((w', s'), r).

(** [func (s *sessionV2_0) Execute(cmd Command) error] *)
Definition Execute {R : Type} (cmd : Command R) : M R :=
  fun st =>
    let (st1, r) := Open st in
    match r with
    | Ok _ => execute cmd st1
    | Err e => (st1, Err e)
    | Panic what => (st1, Panic what)
    | OutOfFuel => (st1, OutOfFuel)
    end.

(** The second half of [Close]: [if c := s.conn; c != nil { ... }]. *)
Definition closeConn : M unit :=
  fun st =>
    let (w, s) := st in
    if conn s then
      match connClose w with
      | (w', Some e) => ((w', s), Err e)
      | (w', None) => ((w', set_conn false s), Ok tt)
      end
    else (st, Ok tt).

(** [func (s *sessionV2_0) Close() error] *)
Definition Close : M unit :=
  fun st =>
    if ActiveSession (snd st) then
      let (st1, r) := Execute (newCloseSessionCommand (id (snd st))) st in
      match r with
      | Ok _ => closeConn (fst st1, clear (snd st1))
      | Err e => (st1, Err e)
      | Panic what => (st1, Panic what)
      | OutOfFuel => (st1, OutOfFuel)
      end
    else closeConn st.

End Transport.

(** *** Session states the methods can produce

    Every write to [conn], [id], [sequence], [rqSeq], [k1] and [k2] in
    the methods of [sessionV2_0], with the guard under which it runs. *)
Inductive reachable : sessionV2_0 -> Prop :=
| reach_new (a : Arguments) :
    (* newSessionV2_0 *)
    reachable (newSessionV2_0 a)
| reach_dial (s : sessionV2_0) :
    (* Open: the connection is dialled only when s.conn == nil *)
    reachable s -> conn s = false -> reachable (set_conn true s)
| reach_open (s : sessionV2_0) (managedID : Z) (K1 K2 : list Z) :
    (* Open, then openSession to the end of the handshake *)
    reachable s -> conn s = false -> 0 <= managedID <= MaxUint32 ->
    reachable (activate managedID K1 K2 (set_conn true s))
| reach_NextSequence (s : sessionV2_0) :
    reachable s -> reachable (snd (NextSequence s))
| reach_NextRqSeq (s : sessionV2_0) :
    reachable s -> reachable (snd (NextRqSeq s))
| reach_clear (s : sessionV2_0) :
    (* Close: the five assignments after Execute succeeded *)
    reachable s -> reachable (clear s)
| reach_closeConn (s : sessionV2_0) :
    (* Close: the socket is dropped after the active branch was skipped or
       has cleared the session *)
    reachable s -> ActiveSession s = false -> reachable (set_conn false s).

Definition session_invariant (s : sessionV2_0) : Prop :=
  (conn s = false -> id s = 0) /\
  (id s = 0 -> sequence s = 0) /\
  0 <= id s <= MaxUint32 /\
  0 <= sequence s <= MaxUint32.

Lemma ActiveSession_true (s : sessionV2_0) : ActiveSession s = true <-> 0 < id s.
Proof. unfold ActiveSession. apply Z.ltb_lt. Qed.

Lemma ActiveSession_false (s : sessionV2_0) : ActiveSession s = false <-> id s <= 0.
Proof. unfold ActiveSession. apply Z.ltb_ge. Qed.

Lemma NextSequence_active (s : sessionV2_0) :
  0 <= sequence s <= MaxUint32 -> ActiveSession s = true ->
  NextSequence s =
  (if sequence s =? MaxUint32 then 1 else sequence s + 1,
   set_sequence (if sequence s =? MaxUint32 then 1 else sequence s + 1) s).
Proof.
  intros Hr Ha. unfold NextSequence. rewrite Ha.
  destruct (sequence s =? MaxUint32) eqn:E; [reflexivity|].
  apply Z.eqb_neq in E. unfold uint32, MaxUint32 in *.
  rewrite Z.mod_small by lia. reflexivity.
Qed.

Lemma NextSequence_inactive (s : sessionV2_0) :
  ActiveSession s = false -> NextSequence s = (sequence s, s).
Proof. intro Ha. unfold NextSequence. rewrite Ha. reflexivity. Qed.

Lemma reachable_invariant (s : sessionV2_0) : reachable s -> session_invariant s.
Proof.
  unfold session_invariant, MaxUint32.
  induction 1 as [a | s Hs IH Hc | s mid K1 K2 Hs IH Hc Hm | s Hs IH | s Hs IH
                  | s Hs IH | s Hs IH Ha].
  - simpl. repeat split; intros; try reflexivity; lia.
  - destruct IH as (I1 & I2 & I3 & I4). simpl.
    repeat split; intros; try discriminate; try lia; auto.
  - destruct IH as (I1 & I2 & I3 & I4). simpl.
    pose proof (I2 (I1 Hc)) as Hseq. unfold MaxUint32 in Hm.
    repeat split; intros; try discriminate; try lia.
  - destruct IH as (I1 & I2 & I3 & I4).
    destruct (ActiveSession s) eqn:Ha.
    + rewrite NextSequence_active by (unfold MaxUint32; assumption).
      apply ActiveSession_true in Ha. unfold MaxUint32.
      destruct (sequence s =? 4294967295) eqn:E;
        [|apply Z.eqb_neq in E]; simpl;
        repeat split; intros; try lia; auto.
    + rewrite NextSequence_inactive by assumption. simpl.
      repeat split; intros; try lia; auto.
  - simpl. exact IH.
  - destruct IH as (I1 & I2 & I3 & I4). simpl.
    repeat split; intros; try reflexivity; lia.
  - destruct IH as (I1 & I2 & I3 & I4). apply ActiveSession_false in Ha. simpl.
    repeat split; intros; try lia; auto.
Qed.

(** C7: an active session never gets 0 from [NextSequence]: from
    [sequence = MaxUint32] the call yields 1, otherwise the incremented
    value, which is stored; an inactive session gets 0 and the stored
    counter is left as it is. *)
Theorem NextSequence_wrap :
  (forall s, 0 <= sequence s <= MaxUint32 -> ActiveSession s = true ->
             fst (NextSequence s) <> 0 /\
             (sequence s = MaxUint32 -> fst (NextSequence s) = 1) /\
             (sequence s <> MaxUint32 -> fst (NextSequence s) = sequence s + 1) /\
             sequence (snd (NextSequence s)) = fst (NextSequence s) /\
             ActiveSession (snd (NextSequence s)) = true) /\
  (forall s, reachable s -> ActiveSession s = false -> NextSequence s = (0, s)) /\
  (forall s, ActiveSession s = false -> snd (NextSequence s) = s).
Proof.
  split; [|split].
  - intros s Hr Ha. rewrite NextSequence_active by assumption. simpl.
    destruct (sequence s =? MaxUint32) eqn:E;
      [apply Z.eqb_eq in E | apply Z.eqb_neq in E];
      repeat split; try lia; try assumption; intros; try lia; congruence.
  - intros s Hs Ha. rewrite NextSequence_inactive by assumption.
    destruct (reachable_invariant s Hs) as (_ & I2 & I3 & _).
    apply ActiveSession_false in Ha. rewrite I2 by lia. reflexivity.
  - intros s Ha. rewrite NextSequence_inactive by assumption. reflexivity.
Qed.

(** An active session at [MaxUint32] wraps to 1; a closed one stays at 0. *)
Lemma NextSequence_wrap_witness :
  let a := {| Retries := 0; PrivilegeLevel := 4; CipherSuiteID := 3 |} in
  let s := set_sequence MaxUint32 (activate 0xdeadbeef [1] [2] (set_conn true (newSessionV2_0 a))) in
  fst (NextSequence s) = 1 /\
  NextSequence (clear s) = (0, clear s).
Proof.
  intros a s. split.
  - assert (Hr : 0 <= sequence s <= MaxUint32) by (vm_compute; split; discriminate).
    destruct (proj1 NextSequence_wrap s Hr eq_refl) as (_ & Hmax & _).
    exact (Hmax eq_refl).
  - apply (proj1 (proj2 NextSequence_wrap)); [|reflexivity].
    apply (reach_clear (activate 0xdeadbeef [1] [2] (set_conn true (newSessionV2_0 a)))).
    apply reach_open; [apply reach_new | reflexivity | vm_compute; split; discriminate].
Defined.

(** *** What [retry] does to the state *)

Lemma retry_loop_state {World A : Type} (P : State World -> Prop) (f : M World A) :
  (forall st, P st -> P (fst (f st))) ->
  forall n last st, P st -> P (fst (retry_loop World n f last st)).
Proof.
  intros Hf n. induction n as [|n IH]; intros last st Hst; cbn [retry_loop].
  - exact Hst.
  - pose proof (Hf st Hst) as H. destruct (f st) as [st' r]. cbn [fst] in H.
    destruct r as [a | [ | | | [|] | ] | |]; try exact H.
    apply IH, H.
Qed.

Lemma retry_state {World A : Type} (retries : Z) (f : M World A) (st : State World) :
  fst (retry World retries f st)
  = fst (retry_loop World (Z.to_nat (retries + 1)) f None st).
Proof.
  unfold retry. cbv zeta.
  destruct (retries =? MaxInt64); [|reflexivity].
  destruct (snd (retry_loop World (Z.to_nat (retries + 1)) f None st))
    as [[a | [ | | | [|] | ] | |]|]; reflexivity.
Qed.

(** *** The session methods stay within the reachable states *)

Section ReachableFacts.

Variable World : Type.
Variable SendPacket : World -> sessionV2_0 -> ipmiPacket -> World * result response.
Variable openConnection : World -> sessionV2_0 -> World * sessionV2_0 * result unit.
Variable connClose : World -> World * option error.

Hypothesis openConnection_reachable :
  forall w s, reachable s -> reachable (snd (fst (openConnection w s))).

Lemma attempt_reachable {R : Type} (cmd : Command R) (w : World) (s : sessionV2_0) :
  reachable s -> reachable (snd (fst (attempt World SendPacket cmd (w, s)))).
Proof.
  intro Hs. unfold attempt, Header.
  pose proof (reach_NextSequence s Hs) as H1.
  destruct (NextSequence s) as [n s1]. simpl in H1.
  pose proof (reach_NextRqSeq s1 H1) as H2.
  destruct (NextRqSeq s1) as [rq s2]. simpl in H2.
  destruct (SendPacket _ _ _). exact H2.
Qed.

Lemma retry_reachable {A : Type} (f : M World A) :
  (forall w s, reachable s -> reachable (snd (fst (f (w, s))))) ->
  forall n w s, reachable s -> reachable (snd (fst (retry World n f (w, s)))).
Proof.
  intros Hf n w s Hs. rewrite retry_state.
  apply (retry_loop_state (fun st => reachable (snd st))); [|exact Hs].
  intros [w0 s0] H0. apply Hf, H0.
Qed.

Lemma execute_reachable {R : Type} (cmd : Command R) (w : World) (s : sessionV2_0) :
  reachable s -> reachable (snd (fst (execute World SendPacket cmd (w, s)))).
Proof.
  intro Hs. unfold execute.
  pose proof (retry_reachable (attempt World SendPacket cmd) (attempt_reachable cmd)
                              (int (Retries (args (snd (w, s))))) w s Hs) as H.
  destruct (retry World (int (Retries (args (snd (w, s)))))
                  (attempt World SendPacket cmd) (w, s))
    as [st' r]. simpl in H.
  destruct r as [[[rsm|] | e | what |]|]; simpl; try exact H.
  destruct (negb (CompletionCode rsm =? CompletionOK)); exact H.
Qed.

Lemma Execute_reachable {R : Type} (cmd : Command R) (w : World) (s : sessionV2_0) :
  reachable s ->
  reachable (snd (fst (Execute World SendPacket openConnection cmd (w, s)))).
Proof.
  intro Hs. unfold Execute, Open.
  destruct (conn s).
  - apply execute_reachable, Hs.
  - pose proof (openConnection_reachable w s Hs) as H.
    destruct (openConnection w s) as [[w' s'] r]. simpl in H.
    destruct r; simpl; try exact H. apply execute_reachable, H.
Qed.

Lemma closeConn_reachable (w : World) (s : sessionV2_0) :
  reachable s -> ActiveSession s = false ->
  reachable (snd (fst (closeConn World connClose (w, s)))).
Proof.
  intros Hs Ha. unfold closeConn.
  destruct (conn s); [|exact Hs].
  destruct (connClose w) as [w' [e|]]; simpl; [exact Hs|].
  apply reach_closeConn; assumption.
Qed.

Lemma Close_reachable (w : World) (s : sessionV2_0) :
  reachable s ->
  reachable (snd (fst (Close World SendPacket openConnection connClose (w, s)))).
Proof.
  intro Hs. unfold Close. simpl snd.
  destruct (ActiveSession s) eqn:Ha.
  - pose proof (Execute_reachable (newCloseSessionCommand (id s)) w s Hs) as H.
    destruct (Execute World SendPacket openConnection
                      (newCloseSessionCommand (id s)) (w, s)) as [[w1 s1] r].
    simpl in H. destruct r; simpl; try exact H.
    apply (closeConn_reachable w1 (clear s1)); [apply reach_clear, H | reflexivity].
  - apply closeConn_reachable; assumption.
Qed.

(** After any of the session methods, an inactive session still answers 0. *)
Lemma NextSequence_after_Close (w : World) (s : sessionV2_0) :
  reachable s ->
  let s' := snd (fst (Close World SendPacket openConnection connClose (w, s))) in
  ActiveSession s' = false -> NextSequence s' = (0, s').
Proof.
  intros Hs s' Ha.
  pose proof (Close_reachable w s Hs) as Hr. fold s' in Hr.
  rewrite NextSequence_inactive by assumption.
  destruct (reachable_invariant s' Hr) as (_ & I2 & I3 & _).
  apply ActiveSession_false in Ha. rewrite I2 by lia. reflexivity.
Qed.

End ReachableFacts.

(** *** A scripted peer

    The replies are handed out in order, every request is logged, and the
    socket records whether it has been closed. *)
Record ScriptWorld : Type := {
  replies : list (result response);
  sent : list ipmiPacket;
  socketClosed : bool
}.

Definition script_SendPacket (w : ScriptWorld) (s : sessionV2_0) (req : ipmiPacket)
  : ScriptWorld * result response :=
  match replies w with
  | [] => ({| replies := []; sent := sent w ++ [req];
              socketClosed := socketClosed w |}, Err (NetError true))
  | r :: rest => ({| replies := rest; sent := sent w ++ [req];
                     socketClosed := socketClosed w |}, r)
  end.

Definition script_openConnection (w : ScriptWorld) (s : sessionV2_0)
  : ScriptWorld * sessionV2_0 * result unit :=
  (w, s, Err (OtherError "dial")).

Definition script_connClose (w : ScriptWorld) : ScriptWorld * option error :=
  ({| replies := replies w; sent := sent w; socketClosed := true |}, None).

Definition script_Close : ScriptWorld * sessionV2_0 -> ScriptWorld * sessionV2_0 * result unit :=
  Close ScriptWorld script_SendPacket script_openConnection script_connClose.

(** A reply to a command: completion code and response data. *)
Definition reply (cc : Z) (data : list Z) : result response :=
  Ok (IPMIResponse {| RqAddr := remoteSWID; NetFnRsRUN := 0; RsAddr := bmcSlaveAddress;
                      RqSeq := 0; PayloadIPMI.Code := 0; CompletionCode := cc;
                      Data := data |}).

(** An established session: id 0xdeadbeef, 41 messages sent, keys set. *)
Definition established : sessionV2_0 :=
  {| conn := true;
     args := {| Retries := 0; PrivilegeLevel := 4; CipherSuiteID := 3 |};
     id := 0xdeadbeef; sequence := 41; rqSeq := 41;
     k1 := repeat 0x11 20; k2 := repeat 0x22 20 |}.

Definition peer (rs : list (result response)) : ScriptWorld :=
  {| replies := rs; sent := []; socketClosed := false |}.

(** *** Close *)

Section CloseFacts.

Variable World : Type.
Variable SendPacket : World -> sessionV2_0 -> ipmiPacket -> World * result response.
Variable openConnection : World -> sessionV2_0 -> World * sessionV2_0 * result unit.
Variable connClose : World -> World * option error.

Let State := (World * sessionV2_0)%type.

(** What a command exchange leaves alone in the session. *)
Definition same_session (s s' : sessionV2_0) : Prop :=
  conn s' = conn s /\ args s' = args s /\ id s' = id s /\
  k1 s' = k1 s /\ k2 s' = k2 s.

Lemma attempt_same_session {R : Type} (cmd : Command R) (st : State) :
  same_session (snd st) (snd (fst (attempt World SendPacket cmd st))).
Proof.
  destruct st as [w s]. unfold attempt, Header, NextSequence, NextRqSeq.
  destruct (ActiveSession s); [destruct (sequence s =? MaxUint32)|];
    simpl; destruct (SendPacket _ _ _); simpl; repeat split.
Qed.

Lemma retry_same_session {A : Type} (f : M World A) :
  (forall st, same_session (snd st) (snd (fst (f st)))) ->
  forall n st, same_session (snd st) (snd (fst (retry World n f st))).
Proof.
  intros Hf n st. rewrite retry_state.
  apply (retry_loop_state (fun st' => same_session (snd st) (snd st'))).
  - intros st' H. pose proof (Hf st') as H'.
    unfold same_session in *. intuition congruence.
  - unfold same_session. repeat split.
Qed.

Lemma execute_same_session {R : Type} (cmd : Command R) (st : State) :
  same_session (snd st) (snd (fst (execute World SendPacket cmd st))).
Proof.
  unfold execute.
  pose proof (retry_same_session (attempt World SendPacket cmd)
                (attempt_same_session cmd) (int (Retries (args (snd st)))) st) as H.
  destruct (retry World (int (Retries (args (snd st)))) (attempt World SendPacket cmd) st)
    as [st' r]. simpl in H.
  destruct r as [[[rsm|] | e | what |]|]; simpl; try exact H.
  destruct (negb (CompletionCode rsm =? CompletionOK)); exact H.
Qed.

(** When the Close-Session command fails, [Close] returns its error at
    once: the session keeps its id and keys, and the socket stays open. *)
Lemma Close_returns_early (w : World) (s : sessionV2_0) :
  ActiveSession s = true -> conn s = true ->
  forall st' e,
    execute World SendPacket (newCloseSessionCommand (id s)) (w, s) = (st', Err e) ->
    Close World SendPacket openConnection connClose (w, s) = (st', Err e) /\
    same_session s (snd st').
Proof.
  intros Ha Hc st' e He. split.
  - unfold Close, Execute, Open. simpl. rewrite Ha, Hc, He. reflexivity.
  - pose proof (execute_same_session (newCloseSessionCommand (id s)) (w, s)) as H.
    rewrite He in H. exact H.
Qed.

(** When the command and the socket close succeed, the session is cleared. *)
Lemma Close_clears_on_success (w : World) (s : sessionV2_0) :
  ActiveSession s = true -> conn s = true ->
  forall w1 s1 w2,
    execute World SendPacket (newCloseSessionCommand (id s)) (w, s) = ((w1, s1), Ok tt) ->
    connClose w1 = (w2, None) ->
    Close World SendPacket openConnection connClose (w, s)
    = ((w2, set_conn false (clear s1)), Ok tt).
Proof.
  intros Ha Hc w1 s1 w2 He Hcl.
  pose proof (execute_same_session (newCloseSessionCommand (id s)) (w, s)) as H.
  rewrite He in H. destruct H as (Hconn & _). simpl in Hconn.
  unfold Close, Execute, Open. simpl. rewrite Ha, Hc, He. simpl.
  unfold closeConn. simpl. rewrite Hconn, Hc, Hcl. reflexivity.
Qed.

End CloseFacts.

(** C2 (refuted on the code): [Close] on the established session sends one
    Close-Session request carrying the session id 0xdeadbeef; when the peer
    answers with a non-zero completion code, or does not answer in time,
    [Close] returns that error and the session still has its id and keys,
    [conn] is still set and the socket has not been closed. *)
Theorem Close_failure_leaves_session_open :
  (let '(w', s', r) := script_Close (peer [reply CompletionNodeBusy []], established) in
   r = Err (CommandError CompletionNodeBusy "Close Session") /\
   map (fun p => (req_Code (Request p), req_Data (Request p), v20_id (SessionHeader p)))
       (sent w')
   = [(0x3c, [0xef; 0xbe; 0xad; 0xde], 0xdeadbeef)] /\
   id s' = 0xdeadbeef /\ k1 s' = k1 established /\ k2 s' = k2 established /\
   conn s' = true /\ socketClosed w' = false) /\
  (let '(w', s', r) := script_Close (peer [Err (NetError true)], established) in
   r = Err (NetError true) /\
   id s' = 0xdeadbeef /\ k1 s' = k1 established /\ k2 s' = k2 established /\
   conn s' = true /\ socketClosed w' = false) /\
  (let '(w', s', r) := script_Close (peer [reply CompletionOK []], established) in
   r = Ok tt /\ id s' = 0 /\ sequence s' = 0 /\ rqSeq s' = 0 /\ k1 s' = [] /\
   k2 s' = [] /\ conn s' = false /\ socketClosed w' = true).
Proof.
  vm_compute. repeat split.
Qed.

End Session.

(** ** A mock BMC

    A scripted peer for the enumerators: it serves an SDR repository and a
    SEL with linearly spaced record ids, hands out reservation ids, can
    cancel the reservation once at a chosen Get-SDR request, and refuses
    Get-SDR requests that ask for more bytes than its read limit. *)

Module MockBMC.

Import PayloadIPMI Framing Command Session.

Record sdr_record : Type := {
  rec_id : Z;
  rec_type : Z;
  rec_body : list Z
}.

Record BMC : Type := {
  sdr_repo : list sdr_record;
  sel_entries : Z;
  reservation : Z;
  get_sdr_calls : Z;
  cancel_at : Z;
  cancel_code : Z;
  read_limit : Z;
  requests : list (Z * list Z)
}.

Definition le16 (v : Z) : list Z := [byte v; byte (Z.shiftr v 8)].

Definition record_bytes (r : sdr_record) : list Z :=
  le16 (rec_id r) ++ [0x51; rec_type r; len (rec_body r)] ++ rec_body r.

(** The record with the given id (id 0 is the first record) and the id of
    its successor, 0xffff after the last record. *)
Fixpoint find_record (recordID : Z) (repo : list sdr_record)
  : option (sdr_record * Z) :=
  match repo with
  | [] => None
  | r :: rest =>
      if (recordID =? 0) || (recordID =? rec_id r) then
        Some (r, match rest with [] => 0xffff | r' :: _ => rec_id r' end)
      else find_record recordID rest
  end.

(** SEL record [i] of 16 bytes: id, type 0x02 (system event), a timestamp
    and an event body derived from [i]. *)
Definition sel_record (i : Z) : list Z :=
  le16 i ++ [0x02; byte i; 0; 0; 0; 0x20; 0x00; 0x04; 0x01; byte i; 0x01; 0x57; 0xff; 0xff].

Definition answer (b : BMC) (cc : Z) (data : list Z) : BMC * result response :=
  (b, reply cc data).

(** The BMC's side of one exchange. *)
Definition bmc_SendPacket (b : BMC) (s : sessionV2_0) (pkt : ipmiPacket)
  : BMC * result response :=
  let code := req_Code (Request pkt) in
  let data := req_Data (Request pkt) in
  let log := requests b ++ [(code, data)] in
  let b := {| sdr_repo := sdr_repo b; sel_entries := sel_entries b;
              reservation := reservation b; get_sdr_calls := get_sdr_calls b;
              cancel_at := cancel_at b; cancel_code := cancel_code b;
              read_limit := read_limit b; requests := log |} in
  if code =? 0x20 then
    answer b 0 ([0x51] ++ le16 (len (sdr_repo b)) ++ make 11)
  else if code =? 0x40 then
    answer b 0 ([0x51] ++ le16 (sel_entries b) ++ make 11)
  else if (code =? 0x22) || (code =? 0x42) then
    let b := {| sdr_repo := sdr_repo b; sel_entries := sel_entries b;
                reservation := reservation b + 1; get_sdr_calls := get_sdr_calls b;
                cancel_at := cancel_at b; cancel_code := cancel_code b;
                read_limit := read_limit b; requests := log |} in
    answer b 0 (le16 (reservation b))
  else if code =? 0x23 then
    let b := {| sdr_repo := sdr_repo b; sel_entries := sel_entries b;
                reservation := reservation b; get_sdr_calls := get_sdr_calls b + 1;
                cancel_at := cancel_at b; cancel_code := cancel_code b;
                read_limit := read_limit b; requests := log |} in
    let recordID := le_uint16 (from data 2) in
    let offset := index data 4 in
    let count := index data 5 in
    if get_sdr_calls b =? cancel_at b then answer b (cancel_code b) []
    else if read_limit b <? count then answer b 0xca []
    else
      match find_record recordID (sdr_repo b) with
      | Some (r, next) =>
          answer b 0 (le16 next ++ slice (record_bytes r) offset (offset + count))
      | None => answer b 0xcb []
      end
  else if code =? 0x43 then
    let recordID := le_uint16 (from data 2) in
    let i := if recordID =? 0 then 1
             else if recordID =? 0xffff then sel_entries b else recordID in
    if (1 <=? i) && (i <=? sel_entries b) then
      answer b 0 (le16 (if i =? sel_entries b then 0xffff else i + 1) ++ sel_record i)
    else answer b 0xcb []
  else answer b 0xc1 [].

Definition bmc_openConnection (b : BMC) (s : sessionV2_0)
  : BMC * sessionV2_0 * result unit :=
  (b, s, Err (OtherError "dial")).

End MockBMC.

(** ** client.go, command_sdr.go, sdr.go: the SDR repository enumerator *)

Module SDR.

Import PayloadIPMI Framing Command Session.

Definition sdrFirstID : Z := 0x0000.
Definition sdrLastID : Z := 0xffff.
Definition sdrHeaderSize : Z := 5.
Definition sdrDefaultReadBytes : Z := 32.
Definition sdrCommonSensorSize : Z := 18.
Definition sdrFullSensorSize : Z := 25 + sdrCommonSensorSize.
Definition sdrFRUDeviceLocatorSize : Z := 11.
Definition SDRTypeFullSensor : Z := 0x01.
Definition SDRTypeFRUDeviceLocator : Z := 0x11.

(** Modelled from the spec: the [Client] struct that sdr.go uses has, next
    to the session, the field [sdrReadingBytes] (a [uint8], compared with and
    assigned to [uint8] values in [sdrGetRecord]); its declaration and its
    initialisation are outside the given sources. Section 4.5 gives the
    initial value: [sdrReadingBytes] starts at 32, the constant
    [sdrDefaultReadBytes] of sdr.go. *)
Record Client : Type := {
  session : sessionV2_0;
  sdrReadingBytes : Z
}.

Definition newClient (a : Arguments) : Client :=
  {| session := newSessionV2_0 a; sdrReadingBytes := sdrDefaultReadBytes |}.

Definition set_sdrReadingBytes (v : Z) (c : Client) : Client :=
  {| session := session c; sdrReadingBytes := v |}.

(** [type GetSDRRepositoryInfoCommand struct] *)
Record GetSDRRepositoryInfo : Type := {
  SDRVersion : Z;
  RecordCount : Z
}.

Definition GetSDRRepositoryInfoCommand : Command GetSDRRepositoryInfo :=
  {| Name := "Get SDR Repository Info";
     Code := 0x20;
     NetFnRsLUN := NewNetFnRsLUN NetFnStorageReq 0;
     Marshal := [];
     Unmarshal := fun buf =>
       match cmdValidateLength buf 14 with
       | Some e => Err e
       | None => Ok {| SDRVersion := index buf 0;
                       RecordCount := le_uint16 (slice buf 1 3) |}
       end |}.

(** [type ReserveSDRRepositoryCommand struct]: the response is the
    reservation id. *)
Definition ReserveSDRRepositoryCommand : Command Z :=
  {| Name := "Reserve SDR Repository";
     Code := 0x22;
     NetFnRsLUN := NewNetFnRsLUN NetFnStorageReq 0;
     Marshal := [];
     Unmarshal := fun buf =>
       match cmdValidateLength buf 2 with
       | Some e => Err e
       | None => Ok (le_uint16 buf)
       end |}.

(** The response fields of [type GetSDRCommand struct]. *)
Record GetSDR : Type := {
  NextRecordID : Z;
  RecordData : list Z
}.

Definition GetSDRCommand (ReservationID RecordID RecordOffset ReadBytes : Z)
  : Command GetSDR :=
  {| Name := "Get SDR";
     Code := 0x23;
     NetFnRsLUN := NewNetFnRsLUN NetFnStorageReq 0;
     Marshal := [byte ReservationID; byte (Z.shiftr ReservationID 8);
                 byte RecordID; byte (Z.shiftr RecordID 8);
                 byte RecordOffset; byte ReadBytes];
     Unmarshal := fun buf =>
       match cmdValidateLength buf 2 with
       | Some e => Err e
       | None =>
           let rest := from buf 2 in
           Ok {| NextRecordID := le_uint16 buf;
                 RecordData := if len rest <=? ReadBytes then rest
                               else slice rest 0 ReadBytes |}
       end |}.

(** [type sdrHeader struct] *)
Record sdrHeader : Type := {
  RecordID : Z;
  hdr_SDRVersion : Z;
  RecordType : Z;
  RemainingBytes : Z
}.

Definition set_RecordID (v : Z) (h : sdrHeader) : sdrHeader :=
  {| RecordID := v; hdr_SDRVersion := hdr_SDRVersion h;
     RecordType := RecordType h; RemainingBytes := RemainingBytes h |}.

(** [func (r *sdrHeader) Unmarshal(buf []byte) ([]byte, error)] *)
Definition sdrHeader_Unmarshal (buf : list Z) : result sdrHeader :=
  if len buf <? sdrHeaderSize then Err (MessageError "Invalid SDRHeader size")
  else Ok {| RecordID := le_uint16 (slice buf 0 2);
             hdr_SDRVersion := index buf 2;
             RecordType := index buf 3;
             RemainingBytes := index buf 4 |}.

(** The [SDR] interface with its three implementations; a record keeps its
    header and the bytes of key and body, the decoded sensor fields are not
    needed here. *)
Inductive SDR : Type :=
| SDRFullSensor (header : sdrHeader) (data : list Z)
| SDRFRUDeviceLocator (header : sdrHeader) (data : list Z)
| sdrRaw (header : sdrHeader) (data : list Z).

Definition SDR_ID (r : SDR) : Z :=
  match r with
  | SDRFullSensor h _ | SDRFRUDeviceLocator h _ | sdrRaw h _ => RecordID h
  end.

(** The [switch] that ends [sdrGetRecord]; the two [Unmarshal] methods fail
    on a body shorter than the fixed part of the record. *)
Definition sdrParse (header : sdrHeader) (buf : list Z) : result SDR :=
  if RecordType header =? SDRTypeFullSensor then
    if len buf <? sdrFullSensorSize then
      Err (MessageError "Invalid SDRFullSensor size")
    else Ok (SDRFullSensor header buf)
  else if RecordType header =? SDRTypeFRUDeviceLocator then
    if len buf <? sdrFRUDeviceLocatorSize then
      Err (MessageError "Invalid SDRFRUDeviceLocator size")
    else Ok (SDRFRUDeviceLocator header buf)
  else Ok (sdrRaw header buf).

(** [c.sdrReadingBytes -= 8] on a [uint8], then the floor. *)
Definition shrink (v : Z) : Z :=
  let v' := byte (v - 8) in
  if v' <? sdrHeaderSize then sdrHeaderSize else v'.

Section Enumerator.

Variable World : Type.
Variable SendPacket : World -> sessionV2_0 -> ipmiPacket -> World * result response.
Variable openConnection : World -> sessionV2_0 -> World * sessionV2_0 * result unit.

Definition CState : Type := World * Client.
Definition CM (A : Type) : Type := CState -> CState * result A.

(** [func (c *Client) Execute(cmd Command) error] *)
Definition Client_Execute {R : Type} (cmd : Command R) : CM R :=
  fun st =>
    let (w, c) := st in
    let '(w', s', r) := Execute World SendPacket openConnection cmd (w, session c) in
    ((w', {| session := s'; sdrReadingBytes := sdrReadingBytes c |}), r).

(** [func sdrGetRecordHeaderAndNextID(c *Client, reservation, recordID uint16)] *)
Definition sdrGetRecordHeaderAndNextID (reservation recordID : Z)
  : CM (sdrHeader * Z) :=
  fun st =>
    let (st1, r) :=
      Client_Execute (GetSDRCommand reservation recordID 0 sdrHeaderSize) st in
    match r with
    | Ok gsc =>
        match sdrHeader_Unmarshal (RecordData gsc) with
        | Ok header =>
            let header :=
              if negb (recordID =? sdrFirstID) && negb (recordID =? RecordID header)
              then set_RecordID recordID header else header in
            (st1, Ok (header, NextRecordID gsc))
        | Err e => (st1, Err e)
        | Panic what => (st1, Panic what)
        | OutOfFuel => (st1, OutOfFuel)
        end
    | Err e => (st1, Err e)
    | Panic what => (st1, Panic what)
    | OutOfFuel => (st1, OutOfFuel)
    end.

(** The Get-SDR request of one iteration of the loop of [sdrGetRecord]. *)
Definition sdrGetRecord_request (c : Client) (reservation : Z) (header : sdrHeader)
           (n : Z) : Command GetSDR :=
  let r := byte (RemainingBytes header - n) in
  let r := if sdrReadingBytes c <? r then sdrReadingBytes c else r in
  GetSDRCommand reservation (RecordID header) (byte (n + sdrHeaderSize)) r.

(** One iteration of the loop of [sdrGetRecord]: [Ok (n, buf)] goes on with
    the next iteration, anything else leaves the function. *)
Definition sdrGetRecord_iter (reservation : Z) (header : sdrHeader)
           (n : Z) (buf : list Z) : CM (Z * list Z) :=
  fun st =>
    let (st1, r) :=
      Client_Execute (sdrGetRecord_request (snd st) reservation header n) st in
    match r with
    | Ok gsc =>
        (st1, Ok (byte (n + byte (len (RecordData gsc))),
                  slice buf 0 n ++ copy (from buf n) (RecordData gsc)))
    | Err (CommandError cc cmd) =>
        if (cc =? CompletionRequestDataFieldExceedEd)
           && (sdrHeaderSize <? sdrReadingBytes (snd st1))
        then ((fst st1, set_sdrReadingBytes (shrink (sdrReadingBytes (snd st1))) (snd st1)),
              Ok (n, buf))
        else (st1, Err (CommandError cc cmd))
    | Err e => (st1, Err e)
    | Panic what => (st1, Panic what)
    | OutOfFuel => (st1, OutOfFuel)
    end.

(** [for n := uint8(0); n < header.RemainingBytes; { ... }] *)
Fixpoint sdrGetRecord_loop (fuel : nat) (reservation : Z) (header : sdrHeader)
         (n : Z) (buf : list Z) : CM (list Z) :=
  fun st =>
    if n <? RemainingBytes header then
      match fuel with
      | O => (st, OutOfFuel)
      | S fuel' =>
          let (st1, r) := sdrGetRecord_iter reservation header n buf st in
          match r with
          | Ok (n', buf') => sdrGetRecord_loop fuel' reservation header n' buf' st1
          | Err e => (st1, Err e)
          | Panic what => (st1, Panic what)
          | OutOfFuel => (st1, OutOfFuel)
          end
      end
    else (st, Ok buf).

(** [func sdrGetRecord(c *Client, reservation uint16, header *sdrHeader) (SDR, error)] *)
Definition sdrGetRecord (fuel : nat) (reservation : Z) (header : sdrHeader)
  : CM SDR :=
  fun st =>
    let (st1, r) :=
      sdrGetRecord_loop fuel reservation header 0 (make (RemainingBytes header)) st in
    match r with
    | Ok buf => (st1, sdrParse header buf)
    | Err e => (st1, Err e)
    | Panic what => (st1, Panic what)
    | OutOfFuel => (st1, OutOfFuel)
    end.

(** How one pass over the repository ends: the record list is returned, or
    a cancelled reservation sends control to the [retry] label. *)
Inductive walk_end : Type :=
| Finished (sensors : list SDR)
| GotoRetry (sensors : list SDR).

Definition cancelled (e : error) : bool :=
  match e with
  | CommandError cc _ => cc =? CompletionReservationCancelled
  | _ => false
  end.

(** [for recordID := sdrFirstID; recordID != sdrLastID; { ... }]; [header]
    is nil at the head of every iteration, [sensors] is the slice declared
    before the [retry] label. *)
Fixpoint walk (fuel : nat) (filter : option (Z -> Z -> bool)) (reservation : Z)
         (recordID : Z) (sensors : list SDR) : CM walk_end :=
  fun st =>
    if negb (recordID =? sdrLastID) then
      match fuel with
      | O => (st, OutOfFuel)
      | S fuel' =>
          let (st1, r) := sdrGetRecordHeaderAndNextID reservation recordID st in
          match r with
          | Ok (header, nextID) =>
              let pass := match filter with
                          | None => true
                          | Some f => f (RecordID header) (RecordType header)
                          end in
              if pass then
                let (st2, r2) := sdrGetRecord fuel' reservation header st1 in
                match r2 with
                | Ok record =>
                    walk fuel' filter reservation nextID (sensors ++ [record]) st2
                | Err e =>
                    if cancelled e then (st2, Ok (GotoRetry sensors))
                    else (st2, Err e)
                | Panic what => (st2, Panic what)
                | OutOfFuel => (st2, OutOfFuel)
                end
              else walk fuel' filter reservation nextID sensors st1
          | Err e =>
              if cancelled e then (st1, Ok (GotoRetry sensors)) else (st1, Err e)
          | Panic what => (st1, Panic what)
          | OutOfFuel => (st1, OutOfFuel)
          end
      end
    else (st, Ok (Finished sensors)).

(** From the [retry] label to the end of [SDRGetRecordsRepo]. *)
Fixpoint reserve_and_walk (fuel : nat) (filter : option (Z -> Z -> bool))
         (sensors : list SDR) : CM (list SDR) :=
  fun st =>
    match fuel with
    | O => (st, OutOfFuel)
    | S fuel' =>
        let (st1, r) := Client_Execute ReserveSDRRepositoryCommand st in
        match r with
        | Ok reservation =>
            let (st2, r2) := walk fuel' filter reservation sdrFirstID sensors st1 in
            match r2 with
            | Ok (Finished sensors') => (st2, Ok sensors')
            | Ok (GotoRetry sensors') => reserve_and_walk fuel' filter sensors' st2
            | Err e => (st2, Err e)
            | Panic what => (st2, Panic what)
            | OutOfFuel => (st2, OutOfFuel)
            end
        | Err e => (st1, Err e)
        | Panic what => (st1, Panic what)
        | OutOfFuel => (st1, OutOfFuel)
        end
    end.

(** [func SDRGetRecordsRepo(c *Client, filter func(id uint16, t SDRType) bool) ([]SDR, error)] *)
Definition SDRGetRecordsRepo (fuel : nat) (filter : option (Z -> Z -> bool))
  : CM (list SDR) :=
  fun st =>
    let (st1, r) := Client_Execute GetSDRRepositoryInfoCommand st in
    match r with
    | Ok gic =>
        let v := SDRVersion gic in
        if negb (v =? 0x01) && negb (v =? 0x51) && negb (v =? 0x02) then
          (st1, Err (MessageError "Unknown SDR repository version"))
        else if RecordCount gic =? 0 then
          (st1, Err (MessageError "SDR record is zero in repository"))
        else reserve_and_walk fuel filter [] st1
    | Err e => (st1, Err e)
    | Panic what => (st1, Panic what)
    | OutOfFuel => (st1, OutOfFuel)
    end.

End Enumerator.

(** *** The chunk size *)

(** The chunk sizes on which the back-off of [sdrGetRecord] is a decrease
    by 8 with the floor 5: the floor itself and the multiples of 8, among
    them [sdrDefaultReadBytes]. (From 6 or 7 the [uint8] subtraction wraps
    to 254 or 255.) *)
Definition chunk_ok (v : Z) : Prop :=
  v = sdrHeaderSize \/ (8 <= v <= 248 /\ v mod 8 = 0).

(** The chunk size after a back-off. *)
Definition backoff (v : Z) : Z := Z.max sdrHeaderSize (v - 8).

Lemma chunk_ok_default : chunk_ok sdrDefaultReadBytes.
Proof. right. split; [unfold sdrDefaultReadBytes; lia | reflexivity]. Qed.

Lemma chunk_ok_range (v : Z) : chunk_ok v -> sdrHeaderSize <= v <= 248.
Proof. unfold chunk_ok, sdrHeaderSize. intros [-> | [H _]]; lia. Qed.

Lemma shrink_spec (v : Z) :
  chunk_ok v -> sdrHeaderSize < v ->
  shrink v = backoff v /\ chunk_ok (backoff v) /\ backoff v < v.
Proof.
  unfold chunk_ok, backoff, shrink, sdrHeaderSize, byte.
  intros [-> | [Hr Hm]] Hgt; [lia|].
  rewrite (Z.mod_small (v - 8) 256) by lia.
  destruct (v - 8 <? 5) eqn:E; [apply Z.ltb_lt in E | apply Z.ltb_ge in E].
  - rewrite Z.max_l by lia. split; [reflexivity | split; [left; reflexivity | lia]].
  - rewrite Z.max_r by lia. split; [reflexivity | split; [|lia]].
    right. split.
    + assert (v - 8 <> 5 /\ v - 8 <> 6 /\ v - 8 <> 7).
      { repeat split; intro Hx;
          replace v with (v - 8 + 8) in Hm by lia; rewrite Hx in Hm;
          discriminate Hm. }
      lia.
    + replace (v - 8) with (v + (-1) * 8) by lia. rewrite Z.mod_add by lia.
      exact Hm.
Qed.

(** *** Slices of the record body *)

Lemma slice_slice_app (l : list Z) (n r : Z) :
  0 <= n -> 0 <= r ->
  slice l 0 n ++ slice l n (n + r) = slice l 0 (n + r).
Proof.
  intros Hn Hr. unfold slice. change (Z.to_nat 0) with 0%nat. cbn [skipn].
  rewrite !Z.sub_0_r. replace (n + r - n) with r by lia.
  rewrite Z2Nat.inj_add by assumption.
  generalize (Z.to_nat n) as a. generalize (Z.to_nat r) as b. clear.
  intros b a. revert l. induction a as [|a IH]; intro l; [reflexivity|].
  destruct l as [|x l]; [cbn; rewrite firstn_nil; reflexivity|].
  cbn [Nat.add firstn skipn app]. f_equal. apply IH.
Qed.

Lemma len_slice (l : list Z) (lo hi : Z) :
  0 <= lo <= hi -> hi <= len l -> len (slice l lo hi) = hi - lo.
Proof.
  intros H1 H2. unfold len, slice in *.
  rewrite length_firstn, length_skipn. lia.
Qed.

Lemma make_split (a b : Z) : 0 <= a -> 0 <= b -> make (a + b) = make a ++ make b.
Proof.
  intros Ha Hb. unfold make. rewrite Z2Nat.inj_add by assumption.
  apply repeat_app.
Qed.

Lemma copy_into_zeros (k : Z) (data : list Z) :
  len data <= k -> copy (make k) data = data ++ make (k - len data).
Proof.
  intro H. pose proof (len_nonneg data) as H0.
  replace (make k) with (make (len data) ++ make (k - len data))
    by (rewrite <- make_split by lia; f_equal; lia).
  unfold copy. rewrite firstn_all2.
  - f_equal. rewrite skipn_app, skipn_all2.
    + replace (length data - length (make (len data)))%nat with 0%nat;
        [reflexivity|].
      unfold make, len. rewrite repeat_length. lia.
    + unfold make, len. rewrite repeat_length. lia.
  - rewrite length_app. unfold make at 1, len at 1. rewrite repeat_length. lia.
Qed.

Lemma slice_app_exact (a b : list Z) (n : Z) :
  len a = n -> slice (a ++ b) 0 n = a.
Proof. intros <-. apply Crypto.slice_app_l. Qed.

Lemma from_app_exact (a b : list Z) (n : Z) :
  len a = n -> from (a ++ b) n = b.
Proof. intros <-. apply Crypto.from_app_r. Qed.

(** The buffer of [sdrGetRecord] after the first [n] bytes of the body
    have been copied into it, and the effect of copying the next chunk. *)
Definition partial (body : list Z) (n : Z) : list Z :=
  slice body 0 n ++ make (len body - n).

Lemma partial_all (body : list Z) : partial body (len body) = body.
Proof.
  unfold partial. rewrite Z.sub_diag. change (make 0) with (@nil Z).
  rewrite app_nil_r. unfold slice. change (Z.to_nat 0) with 0%nat. cbn [skipn].
  rewrite Z.sub_0_r. apply firstn_all2. unfold len. lia.
Qed.

Lemma partial_zero (body : list Z) : partial body 0 = make (len body).
Proof. unfold partial. rewrite Z.sub_0_r. reflexivity. Qed.

Lemma partial_copy (body : list Z) (n r : Z) :
  0 <= n -> 0 <= r -> n + r <= len body ->
  slice (partial body n) 0 n ++ copy (from (partial body n) n) (slice body n (n + r))
  = partial body (n + r).
Proof.
  intros Hn Hr Hl. unfold partial.
  assert (Hpre : len (slice body 0 n) = n) by (rewrite len_slice; lia).
  rewrite (slice_app_exact _ _ n Hpre), (from_app_exact _ _ n Hpre).
  assert (Hd : len (slice body n (n + r)) = r) by (rewrite len_slice; lia).
  rewrite copy_into_zeros by lia. rewrite Hd.
  rewrite app_assoc, slice_slice_app by assumption.
  f_equal. f_equal. lia.
Qed.

Section EnumeratorFacts.

Variable World : Type.
Variable SendPacket : World -> sessionV2_0 -> ipmiPacket -> World * result response.
Variable openConnection : World -> sessionV2_0 -> World * sessionV2_0 * result unit.

Local Abbreviation Client_Execute := (Client_Execute World SendPacket openConnection).
Local Abbreviation sdrGetRecord_iter := (sdrGetRecord_iter World SendPacket openConnection).
Local Abbreviation sdrGetRecord_loop := (sdrGetRecord_loop World SendPacket openConnection).
Local Abbreviation sdrGetRecord := (sdrGetRecord World SendPacket openConnection).

Definition chunk (st : CState World) : Z := sdrReadingBytes (snd st).

(** The error of a Get-SDR that asked for too many bytes. *)
Definition exceeded (cmd : string) : error :=
  CommandError CompletionRequestDataFieldExceedEd cmd.

Lemma Client_Execute_sdrReadingBytes {R : Type} (cmd : Command R) (st : CState World) :
  chunk (fst (Client_Execute cmd st)) = chunk st.
Proof.
  destruct st as [w c]. unfold chunk, SDR.Client_Execute.
  destruct (Execute World SendPacket openConnection cmd (w, session c)) as [[w' s'] r].
  reflexivity.
Qed.

(** **** One pass of the loop *)

Lemma sdrGetRecord_loop_pass (fuel : nat) (reservation : Z) (header : sdrHeader)
      (n : Z) (buf : list Z) (st : CState World) :
  n < RemainingBytes header ->
  sdrGetRecord_loop (S fuel) reservation header n buf st =
  let (st1, r) := sdrGetRecord_iter reservation header n buf st in
  match r with
  | Ok (n', buf') => sdrGetRecord_loop fuel reservation header n' buf' st1
  | Err e => (st1, Err e)
  | Panic what => (st1, Panic what)
  | OutOfFuel => (st1, OutOfFuel)
  end.
Proof.
  intro H. cbn [SDR.sdrGetRecord_loop]. apply Z.ltb_lt in H. rewrite H.
  reflexivity.
Qed.

Lemma sdrGetRecord_loop_done (fuel : nat) (reservation : Z) (header : sdrHeader)
      (n : Z) (buf : list Z) (st : CState World) :
  RemainingBytes header <= n ->
  sdrGetRecord_loop fuel reservation header n buf st = (st, Ok buf).
Proof.
  intro H. apply Z.ltb_ge in H. destruct fuel; cbn [SDR.sdrGetRecord_loop];
    rewrite H; reflexivity.
Qed.

Lemma iter_backoff (reservation : Z) (header : sdrHeader) (n : Z) (buf : list Z)
      (st st1 : CState World) (cmd : string) :
  chunk_ok (chunk st) -> sdrHeaderSize < chunk st ->
  Client_Execute (sdrGetRecord_request (snd st) reservation header n) st
  = (st1, Err (exceeded cmd)) ->
  sdrGetRecord_iter reservation header n buf st
  = ((fst st1, set_sdrReadingBytes (backoff (chunk st)) (snd st1)), Ok (n, buf)).
Proof.
  intros Hok Hgt He.
  pose proof (Client_Execute_sdrReadingBytes
                (sdrGetRecord_request (snd st) reservation header n) st) as Hrb.
  rewrite He in Hrb. cbn [fst] in Hrb. unfold chunk in *.
  unfold SDR.sdrGetRecord_iter. rewrite He. unfold exceeded.
  rewrite Z.eqb_refl, Hrb. apply Z.ltb_lt in Hgt. rewrite Hgt. cbn [andb].
  apply Z.ltb_lt in Hgt.
  destruct (shrink_spec _ Hok Hgt) as [Hs _]. rewrite Hs. reflexivity.
Qed.

Lemma iter_floor (reservation : Z) (header : sdrHeader) (n : Z) (buf : list Z)
      (st st1 : CState World) (cmd : string) :
  chunk st = sdrHeaderSize ->
  Client_Execute (sdrGetRecord_request (snd st) reservation header n) st
  = (st1, Err (exceeded cmd)) ->
  sdrGetRecord_iter reservation header n buf st = (st1, Err (exceeded cmd)).
Proof.
  intros Hv He.
  pose proof (Client_Execute_sdrReadingBytes
                (sdrGetRecord_request (snd st) reservation header n) st) as Hrb.
  rewrite He in Hrb. cbn [fst] in Hrb. unfold chunk in *.
  unfold SDR.sdrGetRecord_iter. rewrite He. unfold exceeded.
  rewrite Z.eqb_refl, Hrb, Hv, Z.ltb_irrefl. reflexivity.
Qed.

Lemma iter_served (reservation : Z) (header : sdrHeader) (n : Z) (buf : list Z)
      (st st1 : CState World) (gsc : GetSDR) :
  Client_Execute (sdrGetRecord_request (snd st) reservation header n) st
  = (st1, Ok gsc) ->
  sdrGetRecord_iter reservation header n buf st
  = (st1, Ok (byte (n + byte (len (RecordData gsc))),
              slice buf 0 n ++ copy (from buf n) (RecordData gsc))).
Proof. intro He. unfold SDR.sdrGetRecord_iter. rewrite He. reflexivity. Qed.

(** One pass leaves the chunk size alone or backs off; it surfaces the
    error [exceeded] only at the floor. *)
Lemma iter_chunk (reservation : Z) (header : sdrHeader) (n : Z) (buf : list Z)
      (st : CState World) :
  chunk_ok (chunk st) ->
  let out := sdrGetRecord_iter reservation header n buf st in
  chunk_ok (chunk (fst out)) /\ chunk (fst out) <= chunk st /\
  (forall cmd, snd out = Err (exceeded cmd) -> chunk (fst out) = sdrHeaderSize).
Proof.
  intros Hok out. unfold out, SDR.sdrGetRecord_iter.
  pose proof (Client_Execute_sdrReadingBytes
                (sdrGetRecord_request (snd st) reservation header n) st) as Hrb.
  destruct (Client_Execute (sdrGetRecord_request (snd st) reservation header n) st)
    as [st1 r]. cbn [fst] in Hrb. unfold chunk in *.
  destruct r as [gsc | e | what |]; cbn [fst snd];
    try (rewrite Hrb; split; [assumption | split; [lia | discriminate]]).
  destruct e as [m | m | cc cmd0 | t | m]; cbn [fst snd];
    try (rewrite Hrb; split; [assumption | split; [lia | discriminate]]).
  destruct ((cc =? CompletionRequestDataFieldExceedEd)
            && (sdrHeaderSize <? sdrReadingBytes (snd st1))) eqn:E; cbn [fst snd].
  - apply andb_true_iff in E. destruct E as [_ E]. apply Z.ltb_lt in E.
    rewrite Hrb in *. destruct (shrink_spec _ Hok E) as (Hs & Hok' & Hlt).
    cbn [set_sdrReadingBytes sdrReadingBytes]. rewrite Hs.
    split; [assumption | split; [lia | discriminate]].
  - rewrite Hrb. split; [assumption | split; [lia|]].
    intros cmd Hc. unfold exceeded in Hc. inversion Hc as [[Hcc Hcmd]].
    rewrite Hcc, Z.eqb_refl in E. cbn [andb] in E. apply Z.ltb_ge in E.
    rewrite Hrb in E. pose proof (chunk_ok_range _ Hok). lia.
Qed.

Lemma loop_chunk (fuel : nat) (reservation : Z) (header : sdrHeader) :
  forall n buf st,
    chunk_ok (chunk st) ->
    let out := sdrGetRecord_loop fuel reservation header n buf st in
    chunk_ok (chunk (fst out)) /\ chunk (fst out) <= chunk st /\
    (forall cmd, snd out = Err (exceeded cmd) -> chunk (fst out) = sdrHeaderSize).
Proof.
  induction fuel as [|fuel IH]; intros n buf st Hok out; unfold out;
    cbn [SDR.sdrGetRecord_loop]; destruct (n <? RemainingBytes header);
    cbn [fst snd]; try (split; [assumption | split; [lia | discriminate]]).
  pose proof (iter_chunk reservation header n buf st Hok) as H. cbv zeta in H.
  destruct (sdrGetRecord_iter reservation header n buf st) as [st1 r].
  cbn [fst snd] in H. destruct H as (H1 & H2 & H3).
  destruct r as [[n' buf'] | e | what |]; cbn [fst snd];
    try (split; [assumption | split; [lia | discriminate]]).
  - specialize (IH n' buf' st1 H1). cbv zeta in IH. destruct IH as (I1 & I2 & I3).
    split; [assumption | split; [lia | exact I3]].
  - split; [assumption | split; [lia|]].
    intros cmd Hc. apply (H3 cmd). inversion Hc. reflexivity.
Qed.

(** **** Reading from a peer that serves at most [limit] bytes *)

Lemma sdrGetRecord_request_eq (c : Client) (reservation : Z) (header : sdrHeader)
      (n : Z) :
  chunk_ok (sdrReadingBytes c) ->
  0 <= n < RemainingBytes header -> RemainingBytes header <= 250 ->
  sdrGetRecord_request c reservation header n
  = GetSDRCommand reservation (RecordID header) (n + sdrHeaderSize)
                  (Z.min (sdrReadingBytes c) (RemainingBytes header - n)).
Proof.
  intros Hok Hn Hl. unfold sdrGetRecord_request. cbv zeta.
  unfold byte, sdrHeaderSize.
  rewrite (Z.mod_small (RemainingBytes header - n)) by lia.
  rewrite (Z.mod_small (n + 5)) by lia.
  f_equal.
  destruct (sdrReadingBytes c <? RemainingBytes header - n) eqn:E;
    [apply Z.ltb_lt in E; rewrite Z.min_l by lia
    | apply Z.ltb_ge in E; rewrite Z.min_r by lia]; reflexivity.
Qed.

Section LimitedPeer.

Variable limit next reservation : Z.
Variable header : sdrHeader.
Variable body : list Z.
Variable Inv : World -> sessionV2_0 -> Prop.

Definition serves : Prop :=
  forall off cnt st,
    Inv (fst st) (session (snd st)) ->
    0 <= off -> 0 < cnt -> off + cnt <= len body ->
    exists st',
      Inv (fst st') (session (snd st')) /\
      Client_Execute (GetSDRCommand reservation (RecordID header)
                                    (off + sdrHeaderSize) cnt) st
      = (st', if limit <? cnt then Err (exceeded "Get SDR")
              else Ok {| NextRecordID := next;
                         RecordData := slice body off (off + cnt) |}).

Lemma loop_served :
  RemainingBytes header = len body -> len body <= 250 ->
  sdrHeaderSize <= limit -> serves ->
  forall fuel n st,
    0 <= n <= len body -> chunk_ok (chunk st) ->
    Inv (fst st) (session (snd st)) ->
    (Z.to_nat (len body - n) + Z.to_nat (chunk st) <= fuel)%nat ->
    exists st',
      sdrGetRecord_loop fuel reservation header n (partial body n) st
      = (st', Ok body) /\
      Inv (fst st') (session (snd st')) /\
      chunk_ok (chunk st') /\ chunk st' <= chunk st /\
      (chunk st' = chunk st \/ limit < chunk st' + 8) /\
      (n < len body -> chunk st <= len body - n -> chunk st' <= limit).
Proof.
  intros Hrem Hmax Hlimit Hserve.
  induction fuel as [|fuel IH]; intros n st Hn Hok Hinv Hfuel;
    pose proof (chunk_ok_range _ Hok) as Hrange; unfold sdrHeaderSize in *.
  - assert (n = len body) by lia. subst n.
    rewrite sdrGetRecord_loop_done by lia. rewrite partial_all.
    exists st. repeat split; try assumption; try lia.
  - destruct (Z.eq_dec n (len body)) as [-> | Hneq].
    { rewrite sdrGetRecord_loop_done by lia. rewrite partial_all.
      exists st. repeat split; try assumption; try lia. }
    assert (Hlt : n < len body) by lia.
    rewrite sdrGetRecord_loop_pass by lia.
    set (cnt := Z.min (chunk st) (len body - n)).
    assert (Hcnt : 0 < cnt <= len body - n) by (unfold cnt; lia).
    assert (Hreq : sdrGetRecord_request (snd st) reservation header n
                   = GetSDRCommand reservation (RecordID header)
                                   (n + sdrHeaderSize) cnt).
    { rewrite sdrGetRecord_request_eq by (assumption || lia).
      rewrite Hrem. reflexivity. }
    destruct (Hserve n cnt st Hinv ltac:(lia) ltac:(lia) ltac:(lia))
      as (st1 & Hinv1 & Hex).
    rewrite <- Hreq in Hex.
    pose proof (Client_Execute_sdrReadingBytes
                  (sdrGetRecord_request (snd st) reservation header n) st) as Hrb.
    rewrite Hex in Hrb. cbn [fst] in Hrb.
    destruct (limit <? cnt) eqn:Elim;
      [apply Z.ltb_lt in Elim | apply Z.ltb_ge in Elim].
    + assert (Hgt : 5 < chunk st) by (unfold cnt in Elim; lia).
      rewrite (iter_backoff reservation header n _ st st1 "Get SDR" Hok Hgt Hex).
      destruct (shrink_spec _ Hok Hgt) as (_ & Hok2 & Hlt2).
      set (st2 := (fst st1, set_sdrReadingBytes (backoff (chunk st)) (snd st1))).
      assert (Hc2 : chunk st2 = backoff (chunk st)) by reflexivity.
      destruct (IH n st2 ltac:(lia) ltac:(rewrite Hc2; exact Hok2) Hinv1
                   ltac:(rewrite Hc2; lia))
        as (st' & Hloop & Hinv' & Hok' & Hle & Hstep & Hmet).
      exists st'. rewrite Hc2 in *. unfold backoff, sdrHeaderSize in *.
      split; [exact Hloop | split; [exact Hinv' | split; [exact Hok'|]]].
      split; [lia | split; [right; unfold cnt in Elim; lia|]].
      intros _ Hfit. apply Hmet; lia.
    + rewrite (iter_served reservation header n _ st st1 _ Hex).
      cbn [RecordData].
      assert (Hd : len (slice body n (n + cnt)) = cnt) by (rewrite len_slice; lia).
      rewrite Hd. unfold byte.
      rewrite (Z.mod_small cnt) by lia. rewrite (Z.mod_small (n + cnt)) by lia.
      rewrite partial_copy by lia.
      destruct (IH (n + cnt) st1 ltac:(lia) ltac:(rewrite Hrb; exact Hok) Hinv1
                   ltac:(rewrite Hrb; lia))
        as (st' & Hloop & Hinv' & Hok' & Hle & Hstep & Hmet).
      exists st'. rewrite Hrb in *.
      split; [exact Hloop | split; [exact Hinv' | split; [exact Hok'|]]].
      split; [lia | split; [exact Hstep|]].
      intros _ Hfit. unfold cnt in Elim. lia.
Qed.

End LimitedPeer.

(** C9: a Get-SDR of a body read that fails with Request data field
    exceeded (0xCA) while the chunk size is above the floor of 5 lowers
    [sdrReadingBytes] by 8, not below 5, and the loop of [sdrGetRecord] goes
    on with the same offset and the same buffer: the error is not returned.
    At the floor the error is returned to the caller, and [sdrGetRecord]
    returns this error only with the chunk size at the floor; a body read
    never raises the chunk size. Against a peer that serves at most [limit]
    bytes per request, [limit] being at least 5, the read succeeds with the
    whole body, and the chunk size has gone down in steps of 8 no further
    than needed: it ends at most at [limit] when the body is at least one
    chunk long, and above [limit - 8] when it has changed. This holds from
    every chunk size that is 5 or a multiple of 8, among them the default
    of 32. *)
Theorem sdr_chunk_backoff :
  CompletionRequestDataFieldExceedEd = 0xca /\
  sdrDefaultReadBytes = 32 /\ chunk_ok sdrDefaultReadBytes /\
  (forall fuel reservation header n buf st st1 cmd,
      n < RemainingBytes header ->
      chunk_ok (chunk st) -> sdrHeaderSize < chunk st ->
      Client_Execute (sdrGetRecord_request (snd st) reservation header n) st
      = (st1, Err (exceeded cmd)) ->
      let st2 :=
        (fst st1, set_sdrReadingBytes (Z.max 5 (chunk st - 8)) (snd st1)) in
      Z.max 5 (chunk st - 8) < chunk st /\
      chunk_ok (Z.max 5 (chunk st - 8)) /\
      sdrGetRecord_loop (S fuel) reservation header n buf st
      = sdrGetRecord_loop fuel reservation header n buf st2 /\
      (n = 0 ->
       sdrGetRecord (S fuel) reservation header st
       = sdrGetRecord fuel reservation header st2)) /\
  (forall fuel reservation header n buf st st1 cmd,
      n < RemainingBytes header ->
      chunk st = sdrHeaderSize ->
      Client_Execute (sdrGetRecord_request (snd st) reservation header n) st
      = (st1, Err (exceeded cmd)) ->
      sdrGetRecord_loop (S fuel) reservation header n buf st
      = (st1, Err (exceeded cmd)) /\
      (n = 0 ->
       sdrGetRecord (S fuel) reservation header st = (st1, Err (exceeded cmd)))) /\
  (forall fuel reservation header st,
      chunk_ok (chunk st) ->
      let out := sdrGetRecord fuel reservation header st in
      chunk_ok (chunk (fst out)) /\ chunk (fst out) <= chunk st /\
      (forall cmd, snd out = Err (exceeded cmd) ->
                   chunk (fst out) = sdrHeaderSize)) /\
  (forall limit next reservation header body Inv fuel st,
      RemainingBytes header = len body -> len body <= 250 ->
      sdrHeaderSize <= limit ->
      serves limit next reservation header body Inv ->
      chunk_ok (chunk st) -> Inv (fst st) (session (snd st)) ->
      (Z.to_nat (len body) + Z.to_nat (chunk st) <= fuel)%nat ->
      exists st',
        sdrGetRecord fuel reservation header st = (st', sdrParse header body) /\
        chunk_ok (chunk st') /\ chunk st' <= chunk st /\
        (chunk st' = chunk st \/ limit < chunk st' + 8) /\
        (chunk st <= len body -> chunk st' <= limit)).
Proof.
  split; [reflexivity|]. split; [reflexivity|]. split; [exact chunk_ok_default|].
  split; [|split; [|split]].
  - intros fuel reservation header n buf st st1 cmd Hn Hok Hgt He st2.
    destruct (shrink_spec _ Hok Hgt) as (_ & Hok2 & Hlt2).
    unfold backoff, sdrHeaderSize in Hok2, Hlt2.
    assert (Hloop : forall b,
               sdrGetRecord_loop (S fuel) reservation header n b st
               = sdrGetRecord_loop fuel reservation header n b st2).
    { intro b. rewrite sdrGetRecord_loop_pass by exact Hn.
      rewrite (iter_backoff reservation header n b st st1 cmd Hok Hgt He).
      reflexivity. }
    split; [exact Hlt2 | split; [exact Hok2 | split; [apply Hloop|]]].
    intros ->. unfold SDR.sdrGetRecord. rewrite Hloop. reflexivity.
  - intros fuel reservation header n buf st st1 cmd Hn Hv He.
    assert (Hloop : forall b,
               sdrGetRecord_loop (S fuel) reservation header n b st
               = (st1, Err (exceeded cmd))).
    { intro b. rewrite sdrGetRecord_loop_pass by exact Hn.
      rewrite (iter_floor reservation header n b st st1 cmd Hv He).
      reflexivity. }
    split; [apply Hloop|].
    intros ->. unfold SDR.sdrGetRecord. rewrite Hloop. reflexivity.
  - intros fuel reservation header st Hok out. unfold out, SDR.sdrGetRecord.
    pose proof (loop_chunk fuel reservation header 0
                  (make (RemainingBytes header)) st Hok) as H. cbv zeta in H.
    destruct (sdrGetRecord_loop fuel reservation header 0
                (make (RemainingBytes header)) st) as [st1 r].
    cbn [fst snd] in H. destruct H as (H1 & H2 & H3).
    destruct r as [buf | e | what |]; cbn [fst snd];
      (split; [assumption | split; [assumption|]]).
    + intros cmd Hc. exfalso. unfold sdrParse in Hc.
      destruct (RecordType header =? SDRTypeFullSensor);
        [destruct (len buf <? sdrFullSensorSize); discriminate Hc|].
      destruct (RecordType header =? SDRTypeFRUDeviceLocator);
        [destruct (len buf <? sdrFRUDeviceLocatorSize); discriminate Hc|].
      discriminate Hc.
    + intros cmd Hc. apply (H3 cmd). inversion Hc. reflexivity.
    + discriminate.
    + discriminate.
  - intros limit next reservation header body Inv fuel st Hrem Hmax Hlimit
           Hserve Hok Hinv Hfuel.
    pose proof (len_nonneg body) as Hb.
    destruct (loop_served limit next reservation header body Inv Hrem Hmax
                          Hlimit Hserve fuel 0 st ltac:(lia) Hok Hinv
                          ltac:(rewrite Z.sub_0_r; exact Hfuel))
      as (st' & Hloop & _ & Hok' & Hle & Hstep & Hmet).
    exists st'. unfold SDR.sdrGetRecord. rewrite Hrem, <- partial_zero, Hloop.
    split; [reflexivity | split; [exact Hok' | split; [exact Hle|]]].
    split; [exact Hstep|]. intro Hfit.
    pose proof (chunk_ok_range _ Hok). unfold sdrHeaderSize in *.
    apply Hmet; lia.
Qed.

End EnumeratorFacts.

(** *** A peer with a read limit *)

(** A peer that holds one record, refuses a Get-SDR for more than [limit]
    bytes with 0xCA and serves every other one from the record, with the
    next record id 0xffff. *)
Definition limited_SendPacket (limit : Z) (record : list Z) (w : unit)
           (s : sessionV2_0) (pkt : ipmiPacket) : unit * result response :=
  let data := req_Data (Request pkt) in
  let offset := index data 4 in
  let count := index data 5 in
  if limit <? count then (tt, reply CompletionRequestDataFieldExceedEd [])
  else (tt, reply 0 ([0xff; 0xff] ++ slice record offset (offset + count))).

Definition no_dial (w : unit) (s : sessionV2_0) : unit * sessionV2_0 * result unit :=
  (w, s, Err (OtherError "dial")).

(** The socket is open and no retries are configured. *)
Definition connected (w : unit) (s : sessionV2_0) : Prop :=
  conn s = true /\ Retries (args s) = 0.

Lemma slice_behind (pre body : list Z) (off cnt : Z) :
  0 <= off -> 0 <= cnt ->
  slice (pre ++ body) (off + len pre) (off + len pre + cnt)
  = slice body off (off + cnt).
Proof.
  intros Ho Hc. unfold slice, len.
  replace (off + Z.of_nat (length pre) + cnt - (off + Z.of_nat (length pre)))
    with cnt by lia.
  replace (off + cnt - off) with cnt by lia.
  rewrite Z2Nat.inj_add, Nat2Z.id by lia.
  rewrite skipn_app.
  replace (Z.to_nat off + length pre - length pre)%nat with (Z.to_nat off) by lia.
  rewrite skipn_all2 by lia. reflexivity.
Qed.

Lemma attempt_connected {R : Type} (SendPacket : unit -> sessionV2_0 -> ipmiPacket -> unit * result response)
      (cmd : Command R) (w : unit) (s : sessionV2_0) :
  connected w s ->
  exists s' hdr rq,
    attempt unit SendPacket cmd (w, s)
    = ((fst (SendPacket w s'
               {| SessionHeader := hdr;
                  Request := {| req_RsAddr := bmcSlaveAddress;
                                req_RqAddr := remoteSWID; req_RqSeq := rq;
                                req_NetFnRsLUN := NetFnRsLUN cmd;
                                req_Code := Code cmd;
                                req_Data := Marshal cmd |} |}), s'),
       snd (SendPacket w s'
              {| SessionHeader := hdr;
                 Request := {| req_RsAddr := bmcSlaveAddress;
                               req_RqAddr := remoteSWID; req_RqSeq := rq;
                               req_NetFnRsLUN := NetFnRsLUN cmd;
                               req_Code := Code cmd;
                               req_Data := Marshal cmd |} |})) /\
    connected tt s'.
Proof.
  intros [Hc Hr]. unfold attempt, Header.
  assert (H1 : conn (snd (NextSequence s)) = true /\
               Retries (args (snd (NextSequence s))) = 0).
  { unfold NextSequence. destruct (ActiveSession s);
      [destruct (sequence s =? MaxUint32)|]; cbn; split; assumption. }
  destruct (NextSequence s) as [n s1]. cbn [snd] in H1.
  assert (H2 : conn (snd (NextRqSeq s1)) = true /\
               Retries (args (snd (NextRqSeq s1))) = 0).
  { unfold NextRqSeq. cbn. exact H1. }
  destruct (NextRqSeq s1) as [rq s2]. cbn [snd] in H2.
  exists s2, {| v20_authType := authTypeRMCPPlus;
                v20_payloadType := payloadTypeIPMI; v20_id := id s;
                v20_sequence := n; v20_payloadLength := 0 |}, rq.
  split; [|exact H2].
  match goal with |- context [SendPacket w s2 ?p] =>
    destruct (SendPacket w s2 p) as [w' r] end.
  reflexivity.
Qed.

Lemma limited_serves (limit reservation : Z) (header : sdrHeader)
      (pre body : list Z) :
  len pre = sdrHeaderSize -> len body <= 250 ->
  serves unit (limited_SendPacket limit (pre ++ body)) no_dial
         limit 0xffff reservation header body connected.
Proof.
  intros Hpre Hmax off cnt [w c] Hinv Hoff Hcnt Hfit.
  cbn [fst snd] in Hinv. destruct Hinv as [Hconn Hret].
  unfold SDR.Client_Execute, Execute, Open. rewrite Hconn.
  unfold execute. cbn [snd]. rewrite Hret.
  change (int 0) with 0. unfold retry. cbv zeta.
  change (0 =? MaxInt64) with false. change (Z.to_nat (0 + 1)) with 1%nat.
  cbn [retry_loop].
  destruct (attempt_connected (limited_SendPacket limit (pre ++ body))
              (GetSDRCommand reservation (RecordID header) (off + sdrHeaderSize) cnt)
              w (session c) (conj Hconn Hret))
    as (s' & hdr & rq & Hatt & Hinv').
  rewrite Hatt. clear Hatt.
  unfold limited_SendPacket. cbn [Request req_Data GetSDRCommand Marshal].
  change (index [byte reservation; byte (Z.shiftr reservation 8);
                 byte (RecordID header); byte (Z.shiftr (RecordID header) 8);
                 byte (off + sdrHeaderSize); byte cnt] 4)
    with (byte (off + sdrHeaderSize)).
  change (index [byte reservation; byte (Z.shiftr reservation 8);
                 byte (RecordID header); byte (Z.shiftr (RecordID header) 8);
                 byte (off + sdrHeaderSize); byte cnt] 5)
    with (byte cnt).
  unfold sdrHeaderSize in *.
  assert (Hb1 : byte (off + 5) = off + 5) by (apply Z.mod_small; lia).
  assert (Hb2 : byte cnt = cnt) by (apply Z.mod_small; lia).
  rewrite Hb1, Hb2.
  destruct (limit <? cnt).
  - cbn [fst snd]. unfold reply. cbn [CompletionCode].
    exists (tt, {| session := s'; sdrReadingBytes := sdrReadingBytes c |}).
    split; [exact Hinv'|]. reflexivity.
  - cbn [fst snd]. unfold reply. cbn [CompletionCode Data].
    change (negb (0 =? CompletionOK)) with false. cbv iota.
    exists (tt, {| session := s'; sdrReadingBytes := sdrReadingBytes c |}).
    split; [exact Hinv'|]. f_equal.
    rewrite <- Hpre. rewrite slice_behind by lia.
    assert (Hd : len (slice body off (off + cnt)) = cnt)
      by (rewrite len_slice; lia).
    unfold GetSDRCommand. cbn [Unmarshal]. unfold cmdValidateLength.
    rewrite len_app. change (len [255; 255]) with 2. rewrite Hd.
    destruct (2 + cnt <? 2) eqn:E; [apply Z.ltb_lt in E; lia|].
    change (from ([255; 255] ++ slice body off (off + cnt)) 2)
      with (slice body off (off + cnt)).
    rewrite Hd, Z.leb_refl. reflexivity.
Qed.

(** *** Runs against the mock BMC *)

Definition mock (repo : list MockBMC.sdr_record) (cancelAt cancelCode readLimit : Z)
  : MockBMC.BMC :=
  {| MockBMC.sdr_repo := repo; MockBMC.sel_entries := 0;
     MockBMC.reservation := 0x100; MockBMC.get_sdr_calls := 0;
     MockBMC.cancel_at := cancelAt; MockBMC.cancel_code := cancelCode;
     MockBMC.read_limit := readLimit; MockBMC.requests := [] |}.

(** A client whose session is established, with the initial chunk size. *)
Definition opened : Client :=
  {| session := established; sdrReadingBytes := sdrDefaultReadBytes |}.

(** Two records, of 8 and 6 body bytes. *)
Definition repo2 : list MockBMC.sdr_record :=
  [ {| MockBMC.rec_id := 1; MockBMC.rec_type := 0x02;
       MockBMC.rec_body := [1; 2; 3; 4; 5; 6; 7; 8] |};
    {| MockBMC.rec_id := 2; MockBMC.rec_type := 0x12;
       MockBMC.rec_body := [9; 8; 7; 6; 5; 4] |} ].

(** One record of 40 body bytes. *)
Definition repo1 : list MockBMC.sdr_record :=
  [ {| MockBMC.rec_id := 1; MockBMC.rec_type := 0x02;
       MockBMC.rec_body := map Z.of_nat (seq 1 40) |} ].

Definition run (b : MockBMC.BMC) : MockBMC.BMC * Client * result (list SDR) :=
  SDRGetRecordsRepo MockBMC.BMC MockBMC.bmc_SendPacket MockBMC.bmc_openConnection
                    20 None (b, opened).

Definition record_ids (r : result (list SDR)) : result (list Z) :=
  match r with
  | Ok l => Ok (map SDR_ID l)
  | Err e => Err e
  | Panic what => Panic what
  | OutOfFuel => OutOfFuel
  end.

(** A peer that serves at most 16 bytes per Get-SDR and a record of 40 body
    bytes, read with the default chunk size: the first pass is refused and
    leaves the chunk size at 24 with nothing returned yet; the read succeeds
    with the whole body and the chunk size ends at 16, after 32 and 24 were
    refused; the same against the mock BMC, through the whole enumeration. *)
Lemma sdr_chunk_backoff_witness :
  let body := map Z.of_nat (seq 1 40) in
  let header := {| RecordID := 1; hdr_SDRVersion := 0x51; RecordType := 0x02;
                   RemainingBytes := 40 |} in
  let send := limited_SendPacket 16 ([1; 0; 0x51; 0x02; 40] ++ body) in
  (exists st2,
      sdrGetRecord_loop unit send no_dial 1 0x101 header 0 (make 40) (tt, opened)
      = sdrGetRecord_loop unit send no_dial 0 0x101 header 0 (make 40) st2 /\
      sdrReadingBytes (snd st2) = 24) /\
  (exists st',
      sdrGetRecord unit send no_dial 80 0x101 header (tt, opened)
      = (st', Ok (sdrRaw header body)) /\
      sdrReadingBytes (snd st') = 16) /\
  (let '(b', c', r) := run (mock repo1 0 0 16) in
   record_ids r = Ok [1] /\ sdrReadingBytes c' = 16).
Proof.
  intros body header send.
  destruct (sdr_chunk_backoff unit send no_dial)
    as (_ & _ & _ & Hback & _ & _ & Hpeer).
  split; [|split; [|vm_compute; split; reflexivity]].
  - pose (ex := Client_Execute unit send no_dial
                  (sdrGetRecord_request opened 0x101 header 0) (tt, opened)).
    assert (He : ex = (fst ex, Err (exceeded "Get SDR")))
      by (vm_compute; reflexivity).
    destruct (Hback 0%nat 0x101 header 0 (make 40) (tt, opened) (fst ex)
                    "Get SDR"%string)
      as (_ & _ & Hloop & _).
    + vm_compute. reflexivity.
    + exact chunk_ok_default.
    + vm_compute. reflexivity.
    + exact He.
    + eexists. split; [exact Hloop | reflexivity].
  - destruct (Hpeer 16 0xffff 0x101 header body connected 80%nat (tt, opened))
      as (st' & Hrun & Hok & Hle & Hstep & Hmet).
    + reflexivity.
    + vm_compute. discriminate.
    + unfold sdrHeaderSize. lia.
    + apply limited_serves; [reflexivity | vm_compute; discriminate].
    + exact chunk_ok_default.
    + split; reflexivity.
    + vm_compute. lia.
    + exists st'. split; [exact Hrun|].
      specialize (Hmet ltac:(vm_compute; discriminate)).
      unfold chunk, chunk_ok, sdrHeaderSize in *.
      change (sdrReadingBytes (snd (tt, opened))) with 32 in *.
      destruct Hok as [H5 | [Hr Hm]]; [lia|].
      revert Hm. generalize (sdrReadingBytes (snd st')) Hr Hstep Hmet. clear.
      intros v Hr Hstep Hmet Hm. Z.div_mod_to_equations. lia.
Defined.

(** C1 (refuted on the code): the constant [CompletionReservationCancelled]
    is 0xC7, so a Get-SDR that fails with 0xC5 is returned to the caller as
    a command error and no new reservation is taken; and when the third
    Get-SDR fails with the constant's own value, a second reservation is
    taken and the walk restarts at the first record, but the record
    collected before stays in the list: the two-record repository comes back
    as records 1, 1, 2. An undisturbed walk returns records 1, 2. *)
Theorem SDRGetRecordsRepo_cancelled_reservation :
  CompletionReservationCancelled = 0xc7 /\
  (let '(b', c', r) := run (mock repo2 3 0xc5 255) in
   r = Err (CommandError 0xc5 "Get SDR") /\ MockBMC.reservation b' = 0x100 + 1) /\
  (let '(b', c', r) := run (mock repo2 3 CompletionReservationCancelled 255) in
   record_ids r = Ok [1; 1; 2] /\ MockBMC.reservation b' = 0x100 + 2) /\
  (let '(b', c', r) := run (mock repo2 0 0 255) in
   record_ids r = Ok [1; 2] /\ MockBMC.reservation b' = 0x100 + 1).
Proof.
  vm_compute. repeat split.
Qed.

End SDR.

(** ** command_sel.go, sel.go: the SEL enumerator *)

Module SEL.

Import PayloadIPMI Framing Command Session SDR.

Definition selFirstID : Z := 0x0000.
Definition selLastID : Z := 0xffff.
Definition selRecordSize : Z := 16.

(** The response fields of [type GetSELInfoCommand struct]. *)
Record GetSELInfo : Type := {
  SELVersion : Z;
  Entries : Z;
  FreeSpace : Z;
  LastAddTime : Z;
  LastDelTime : Z;
  SupportFlags : Z
}.

Definition GetSELInfoCommand : Command GetSELInfo :=
  {| Name := "Get SEL Info";
     Code := 0x40;
     NetFnRsLUN := NewNetFnRsLUN NetFnStorageReq 0;
     Marshal := [];
     Unmarshal := fun buf =>
       match cmdValidateLength buf 14 with
       | Some e => Err e
       | None => Ok {| SELVersion := index buf 0;
                       Entries := le_uint16 (slice buf 1 3);
                       FreeSpace := le_uint16 (slice buf 3 5);
                       LastAddTime := le_uint32 (slice buf 5 9);
                       LastDelTime := le_uint32 (slice buf 9 13);
                       SupportFlags := index buf 13 |}
       end |}.

(** [type ReserveSELCommand struct]: the response is the reservation id. *)
Definition ReserveSELCommand : Command Z :=
  {| Name := "Reserve SEL";
     Code := 0x42;
     NetFnRsLUN := NewNetFnRsLUN NetFnStorageReq 0;
     Marshal := [];
     Unmarshal := fun buf =>
       match cmdValidateLength buf 2 with
       | Some e => Err e
       | None => Ok (le_uint16 buf)
       end |}.

(** The response fields of [type GetSELEntryCommand struct]. *)
Record GetSELEntry : Type := {
  NextRecordID : Z;
  RecordData : list Z
}.

(** [type GetSELEntryCommand struct]; its [Name()] is the string of the
    source. *)
Definition GetSELEntryCommand (ReservationID RecordID RecordOffset ReadBytes : Z)
  : Command GetSELEntry :=
  {| Name := "Get SDR";
     Code := 0x43;
     NetFnRsLUN := NewNetFnRsLUN NetFnStorageReq 0;
     Marshal := [byte ReservationID; byte (Z.shiftr ReservationID 8);
                 byte RecordID; byte (Z.shiftr RecordID 8);
                 byte RecordOffset; byte ReadBytes];
     Unmarshal := fun buf =>
       match cmdValidateLength buf 2 with
       | Some e => Err e
       | None =>
           let rest := from buf 2 in
           Ok {| NextRecordID := le_uint16 buf;
                 RecordData := if len rest <=? ReadBytes then rest
                               else slice rest 0 ReadBytes |}
       end |}.

(** [func (t SELType) IsTimestampedOEM() bool] and [IsNonTimestampedOEM]. *)
Definition IsTimestampedOEM (t : Z) : bool := (0xc0 <=? t) && (t <=? 0xdf).
Definition IsNonTimestampedOEM (t : Z) : bool := (0xe0 <=? t) && (t <=? 0xff).

(** The [SELRecord] interface with its three implementations: record id,
    record type and the 16 bytes of the record. *)
Inductive SELRecord : Type :=
| SELEventRecord (RecordID RecordType : Z) (data : list Z)
| SELTimestampedOEMRecord (RecordID RecordType : Z) (data : list Z)
| SELNonTimestampedOEMRecord (RecordID RecordType : Z) (data : list Z).

Definition SEL_ID (r : SELRecord) : Z :=
  match r with
  | SELEventRecord i _ _ | SELTimestampedOEMRecord i _ _
  | SELNonTimestampedOEMRecord i _ _ => i
  end.

(** The three [Unmarshal] methods: each refuses fewer than 16 bytes. *)
Definition SELRecord_Unmarshal
           (mk : Z -> Z -> list Z -> SELRecord) (what : string) (buf : list Z)
  : result SELRecord :=
  if len buf <? selRecordSize then Err (MessageError what)
  else Ok (mk (le_uint16 (slice buf 0 2)) (index buf 2) (slice buf 0 selRecordSize)).

Section Enumerator.

Variable World : Type.
Variable SendPacket : World -> sessionV2_0 -> ipmiPacket -> World * result response.
Variable openConnection : World -> sessionV2_0 -> World * sessionV2_0 * result unit.

Local Abbreviation Client_Execute := (Client_Execute World SendPacket openConnection).

(** [func selGetRecord(c *Client, reservation, id uint16)
    (record SELRecord, nextID uint16, err error)]: on success the record and
    the id of the next one. *)
Definition selGetRecord (reservation id : Z) : CM World (SELRecord * Z) :=
  fun st =>
    let (st1, r) := Client_Execute (GetSELEntryCommand reservation id 0x00 0xff) st in
    match r with
    | Ok gse =>
        if len (RecordData gse) <? 3 then
          (st1, Err (MessageError "Invalid SELRecord size"))
        else
          let t := index (RecordData gse) 2 in
          let parsed :=
            if IsTimestampedOEM t then
              SELRecord_Unmarshal SELTimestampedOEMRecord
                                  "Invalid SELTimestampedOEMRecord size" (RecordData gse)
            else if IsNonTimestampedOEM t then
              SELRecord_Unmarshal SELNonTimestampedOEMRecord
                                  "Invalid SELNonTimestampedOEMRecord size" (RecordData gse)
            else
              SELRecord_Unmarshal SELEventRecord
                                  "Invalid SELEventRecord size" (RecordData gse) in
          match parsed with
          | Ok record => (st1, Ok (record, NextRecordID gse))
          | Err e => (st1, Err e)
          | Panic what => (st1, Panic what)
          | OutOfFuel => (st1, OutOfFuel)
          end
    | Err e => (st1, Err e)
    | Panic what => (st1, Panic what)
    | OutOfFuel => (st1, OutOfFuel)
    end.

(** What [SELGetEntries] returns: [records], [total] and [err]
    ([Ok tt] for a nil error). *)
Definition entries : Type := (list SELRecord * Z * result unit)%type.

(** [for n, id := 0, roffset; n < num && id != selLastID; n++ { ... }] with
    [left] the iterations that [n < num] still allows. *)
Fixpoint collect (left : nat) (reservation id : Z) (records : list SELRecord)
  : CState World -> CState World * (list SELRecord * result unit) :=
  fun st =>
    match left with
    | O => (st, (records, Ok tt))
    | S left' =>
        if negb (id =? selLastID) then
          let (st1, r) := selGetRecord reservation id st in
          match r with
          | Ok (record, nextID) =>
              collect left' reservation nextID (records ++ [record]) st1
          | Err e => (st1, (records, Err e))
          | Panic what => (st1, (records, Panic what))
          | OutOfFuel => (st1, (records, OutOfFuel))
          end
        else (st, (records, Ok tt))
    end.

(** From [records = make([]SELRecord, 0, num)] to the end of [SELGetEntries]. *)
Definition reserve_and_collect (total num roffset : Z)
  : CState World -> CState World * entries :=
  fun st =>
    let (st1, r) := Client_Execute ReserveSELCommand st in
    match r with
    | Ok reservation =>
        let '(st2, (records, err)) :=
          collect (Z.to_nat num) reservation roffset [] st1 in
        match err with
        | Ok _ =>
            let l := len records in
            (st2, (if num <? l then from records (l - num) else records, total, Ok tt))
        | _ => (st2, (records, total, err))
        end
    | Err e => (st1, ([], total, Err e))
    | Panic what => (st1, ([], total, Panic what))
    | OutOfFuel => (st1, ([], total, OutOfFuel))
    end.

(** [func SELGetEntries(c *Client, offset, num int)
    (records []SELRecord, total int, err error)] *)
Definition SELGetEntries (offset num : Z) : CState World -> CState World * entries :=
  fun st =>
    let (st1, r) := Client_Execute GetSELInfoCommand st in
    match r with
    | Ok gsi =>
        let v := SELVersion gsi in
        if negb (v =? 0x51) && negb (v =? 0x02) then
          (st1, ([], 0, Err (MessageError "Unknown SEL version")))
        else
          let total := Entries gsi in
          if (total =? 0) || (num <=? 0) || (offset <? 0) || (total <=? offset) then
            (st1, ([], total, Ok tt))
          else
            let n := total - offset in
            let num := if n <? num then n else num in
            if 0 <? offset then
              let (st2, first) := selGetRecord 0x00 selFirstID st1 in
              match first with
              | Ok (r, n) =>
                  let delta := uint16 (n - SEL_ID r) in
                  let roffset := uint16 (delta * uint16 offset + SEL_ID r) in
                  reserve_and_collect total num roffset st2
              | Err _ => (st2, ([], total, Ok tt))
              | Panic what => (st2, ([], total, Panic what))
              | OutOfFuel => (st2, ([], total, OutOfFuel))
              end
            else reserve_and_collect total num selFirstID st1
    | Err e => (st1, ([], 0, Err e))
    | Panic what => (st1, ([], 0, Panic what))
    | OutOfFuel => (st1, ([], 0, OutOfFuel))
    end.

End Enumerator.

(** *** The window of [SELGetEntries] *)

Definition out_records (e : entries) : list SELRecord := fst (fst e).
Definition out_total (e : entries) : Z := snd (fst e).
Definition out_err (e : entries) : result unit := snd e.

(** The early-return condition of [SELGetEntries]. *)
Definition empty_window (total offset num : Z) : Prop :=
  total = 0 \/ num <= 0 \/ offset < 0 \/ total <= offset.

Section EnumeratorFacts.

Variable World : Type.
Variable SendPacket : World -> sessionV2_0 -> ipmiPacket -> World * result response.
Variable openConnection : World -> sessionV2_0 -> World * sessionV2_0 * result unit.

Local Abbreviation Client_Execute := (Client_Execute World SendPacket openConnection).
Local Abbreviation selGetRecord := (selGetRecord World SendPacket openConnection).
Local Abbreviation collect := (collect World SendPacket openConnection).
Local Abbreviation reserve_and_collect :=
  (reserve_and_collect World SendPacket openConnection).
Local Abbreviation SELGetEntries := (SELGetEntries World SendPacket openConnection).

Lemma collect_length (left : nat) :
  forall reservation id records st,
    (length (fst (snd (collect left reservation id records st)))
     <= length records + left)%nat.
Proof.
  induction left as [|left IH]; intros reservation id records st; simpl.
  - lia.
  - destruct (negb (id =? selLastID)); simpl; [|lia].
    destruct (selGetRecord reservation id st) as [st1 r].
    destruct r as [[record nextID] | e | what |]; simpl; try lia.
    specialize (IH reservation nextID (records ++ [record]) st1).
    rewrite length_app in IH. simpl in IH. lia.
Qed.

Lemma reserve_and_collect_window (total num roffset : Z) (st : CState World) :
  0 <= num ->
  out_total (snd (reserve_and_collect total num roffset st)) = total /\
  len (out_records (snd (reserve_and_collect total num roffset st))) <= num.
Proof.
  intro Hnum. unfold SEL.reserve_and_collect, out_total, out_records.
  destruct (Client_Execute ReserveSELCommand st) as [st1 r].
  destruct r as [reservation | e | what |]; simpl;
    try (split; [reflexivity | unfold len; simpl; lia]).
  pose proof (collect_length (Z.to_nat num) reservation roffset [] st1) as Hlen.
  destruct (collect (Z.to_nat num) reservation roffset [] st1) as [st2 [records err]].
  simpl in Hlen.
  assert (Hl : len records <= num) by (unfold len; lia).
  destruct err as [u | e | what |]; simpl; try (split; [reflexivity | assumption]).
  split; [reflexivity|].
  destruct (num <? len records) eqn:E; [apply Z.ltb_lt in E; lia | assumption].
Qed.

Lemma SELGetEntries_window_general (offset num : Z) (st st1 : CState World)
      (gsi : GetSELInfo) :
  Client_Execute GetSELInfoCommand st = (st1, Ok gsi) ->
  SELVersion gsi = 0x51 \/ SELVersion gsi = 0x02 ->
  out_total (snd (SELGetEntries offset num st)) = Entries gsi /\
  (empty_window (Entries gsi) offset num ->
   SELGetEntries offset num st = (st1, ([], Entries gsi, Ok tt))) /\
  (~ empty_window (Entries gsi) offset num ->
   len (out_records (snd (SELGetEntries offset num st)))
   <= Z.min num (Entries gsi - offset)).
Proof.
  intros He Hv. unfold SEL.SELGetEntries, empty_window. rewrite He.
  replace (negb (SELVersion gsi =? 81) && negb (SELVersion gsi =? 2)) with false
    by (destruct Hv as [-> | ->]; reflexivity).
  set (total := Entries gsi).
  destruct ((total =? 0) || (num <=? 0) || (offset <? 0) || (total <=? offset)) eqn:E.
  - split; [reflexivity | split; [reflexivity|]].
    intro Hn. exfalso. apply Hn.
    repeat (apply orb_true_iff in E; destruct E as [E | E]);
      [apply Z.eqb_eq in E | apply Z.leb_le in E | apply Z.ltb_lt in E
       | apply Z.leb_le in E]; lia.
  - repeat (apply orb_false_iff in E; destruct E as [E ?]).
    apply Z.eqb_neq in E.
    repeat match goal with
           | H : (_ <=? _) = false |- _ => apply Z.leb_gt in H
           | H : (_ <? _) = false |- _ => apply Z.ltb_ge in H
           end.
    set (num' := if total - offset <? num then total - offset else num).
    assert (Hnum' : 0 <= num' /\ num' <= Z.min num (total - offset)).
    { unfold num'. destruct (total - offset <? num) eqn:En;
        [apply Z.ltb_lt in En | apply Z.ltb_ge in En]; lia. }
    assert (Hgoal : forall roffset st0,
               out_total (snd (reserve_and_collect total num' roffset st0)) = total /\
               len (out_records (snd (reserve_and_collect total num' roffset st0)))
               <= Z.min num (total - offset)).
    { intros roffset st0.
      destruct (reserve_and_collect_window total num' roffset st0 (proj1 Hnum'))
        as [Ht Hl]. split; [exact Ht | lia]. }
    destruct (0 <? offset).
    + destruct (selGetRecord 0 selFirstID st1) as [st2 first].
      destruct first as [[r n] | e | what |]; simpl;
        try (split; [reflexivity | split; [intro; lia | intros _; unfold len; simpl; lia]]).
      destruct (Hgoal (uint16 (uint16 (n - SEL_ID r) * uint16 offset + SEL_ID r)) st2)
        as [Ht Hl].
      split; [exact Ht | split; [intro; lia | intros _; exact Hl]].
    + destruct (Hgoal selFirstID st1) as [Ht Hl].
      split; [exact Ht | split; [intro; lia | intros _; exact Hl]].
Qed.

End EnumeratorFacts.

(** A BMC that reports 100 SEL entries with ids 1 to 100. *)
Definition mock100 : MockBMC.BMC :=
  {| MockBMC.sdr_repo := []; MockBMC.sel_entries := 100;
     MockBMC.reservation := 0x100; MockBMC.get_sdr_calls := 0;
     MockBMC.cancel_at := 0; MockBMC.cancel_code := 0;
     MockBMC.read_limit := 255; MockBMC.requests := [] |}.

(** C8: with reported total T, [SELGetEntries] returns T as the total; when
    T = 0, num <= 0, offset < 0 or offset >= T it returns an empty record
    list (and a nil error) after the Get-SEL-Info exchange; otherwise it
    returns at most min(num, T - offset) records. Against a BMC with 100
    entries, offset 95 and num 10 give exactly the 5 records 96 to 100 and
    total 100. *)
Theorem SELGetEntries_window :
  (forall World SendPacket openConnection offset num st st1 gsi,
      Client_Execute World SendPacket openConnection GetSELInfoCommand st = (st1, Ok gsi) ->
      SELVersion gsi = 0x51 \/ SELVersion gsi = 0x02 ->
      let out := snd (SELGetEntries World SendPacket openConnection offset num st) in
      out_total out = Entries gsi /\
      (empty_window (Entries gsi) offset num ->
       out_records out = [] /\ out_err out = Ok tt) /\
      (~ empty_window (Entries gsi) offset num ->
       len (out_records out) <= Z.min num (Entries gsi - offset))) /\
  (let out := snd (SELGetEntries MockBMC.BMC MockBMC.bmc_SendPacket
                                 MockBMC.bmc_openConnection 95 10 (mock100, opened)) in
   map SEL_ID (out_records out) = [96; 97; 98; 99; 100] /\
   len (out_records out) = 5 /\ out_total out = 100 /\ out_err out = Ok tt).
Proof.
  split.
  - intros World SendPacket openConnection offset num st st1 gsi He Hv out.
    destruct (SELGetEntries_window_general World SendPacket openConnection
                offset num st st1 gsi He Hv) as (Ht & Hempty & Hwin).
    split; [exact Ht | split; [|exact Hwin]].
    intro H. unfold out. rewrite (Hempty H). split; reflexivity.
  - vm_compute. repeat split.
Qed.

(** Against the 100-entry BMC: offset 100 is out of range and gives the
    empty list; offset 95 with num 10 stays within min(10, 100 - 95). *)
Lemma SELGetEntries_window_witness :
  let run := fun offset num =>
    snd (SELGetEntries MockBMC.BMC MockBMC.bmc_SendPacket MockBMC.bmc_openConnection
                       offset num (mock100, opened)) in
  (out_records (run 100 3) = [] /\ out_total (run 100 3) = 100) /\
  len (out_records (run 95 10)) <= Z.min 10 (100 - 95).
Proof.
  intro run.
  pose (ex := Client_Execute MockBMC.BMC MockBMC.bmc_SendPacket MockBMC.bmc_openConnection
                             GetSELInfoCommand (mock100, opened)).
  pose (gsi := {| SELVersion := 0x51; Entries := 100; FreeSpace := 0;
                  LastAddTime := 0; LastDelTime := 0; SupportFlags := 0 |}).
  assert (He : ex = (fst ex, Ok gsi)) by (vm_compute; reflexivity).
  pose proof (proj1 SELGetEntries_window MockBMC.BMC MockBMC.bmc_SendPacket
                    MockBMC.bmc_openConnection) as H.
  split.
  - destruct (H 100 3 (mock100, opened) (fst ex) gsi He (or_introl eq_refl))
      as (Ht & Hempty & _).
    split; [|exact Ht].
    apply Hempty. unfold empty_window. simpl. lia.
  - destruct (H 95 10 (mock100, opened) (fst ex) gsi He (or_introl eq_refl))
      as (_ & _ & Hwin).
    apply Hwin. unfold empty_window. simpl. lia.
Defined.

End SEL.

(** * Further properties of the sources *)

(** ** Bytes: checking a property on every byte, little-endian words *)

Module Bytes.

Definition is_byte (b : Z) : Prop := 0 <= b < 256.

(** All values below [n], for checking a decidable property by evaluation. *)
Definition below (n : nat) : list Z := map Z.of_nat (seq 0 n).

(** [binary.LittleEndian.PutUint16] and [PutUint32]. *)
Definition le_put_uint16 (v : Z) : list Z := [byte v; byte (Z.shiftr v 8)].
Definition le_put_uint32 (v : Z) : list Z :=
  [byte v; byte (Z.shiftr v 8); byte (Z.shiftr v 16); byte (Z.shiftr v 24)].

(** [binary.BigEndian.PutUint32]. *)
Definition be_put_uint32 (v : Z) : list Z :=
  [byte (Z.shiftr v 24); byte (Z.shiftr v 16); byte (Z.shiftr v 8); byte v].

Lemma below_spec (P : Z -> bool) (n : nat) :
  forallb P (below n) = true -> forall z, 0 <= z < Z.of_nat n -> P z = true.
Proof.
  intros H z Hz. rewrite forallb_forall in H. apply H.
  unfold below. apply in_map_iff. exists (Z.to_nat z). split; [lia|].
  apply in_seq. lia.
Qed.

Lemma below_spec2 (P : Z -> Z -> bool) (n m : nat) :
  forallb (fun a => forallb (P a) (below m)) (below n) = true ->
  forall a b, 0 <= a < Z.of_nat n -> 0 <= b < Z.of_nat m -> P a b = true.
Proof.
  intros H a b Ha Hb.
  pose proof (below_spec _ n H a Ha) as H1. simpl in H1.
  exact (below_spec _ m H1 b Hb).
Qed.

Lemma byte_range (n : Z) : is_byte (byte n).
Proof. unfold is_byte, byte. apply Z.mod_pos_bound. lia. Qed.

Lemma byte_id (b : Z) : is_byte b -> byte b = b.
Proof. unfold is_byte, byte. intro H. apply Z.mod_small. exact H. Qed.

(** A value below [2^k] and a value shifted left by [k] have no common bit. *)
Lemma lor_shiftl_add (a b k : Z) :
  0 <= k -> 0 <= a < 2 ^ k -> Z.lor a (Z.shiftl b k) = a + b * 2 ^ k.
Proof.
  intros Hk Ha.
  assert (Hland : Z.land a (Z.shiftl b k) = 0).
  { apply Z.bits_inj'. intros n Hn. rewrite Z.land_spec, Z.bits_0.
    destruct (Z_lt_le_dec n k) as [Hlt | Hge].
    - rewrite Z.shiftl_spec_low by assumption. apply andb_false_r.
    - assert (Hbit : Z.testbit a n = false).
      { destruct (Z.eq_dec a 0) as [-> | Hne]; [apply Z.bits_0|].
        apply Z.bits_above_log2; [lia|].
        apply Z.lt_le_trans with k; [|assumption].
        apply Z.log2_lt_pow2; lia. }
      rewrite Hbit. reflexivity. }
  rewrite <- Z.lxor_lor by assumption.
  rewrite <- Z.add_nocarry_lxor by assumption.
  rewrite Z.shiftl_mul_pow2 by assumption. reflexivity.
Qed.

Lemma le_uint16_bytes (b0 b1 : Z) (rest : list Z) :
  is_byte b0 -> le_uint16 (b0 :: b1 :: rest) = b0 + b1 * 256.
Proof.
  intro H0. unfold le_uint16, index.
  change (Z.to_nat 0) with 0%nat. change (Z.to_nat 1) with 1%nat. cbn [nth].
  apply (lor_shiftl_add b0 b1 8); [lia | exact H0].
Qed.

Lemma le_uint32_bytes (b0 b1 b2 b3 : Z) (rest : list Z) :
  is_byte b0 -> is_byte b1 -> is_byte b2 ->
  le_uint32 (b0 :: b1 :: b2 :: b3 :: rest)
  = b0 + b1 * 256 + b2 * 65536 + b3 * 16777216.
Proof.
  unfold is_byte. intros H0 H1 H2. unfold le_uint32, index.
  change (Z.to_nat 0) with 0%nat. change (Z.to_nat 1) with 1%nat.
  change (Z.to_nat 2) with 2%nat. change (Z.to_nat 3) with 3%nat. cbn [nth].
  rewrite (lor_shiftl_add b0 b1 8) by lia.
  rewrite (lor_shiftl_add (b0 + b1 * 2 ^ 8) b2 16) by lia.
  rewrite (lor_shiftl_add (b0 + b1 * 2 ^ 8 + b2 * 2 ^ 16) b3 24) by lia.
  lia.
Qed.

Lemma be_uint32_bytes (b0 b1 b2 b3 : Z) (rest : list Z) :
  is_byte b1 -> is_byte b2 -> is_byte b3 ->
  be_uint32 (b0 :: b1 :: b2 :: b3 :: rest)
  = b3 + b2 * 256 + b1 * 65536 + b0 * 16777216.
Proof.
  unfold is_byte. intros H1 H2 H3. unfold be_uint32, index.
  change (Z.to_nat 0) with 0%nat. change (Z.to_nat 1) with 1%nat.
  change (Z.to_nat 2) with 2%nat. change (Z.to_nat 3) with 3%nat. cbn [nth].
  rewrite (lor_shiftl_add b3 b2 8) by lia.
  rewrite (lor_shiftl_add (b3 + b2 * 2 ^ 8) b1 16) by lia.
  rewrite (lor_shiftl_add (b3 + b2 * 2 ^ 8 + b1 * 2 ^ 16) b0 24) by lia.
  lia.
Qed.

Lemma le_uint16_put (v : Z) (rest : list Z) :
  0 <= v < 65536 -> le_uint16 (le_put_uint16 v ++ rest) = v.
Proof.
  intro Hv. unfold le_put_uint16. simpl app.
  rewrite le_uint16_bytes by apply byte_range.
  unfold byte. rewrite Z.shiftr_div_pow2 by lia.
  change (2 ^ 8) with 256. Z.div_mod_to_equations. lia.
Qed.

Lemma le_uint32_put (v : Z) (rest : list Z) :
  0 <= v < 4294967296 -> le_uint32 (le_put_uint32 v ++ rest) = v.
Proof.
  intro Hv. unfold le_put_uint32. simpl app.
  rewrite le_uint32_bytes by apply byte_range.
  unfold byte. rewrite !Z.shiftr_div_pow2 by lia.
  change (2 ^ 8) with 256. change (2 ^ 16) with 65536.
  change (2 ^ 24) with 16777216. Z.div_mod_to_equations. lia.
Qed.

Lemma be_uint32_put (v : Z) (rest : list Z) :
  0 <= v < 4294967296 -> be_uint32 (be_put_uint32 v ++ rest) = v.
Proof.
  intro Hv. unfold be_put_uint32. simpl app.
  rewrite be_uint32_bytes by apply byte_range.
  unfold byte. rewrite !Z.shiftr_div_pow2 by lia.
  change (2 ^ 8) with 256. change (2 ^ 16) with 65536.
  change (2 ^ 24) with 16777216. Z.div_mod_to_equations. lia.
Qed.

End Bytes.

(** ** payload_ipmi.go: the request message and the network function byte *)

Module RequestMessage.

Import PayloadIPMI Command Session Bytes.

(** [func (n NetFnRsLUN) NetFn() NetFn] and [RsLUN() uint8]. *)
Definition NetFn (n : Z) : Z := Z.shiftr (byte n) 2.
Definition RsLUN (n : Z) : Z := Z.land (byte n) 0x3.

(** [func (m *ipmiRequestMessage) Marshal() ([]byte, error)]: the buffer of
    [len(data)+7] bytes, written front to back. *)
Definition ipmiRequestMessage_Marshal (m : ipmiRequestMessage) : list Z :=
  let head := [req_RsAddr m; req_NetFnRsLUN m] in
  let body := [req_RqAddr m; req_RqSeq m; req_Code m] ++ req_Data m in
  head ++ [checksum head] ++ body ++ [checksum body].

Lemma checksum_eq_iff (buf : list Z) (c : Z) :
  is_byte c -> (checksum buf = c <-> (c + sum buf) mod 256 = 0).
Proof.
  intro Hc. split.
  - intros <-. apply checksum_law.
  - intro H. pose proof (checksum_law buf) as Hl.
    pose proof (checksum_range buf) as Hr. unfold is_byte in Hc.
    Z.div_mod_to_equations. lia.
Qed.

Lemma frame_body (a b c x : Z) (body : list Z) :
  let buf := a :: b :: c :: body ++ [x] in
  len buf = len body + 4 /\
  slice buf 3 (len buf - 1) = body /\
  index buf (len buf - 1) = x.
Proof.
  intro buf.
  assert (Hl : len buf = len body + 4).
  { unfold buf, len. simpl length. rewrite length_app. simpl length. lia. }
  split; [exact Hl | split].
  - unfold slice. rewrite Hl. unfold buf.
    change (Z.to_nat 3) with 3%nat. cbn [skipn].
    replace (Z.to_nat (len body + 4 - 1 - 3)) with (length body) by (unfold len; lia).
    apply Crypto.firstn_app_exact. reflexivity.
  - rewrite Hl. unfold buf, index.
    replace (Z.to_nat (len body + 4 - 1)) with (3 + length body)%nat by (unfold len; lia).
    cbn [nth Nat.add]. rewrite app_nth2 by lia. rewrite Nat.sub_diag. reflexivity.
Qed.

(** X1: a marshalled request has [len(data)+7] bytes and both of its
    checksums satisfy the checksum equation; handed to the response parser,
    whose layout has the completion code after the command byte, it is
    accepted and its first data byte is read as the completion code. *)
Theorem request_frame_checksums (m : ipmiRequestMessage) :
  let buf := ipmiRequestMessage_Marshal m in
  len buf = len (req_Data m) + 7 /\
  (index buf 2 + index buf 0 + index buf 1) mod 256 = 0 /\
  (index buf (len buf - 1) + sum (slice buf 3 (len buf - 1))) mod 256 = 0 /\
  (forall cc data,
      req_Data m = cc :: data ->
      ipmiResponseMessage_Unmarshal buf
      = Ok {| RqAddr := req_RsAddr m; NetFnRsRUN := req_NetFnRsLUN m;
              RsAddr := req_RqAddr m; RqSeq := req_RqSeq m;
              PayloadIPMI.Code := req_Code m; CompletionCode := cc;
              Data := data |}).
Proof.
  intro buf.
  set (head := [req_RsAddr m; req_NetFnRsLUN m]).
  set (body := [req_RqAddr m; req_RqSeq m; req_Code m] ++ req_Data m).
  assert (Hbuf : buf = req_RsAddr m :: req_NetFnRsLUN m :: checksum head
                                    :: body ++ [checksum body]) by reflexivity.
  destruct (frame_body (req_RsAddr m) (req_NetFnRsLUN m) (checksum head)
                       (checksum body) body) as (Hl & Hs & Hi).
  cbv zeta in Hl, Hs, Hi. rewrite <- Hbuf in Hl, Hs, Hi.
  assert (Hlb : len body = len (req_Data m) + 3).
  { unfold body. rewrite len_app.
    change (len [req_RqAddr m; req_RqSeq m; req_Code m]) with 3. lia. }
  assert (H1 : (index buf 2 + index buf 0 + index buf 1) mod 256 = 0).
  { rewrite Hbuf. unfold index. simpl nth.
    pose proof (checksum_law head) as H. unfold head in H at 2. simpl sum in H.
    etransitivity; [|exact H]. f_equal. lia. }
  assert (H2 : (index buf (len buf - 1) + sum (slice buf 3 (len buf - 1))) mod 256 = 0).
  { rewrite Hs, Hi. apply checksum_law. }
  split; [lia | split; [exact H1 | split; [exact H2|]]].
  intros cc data Hd.
  assert (Hld : len (req_Data m) = len data + 1).
  { rewrite Hd. unfold len. simpl length. lia. }
  pose proof (len_nonneg data) as Hn.
  unfold ipmiResponseMessage_Unmarshal, ipmiResponseMessageMinSize.
  replace (len buf <? 8) with false by (symmetry; apply Z.ltb_ge; lia).
  rewrite Hs, Hi.
  replace (slice buf 0 2) with head by (rewrite Hbuf; reflexivity).
  replace (index buf 2) with (checksum head) by (rewrite Hbuf; reflexivity).
  rewrite !Z.eqb_refl. simpl negb. cbv iota.
  assert (Hdata : slice buf 7 (len buf - 1) = data).
  { replace (len buf - 1) with (len data + 7) by lia.
    rewrite Hbuf. unfold body. rewrite Hd. unfold slice.
    change (Z.to_nat 7) with 7%nat. cbn [skipn app].
    replace (Z.to_nat (len data + 7 - 7)) with (length data) by (unfold len; lia).
    apply Crypto.firstn_app_exact. reflexivity. }
  rewrite Hdata. rewrite Hbuf. unfold body. rewrite Hd. reflexivity.
Qed.

(** X2: a buffer of bytes is accepted by the response parser exactly when
    it has at least 8 bytes and both checksum equations hold. The message is
    then made of the bytes 0, 1, 3, 4, 5 and 6 (requester address, network
    function and LUN, responder address, sequence number, command, completion
    code) and the bytes from 7 up to the last but one as data. A refusal is
    the message error of the first test that fails: the size, then the
    first checksum, then the second. *)
Theorem response_accepted_iff (buf : list Z) :
  Forall is_byte buf ->
  let first := (index buf 2 + index buf 0 + index buf 1) mod 256 = 0 in
  let second :=
    (index buf (len buf - 1) + sum (slice buf 3 (len buf - 1))) mod 256 = 0 in
  ((exists m, ipmiResponseMessage_Unmarshal buf = Ok m) <->
   (8 <= len buf /\ first /\ second)) /\
  (8 <= len buf -> first -> second ->
   ipmiResponseMessage_Unmarshal buf =
   Ok {| RqAddr := index buf 0; NetFnRsRUN := index buf 1;
         RsAddr := index buf 3; RqSeq := index buf 4;
         PayloadIPMI.Code := index buf 5; CompletionCode := index buf 6;
         Data := slice buf 7 (len buf - 1) |} /\
   len (slice buf 7 (len buf - 1)) = len buf - 8) /\
  (len buf < 8 ->
   ipmiResponseMessage_Unmarshal buf =
   Err (MessageError "Invalid IPMI response size")) /\
  (8 <= len buf -> ~ first ->
   ipmiResponseMessage_Unmarshal buf =
   Err (MessageError "Invalid IPMI response 1st checksum")) /\
  (8 <= len buf -> first -> ~ second ->
   ipmiResponseMessage_Unmarshal buf =
   Err (MessageError "Invalid IPMI response 2nd checksum")).
Proof.
  intros Hbytes first second.
  assert (Hidx : forall i, 0 <= i < len buf -> is_byte (index buf i)).
  { intros i Hi. rewrite Forall_forall in Hbytes. apply Hbytes.
    unfold index. apply nth_In. unfold len in Hi. lia. }
  assert (Hc1 : 8 <= len buf ->
                (checksum (slice buf 0 2) = index buf 2 <-> first)).
  { intro Hl. rewrite (checksum_eq_iff _ _ (Hidx 2 ltac:(lia))).
    rewrite slice_header by lia. simpl sum. unfold first.
    replace (index buf 2 + (index buf 0 + (index buf 1 + 0)))
      with (index buf 2 + index buf 0 + index buf 1) by lia. reflexivity. }
  assert (Hc2 : 8 <= len buf ->
                (checksum (slice buf 3 (len buf - 1)) = index buf (len buf - 1)
                 <-> second)).
  { intro Hl. apply checksum_eq_iff. apply Hidx. lia. }
  assert (Hsize : len buf < 8 ->
                  ipmiResponseMessage_Unmarshal buf =
                  Err (MessageError "Invalid IPMI response size")).
  { intro Hl. unfold ipmiResponseMessage_Unmarshal, ipmiResponseMessageMinSize.
    apply Z.ltb_lt in Hl. rewrite Hl. reflexivity. }
  assert (Hfirst : 8 <= len buf -> ~ first ->
                   ipmiResponseMessage_Unmarshal buf =
                   Err (MessageError "Invalid IPMI response 1st checksum")).
  { intros Hl Hn. unfold ipmiResponseMessage_Unmarshal, ipmiResponseMessageMinSize.
    replace (len buf <? 8) with false by (symmetry; apply Z.ltb_ge; exact Hl).
    replace (checksum (slice buf 0 2) =? index buf 2) with false; [reflexivity|].
    symmetry. apply Z.eqb_neq. intro E. apply Hn, (Hc1 Hl), E. }
  assert (Hsecond : 8 <= len buf -> first -> ~ second ->
                    ipmiResponseMessage_Unmarshal buf =
                    Err (MessageError "Invalid IPMI response 2nd checksum")).
  { intros Hl H1 Hn. unfold ipmiResponseMessage_Unmarshal, ipmiResponseMessageMinSize.
    replace (len buf <? 8) with false by (symmetry; apply Z.ltb_ge; exact Hl).
    replace (checksum (slice buf 0 2) =? index buf 2) with true
      by (symmetry; apply Z.eqb_eq, (Hc1 Hl), H1).
    replace (checksum (slice buf 3 (len buf - 1)) =? index buf (len buf - 1))
      with false; [reflexivity|].
    symmetry. apply Z.eqb_neq. intro E. apply Hn, (Hc2 Hl), E. }
  assert (Hok : 8 <= len buf -> first -> second ->
                ipmiResponseMessage_Unmarshal buf =
                Ok {| RqAddr := index buf 0; NetFnRsRUN := index buf 1;
                      RsAddr := index buf 3; RqSeq := index buf 4;
                      PayloadIPMI.Code := index buf 5;
                      CompletionCode := index buf 6;
                      Data := slice buf 7 (len buf - 1) |}).
  { intros Hl H1 H2. unfold ipmiResponseMessage_Unmarshal, ipmiResponseMessageMinSize.
    replace (len buf <? 8) with false by (symmetry; apply Z.ltb_ge; exact Hl).
    replace (checksum (slice buf 0 2) =? index buf 2) with true
      by (symmetry; apply Z.eqb_eq, (Hc1 Hl), H1).
    replace (checksum (slice buf 3 (len buf - 1)) =? index buf (len buf - 1))
      with true by (symmetry; apply Z.eqb_eq, (Hc2 Hl), H2).
    reflexivity. }
  split; [|split; [|split; [|split]]]; try assumption.
  - split.
    + intros [m Hm].
      destruct (Z_lt_le_dec (len buf) 8) as [Hl | Hl];
        [rewrite (Hsize Hl) in Hm; discriminate Hm|].
      assert (H1 : first).
      { unfold first. destruct (Z.eq_dec
          ((index buf 2 + index buf 0 + index buf 1) mod 256) 0) as [E | E];
          [exact E|]. rewrite (Hfirst Hl E) in Hm. discriminate Hm. }
      assert (H2 : second).
      { unfold second. destruct (Z.eq_dec
          ((index buf (len buf - 1) + sum (slice buf 3 (len buf - 1))) mod 256) 0)
          as [E | E]; [exact E|]. rewrite (Hsecond Hl H1 E) in Hm. discriminate Hm. }
      split; [exact Hl | split; assumption].
    + intros (Hl & H1 & H2). eexists. apply Hok; assumption.
  - intros Hl H1 H2. split; [apply Hok; assumption|].
    unfold slice, len. rewrite length_firstn, length_skipn.
    unfold len in Hl. lia.
Qed.

(** A Get-Device-ID style reply with a correct frame. *)
Lemma response_accepted_iff_witness :
  ipmiResponseMessage_Unmarshal [0x81; 0x1c; 0x63; 0x20; 0x00; 0x01; 0x00; 0xdf]
  = Ok {| RqAddr := 0x81; NetFnRsRUN := 0x1c; RsAddr := 0x20; RqSeq := 0x00;
          PayloadIPMI.Code := 0x01; CompletionCode := 0x00; Data := [] |}.
Proof.
  assert (Hb : Forall is_byte [0x81; 0x1c; 0x63; 0x20; 0x00; 0x01; 0x00; 0xdf])
    by (repeat constructor; unfold is_byte; lia).
  destruct (response_accepted_iff _ Hb) as (_ & Hok & _).
  destruct Hok as [Hm _]; [vm_compute; discriminate | reflexivity | reflexivity |].
  exact Hm.
Defined.

(** X3: the network function survives the packing into one byte when it is
    below 64 (it is cut to its low 6 bits otherwise), and the LUN keeps its
    low 2 bits. *)
Theorem NetFnRsLUN_roundtrip (netFn rsLUN : Z) :
  is_byte netFn -> is_byte rsLUN ->
  is_byte (NewNetFnRsLUN netFn rsLUN) /\
  NetFn (NewNetFnRsLUN netFn rsLUN) = netFn mod 64 /\
  RsLUN (NewNetFnRsLUN netFn rsLUN) = rsLUN mod 4 /\
  (netFn < 64 -> NetFn (NewNetFnRsLUN netFn rsLUN) = netFn).
Proof.
  intros Hn Hl.
  pose (P := fun a b =>
               let n := NewNetFnRsLUN a b in
               (0 <=? n) && (n <? 256) && (NetFn n =? a mod 64) && (RsLUN n =? b mod 4)).
  assert (H : P netFn rsLUN = true).
  { apply (below_spec2 P 256 256); [vm_compute; reflexivity | exact Hn | exact Hl]. }
  unfold P in H. cbv zeta in H.
  repeat (apply andb_true_iff in H; destruct H as [H ?]).
  apply Z.leb_le in H. apply Z.ltb_lt in H2. apply Z.eqb_eq in H1, H0.
  unfold is_byte. repeat split; try assumption.
  intro Hlt. rewrite H1. apply Z.mod_small. unfold is_byte in Hn. lia.
Qed.

(** The storage request function (0x0a) with LUN 0 is the byte 0x28. *)
Lemma NetFnRsLUN_roundtrip_witness :
  NewNetFnRsLUN NetFnStorageReq 0 = 0x28 /\
  NetFn (NewNetFnRsLUN NetFnStorageReq 0) = NetFnStorageReq.
Proof.
  split; [reflexivity|].
  apply (NetFnRsLUN_roundtrip NetFnStorageReq 0); unfold is_byte, NetFnStorageReq; lia.
Defined.

End RequestMessage.

(** ** session.go: payload type flags *)

Module PayloadType.

Import Bytes.

(** [func (p payloadType) Pure() payloadType] *)
Definition Pure (p : Z) : Z := Z.land (byte p) 0x3f.

(** [func (p *payloadType) SetEncrypted(b bool)] *)
Definition SetEncrypted (b : bool) (p : Z) : Z :=
  if b then Z.lor (byte p) 0x80 else Z.land (byte p) 0x7f.

(** [func (p payloadType) Encrypted() bool] *)
Definition Encrypted (p : Z) : bool := negb (Z.land p 0x80 =? 0).

(** [func (p *payloadType) SetAuthenticated(b bool)] *)
Definition SetAuthenticated (b : bool) (p : Z) : Z :=
  if b then Z.lor (byte p) 0x40 else Z.land (byte p) 0xbf.

(** [func (p payloadType) Authenticated() bool] *)
Definition Authenticated (p : Z) : bool := negb (Z.land p 0x40 =? 0).

Definition flags_ok (p : Z) : bool :=
  forallb (fun e =>
    forallb (fun a =>
      let q := SetAuthenticated a (SetEncrypted e p) in
      (0 <=? q) && (q <? 256)
      && Bool.eqb (Encrypted q) e && Bool.eqb (Authenticated q) a
      && (Pure q =? Pure p)
      && Bool.eqb (Encrypted (SetAuthenticated a p)) (Encrypted p)
      && Bool.eqb (Authenticated (SetEncrypted e p)) (Authenticated p)
      && (SetEncrypted e (SetAuthenticated a p) =? q)
      && (SetEncrypted (Encrypted p) (SetAuthenticated (Authenticated p) (Pure p)) =? p))
      [true; false])
    [true; false].

(** X4: on a payload-type byte the two flags are independent of each
    other and of the payload type proper: setting them in either order gives
    the same byte, each getter returns what its setter stored, [Pure] is not
    affected, and the byte is its pure type with its two flags. *)
Theorem payloadType_flags (p : Z) (e a : bool) :
  is_byte p ->
  let q := SetAuthenticated a (SetEncrypted e p) in
  is_byte q /\
  Encrypted q = e /\ Authenticated q = a /\ Pure q = Pure p /\
  Encrypted (SetAuthenticated a p) = Encrypted p /\
  Authenticated (SetEncrypted e p) = Authenticated p /\
  SetEncrypted e (SetAuthenticated a p) = q /\
  SetEncrypted (Encrypted p) (SetAuthenticated (Authenticated p) (Pure p)) = p.
Proof.
  intros Hp q.
  assert (H : flags_ok p = true)
    by (apply (below_spec flags_ok 256); [vm_compute; reflexivity | exact Hp]).
  unfold flags_ok in H. rewrite forallb_forall in H.
  assert (He : In e [true; false]) by (destruct e; simpl; tauto).
  specialize (H e He). rewrite forallb_forall in H.
  assert (Ha : In a [true; false]) by (destruct a; simpl; tauto).
  specialize (H a Ha). cbv zeta in H. fold q in H.
  repeat (apply andb_true_iff in H; destruct H as [H ?]).
  apply Z.leb_le in H.
  repeat match goal with
         | X : (_ <? _) = true |- _ => apply Z.ltb_lt in X
         | X : (_ =? _) = true |- _ => apply Z.eqb_eq in X
         | X : Bool.eqb _ _ = true |- _ => apply Bool.eqb_prop in X
         end.
  unfold is_byte. repeat split; assumption.
Qed.

(** An RAKP 2 payload type (0x13) with both flags set is 0xd3. *)
Lemma payloadType_flags_witness :
  SetAuthenticated true (SetEncrypted true 0x13) = 0xd3 /\
  Pure (SetAuthenticated true (SetEncrypted true 0x13)) = Pure 0x13.
Proof.
  split; [reflexivity|].
  apply (payloadType_flags 0x13 true true). unfold is_byte. lia.
Defined.

End PayloadType.

(** ** util.go and command_message.go: retries and the command exchange *)

Module Exchange.

Import PayloadIPMI Framing Command Session Bytes.

(** [n] successive calls of [NextRqSeq]: the values returned and the
    session after the last call. *)
Fixpoint issue (n : nat) (s : sessionV2_0) : list Z * sessionV2_0 :=
  match n with
  | O => ([], s)
  | S n' =>
      let (v, s1) := NextRqSeq s in
      let (vs, s2) := issue n' s1 in
      (v :: vs, s2)
  end.

Lemma NextRqSeq_step (s : sessionV2_0) :
  0 <= rqSeq s < 64 ->
  fst (NextRqSeq s) = 4 * rqSeq s /\
  rqSeq (snd (NextRqSeq s)) = (rqSeq s + 1) mod 64 /\
  0 <= rqSeq (snd (NextRqSeq s)) < 64.
Proof.
  intro H. unfold NextRqSeq. cbv zeta. cbn [fst snd].
  unfold set_rqSeq. cbn [rqSeq].
  assert (Hb : byte (rqSeq s + 1) = rqSeq s + 1)
    by (unfold byte; apply Z.mod_small; lia).
  rewrite Hb. rewrite Z.shiftl_mul_pow2 by lia. change (2 ^ 2) with 4.
  unfold byte. rewrite (Z.mod_small (rqSeq s * 4) 256) by lia.
  destruct (64 <=? rqSeq s + 1) eqn:E;
    [apply Z.leb_le in E | apply Z.leb_gt in E].
  - replace (rqSeq s + 1) with 64 by lia.
    change (64 mod 64) with 0. repeat split; lia.
  - rewrite Z.mod_small by lia. repeat split; lia.
Qed.

(** X5: the command sequence number counts modulo 64 and is sent in the
    upper six bits: from a counter below 64, [n] consecutive calls return
    [4 * ((rqSeq + i) mod 64)] for [i = 0 .. n-1], so 65 commands of a
    fresh session see 0, 4, ..., 252 and then 0 again. *)
Theorem NextRqSeq_rollover (n : nat) :
  forall s, 0 <= rqSeq s < 64 ->
            fst (issue n s)
            = map (fun i => 4 * ((rqSeq s + Z.of_nat i) mod 64)) (seq 0 n) /\
            rqSeq (snd (issue n s)) = (rqSeq s + Z.of_nat n) mod 64.
Proof.
  induction n as [|n IH]; intros s Hs.
  - simpl. split; [reflexivity|]. rewrite Z.add_0_r, Z.mod_small by lia. reflexivity.
  - destruct (NextRqSeq_step s Hs) as (Hv & Hn & Hr).
    cbn [issue]. destruct (NextRqSeq s) as [v s1]. simpl in Hv, Hn, Hr.
    destruct (IH s1 Hr) as [IH1 IH2].
    destruct (issue n s1) as [vs s2]. simpl in IH1, IH2. simpl fst. simpl snd.
    split.
    + cbn [seq map]. f_equal.
      * rewrite Hv, Z.add_0_r, Z.mod_small by lia. reflexivity.
      * rewrite IH1, <- seq_shift, map_map. apply map_ext. intro i.
        rewrite Hn. rewrite Zplus_mod_idemp_l.
        replace (rqSeq s + 1 + Z.of_nat i) with (rqSeq s + Z.of_nat (S i)) by lia.
        reflexivity.
    + rewrite IH2, Hn, Zplus_mod_idemp_l.
      replace (rqSeq s + 1 + Z.of_nat n) with (rqSeq s + Z.of_nat (S n)) by lia.
      reflexivity.
Qed.

(** The 65th request of a fresh session carries sequence 0 again. *)
Lemma NextRqSeq_rollover_witness :
  let s := newSessionV2_0 {| Retries := 0; PrivilegeLevel := 4; CipherSuiteID := 0 |} in
  nth 63 (fst (issue 65 s)) 0 = 252 /\ nth 64 (fst (issue 65 s)) 1 = 0.
Proof.
  intro s.
  destruct (NextRqSeq_rollover 65 s) as [H _]; [simpl; lia|].
  rewrite H. split; reflexivity.
Defined.

(** *** retry *)

Section RetryFacts.

Variable World : Type.
Variable A : Type.
Variable f : M World A.

Definition timed_out (r : result A) : bool :=
  match r with
  | Err (NetError true) => true
  | _ => false
  end.

(** The state after [k] consecutive calls of [f], and what call number [k]
    (counted from 0) returns. *)
Fixpoint after (k : nat) (st : State World) : State World :=
  match k with
  | O => st
  | S k' => after k' (fst (f st))
  end.

Definition outcome (k : nat) (st : State World) : result A :=
  snd (f (after k st)).

Lemma timed_out_true (r : result A) :
  timed_out r = true -> r = Err (NetError true).
Proof.
  destruct r as [a | [ | | | [|] | ] | |]; try discriminate. reflexivity.
Qed.

Lemma after_succ (k : nat) (st : State World) :
  after (S k) st = fst (f (after k st)).
Proof.
  revert st. induction k as [|k IH]; intro st; [reflexivity|].
  change (after (S (S k)) st) with (after (S k) (fst (f st))).
  rewrite IH. reflexivity.
Qed.

Lemma retry_loop_first (k : nat) :
  forall n last st,
    (k < n)%nat ->
    (forall j, (j < k)%nat -> timed_out (outcome j st) = true) ->
    timed_out (outcome k st) = false ->
    retry_loop World n f last st = (after (S k) st, Some (outcome k st)).
Proof.
  induction k as [|k IH]; intros n last st Hn Hbefore Hk;
    (destruct n as [|n]; [lia|]); cbn [retry_loop].
  - unfold outcome in Hk. cbn [after] in *.
    destruct (f st) as [st' r] eqn:E. cbn [fst snd] in *.
    unfold outcome. cbn [after]. rewrite E. cbn [snd].
    destruct r as [a | [ | | | [|] | ] | |]; try reflexivity. discriminate.
  - pose proof (Hbefore 0%nat ltac:(lia)) as H0. unfold outcome in H0.
    cbn [after] in H0. apply timed_out_true in H0.
    destruct (f st) as [st' r] eqn:E. cbn [snd] in H0. subst r.
    rewrite (IH n (Some (Err (NetError true))) st').
    + unfold outcome. cbn [after]. rewrite E. reflexivity.
    + lia.
    + intros j Hj. specialize (Hbefore (S j) ltac:(lia)).
      unfold outcome in *. cbn [after] in Hbefore. rewrite E in Hbefore.
      exact Hbefore.
    + unfold outcome in *. cbn [after] in Hk. rewrite E in Hk. exact Hk.
Qed.

Lemma retry_loop_exhausted (n : nat) :
  forall last st,
    (forall j, (j < n)%nat -> timed_out (outcome j st) = true) ->
    retry_loop World n f last st =
    (after n st, match n with
                 | O => last
                 | S _ => Some (Err (NetError true))
                 end).
Proof.
  induction n as [|n IH]; intros last st Hall; cbn [retry_loop]; [reflexivity|].
  pose proof (Hall 0%nat ltac:(lia)) as H0. unfold outcome in H0.
  cbn [after] in H0. apply timed_out_true in H0.
  destruct (f st) as [st' r] eqn:E. cbn [snd] in H0. subst r.
  rewrite (IH (Some (Err (NetError true))) st').
  - cbn [after]. rewrite E. destruct n; reflexivity.
  - intros j Hj. specialize (Hall (S j) ltac:(lia)).
    unfold outcome in *. cbn [after] in Hall. rewrite E in Hall. exact Hall.
Qed.

Lemma retry_negative (retries : Z) (st : State World) :
  retries < 0 -> retry World retries f st = (st, None).
Proof.
  intro H. unfold retry. cbv zeta.
  replace (Z.to_nat (retries + 1)) with 0%nat by lia. cbn [retry_loop snd fst].
  destruct (retries =? MaxInt64); reflexivity.
Qed.

Lemma retry_first (retries : Z) (k : nat) (st : State World) :
  Z.of_nat k <= retries ->
  (forall j, (j < k)%nat -> timed_out (outcome j st) = true) ->
  timed_out (outcome k st) = false ->
  retry World retries f st = (after (S k) st, Some (outcome k st)).
Proof.
  intros Hk Hbefore Hlast. unfold retry. cbv zeta.
  rewrite (retry_loop_first k) by (assumption || lia). cbn [fst snd].
  destruct (retries =? MaxInt64); [|reflexivity].
  destruct (outcome k st) as [a | [ | | | [|] | ] | |]; try reflexivity.
  discriminate.
Qed.

Lemma retry_exhausted (retries : Z) (st : State World) :
  0 <= retries ->
  (forall j, Z.of_nat j <= retries -> timed_out (outcome j st) = true) ->
  retry World retries f st =
  (after (Z.to_nat (retries + 1)) st,
   Some (if retries =? MaxInt64 then OutOfFuel else Err (NetError true))).
Proof.
  intros H0 Hall. unfold retry. cbv zeta.
  rewrite retry_loop_exhausted by (intros j Hj; apply Hall; lia).
  cbn [fst snd].
  destruct (Z.to_nat (retries + 1)) eqn:E; [lia|].
  destruct (retries =? MaxInt64); reflexivity.
Qed.

(** X6: [retry] with a negative count does not call [f] and returns nil.
    Otherwise it returns what the first call that does not time out
    returns, and has made exactly the calls up to that one: a call after a
    timeout is made only while the count allows it, and no call follows an
    outcome that is not a timeout. When all [retries + 1] calls time out, it
    has made exactly these and returns the timeout (with the count at
    [MaxInt64] the loop would go on). *)
Theorem retry_attempts (retries : Z) (st : State World) :
  (retries < 0 -> retry World retries f st = (st, None)) /\
  (forall k,
      Z.of_nat k <= retries ->
      (forall j, (j < k)%nat -> timed_out (outcome j st) = true) ->
      timed_out (outcome k st) = false ->
      retry World retries f st = (after (S k) st, Some (outcome k st))) /\
  (0 <= retries ->
   (forall j, Z.of_nat j <= retries -> timed_out (outcome j st) = true) ->
   retry World retries f st =
   (after (Z.to_nat (retries + 1)) st,
    Some (if retries =? MaxInt64 then OutOfFuel else Err (NetError true)))).
Proof.
  split; [|split].
  - apply retry_negative.
  - intro k. apply retry_first.
  - apply retry_exhausted.
Qed.

End RetryFacts.

(** *** execute against a peer that is silent for a while *)

Definition timeouts (k : nat) : list (result response) :=
  repeat (Err (NetError true)) k.

Lemma script_attempt {R : Type} (cmd : Command R) (w : ScriptWorld)
      (s : sessionV2_0) (r : result response) (rest : list (result response)) :
  replies w = r :: rest ->
  exists w' s',
    attempt ScriptWorld script_SendPacket cmd (w, s) = ((w', s'), r) /\
    replies w' = rest /\ length (sent w') = S (length (sent w)).
Proof.
  intro Hw. unfold attempt, Header.
  destruct (NextSequence s) as [n s1]. destruct (NextRqSeq s1) as [rq s2].
  unfold script_SendPacket. rewrite Hw.
  eexists; eexists. split; [reflexivity|]. simpl.
  split; [reflexivity|]. rewrite length_app. simpl. lia.
Qed.

Local Abbreviation script_after cmd :=
  (after ScriptWorld response (attempt ScriptWorld script_SendPacket cmd)).
Local Abbreviation script_outcome cmd :=
  (outcome ScriptWorld response (attempt ScriptWorld script_SendPacket cmd)).

Lemma script_after_spec {R : Type} (cmd : Command R) (pre : list (result response)) :
  forall w s rest,
    replies w = pre ++ rest ->
    replies (fst (script_after cmd (length pre) (w, s))) = rest /\
    length (sent (fst (script_after cmd (length pre) (w, s))))
    = (length (sent w) + length pre)%nat.
Proof.
  induction pre as [|r pre IH]; intros w s rest Hw; cbn [length after].
  - cbn [fst]. split; [exact Hw | lia].
  - destruct (script_attempt cmd w s r (pre ++ rest) Hw) as (w1 & s1 & Ha & Hr & Hl).
    rewrite Ha. cbn [fst]. destruct (IH w1 s1 rest Hr) as [H1 H2].
    split; [exact H1 | lia].
Qed.

Lemma script_outcome_spec {R : Type} (cmd : Command R)
      (pre : list (result response)) (r : result response)
      (rest : list (result response)) (w : ScriptWorld) (s : sessionV2_0) :
  replies w = pre ++ r :: rest ->
  script_outcome cmd (length pre) (w, s) = r.
Proof.
  intro Hw. unfold outcome.
  destruct (script_after_spec cmd pre w s (r :: rest) Hw) as [H1 _].
  destruct (script_after cmd (length pre) (w, s)) as [w1 s1]. cbn [fst] in H1.
  destruct (script_attempt cmd w1 s1 r rest H1) as (w2 & s2 & Ha & _).
  rewrite Ha. reflexivity.
Qed.

Lemma timeouts_split (j k : nat) :
  (j < k)%nat ->
  timeouts k = timeouts j ++ Err (NetError true) :: timeouts (k - j - 1).
Proof.
  intro H. unfold timeouts.
  replace k with (j + S (k - j - 1))%nat at 1 by lia.
  rewrite repeat_app. reflexivity.
Qed.

Lemma script_timeouts {R : Type} (cmd : Command R) (k j : nat)
      (rest : list (result response)) (w : ScriptWorld) (s : sessionV2_0) :
  replies w = timeouts k ++ rest -> (j < k)%nat ->
  timed_out response (script_outcome cmd j (w, s)) = true.
Proof.
  intros Hw Hj. rewrite (timeouts_split j k Hj), <- app_assoc in Hw.
  cbn [app] in Hw.
  pose proof (script_outcome_spec cmd (timeouts j) _ _ w s Hw) as H.
  unfold timeouts in H at 1. rewrite repeat_length in H. rewrite H. reflexivity.
Qed.

(** X7: when the peer lets [k] requests time out and then answers with
    completion code [cc], [execute] with a retry count of at least [k]
    makes exactly [k + 1] requests and returns the decoded response for
    [cc = 0] and a command error carrying exactly [cc] otherwise; when the
    peer lets all [Retries + 1] requests time out, [execute] gives up after
    these with the timeout. The count is [int(s.args.Retries)]: for
    [Retries] from 2^63 on it is negative, no request is sent and [execute]
    panics on the nil packet. *)
Theorem execute_after_timeouts {R : Type} (cmd : Command R) (k : nat)
        (cc : Z) (data : list Z) (rest : list (result response))
        (w : ScriptWorld) (s : sessionV2_0) :
  (replies w = timeouts k ++ reply cc data :: rest ->
   Z.of_nat k <= int (Retries (args s)) ->
   let out := execute ScriptWorld script_SendPacket cmd (w, s) in
   snd out = (if cc =? CompletionOK then Unmarshal cmd data
              else Err (CommandError cc (Name cmd))) /\
   replies (fst (fst out)) = rest /\
   length (sent (fst (fst out))) = (length (sent w) + k + 1)%nat) /\
  (0 <= int (Retries (args s)) < MaxInt64 ->
   replies w = timeouts (Z.to_nat (int (Retries (args s)) + 1)) ++ rest ->
   let out := execute ScriptWorld script_SendPacket cmd (w, s) in
   snd out = Err (NetError true) /\
   replies (fst (fst out)) = rest /\
   Z.of_nat (length (sent (fst (fst out))))
   = Z.of_nat (length (sent w)) + int (Retries (args s)) + 1) /\
  (int (Retries (args s)) < 0 ->
   execute ScriptWorld script_SendPacket cmd (w, s)
   = ((w, s), Panic "invalid memory address or nil pointer dereference")).
Proof.
  split; [|split].
  - intros Hw Hk out. unfold out, execute. cbn [snd].
    assert (Hout : script_outcome cmd k (w, s) = reply cc data).
    { pose proof (script_outcome_spec cmd (timeouts k) (reply cc data) rest w s Hw)
        as H.
      unfold timeouts in H at 1. rewrite repeat_length in H. exact H. }
    rewrite (retry_first ScriptWorld response _ _ k).
    + rewrite Hout.
      assert (Hpre : replies w = (timeouts k ++ [reply cc data]) ++ rest)
        by (rewrite <- app_assoc; exact Hw).
      destruct (script_after_spec cmd _ w s rest Hpre) as [H1 H2].
      replace (length (timeouts k ++ [reply cc data])) with (S k) in H1, H2
        by (rewrite length_app; unfold timeouts; rewrite repeat_length;
            cbn [length]; lia).
      unfold reply. cbn [CompletionCode Data].
      destruct (cc =? CompletionOK); cbn [negb fst snd];
        (split; [reflexivity | split; [exact H1 | lia]]).
    + exact Hk.
    + intros j Hj. apply (script_timeouts cmd k j (reply cc data :: rest)); assumption.
    + rewrite Hout. reflexivity.
  - intros [Hlo Hhi] Hw out. unfold out, execute. cbn [snd].
    rewrite (retry_exhausted ScriptWorld response).
    + replace (int (Retries (args s)) =? MaxInt64) with false
        by (symmetry; apply Z.eqb_neq; lia).
      destruct (script_after_spec cmd _ w s rest Hw) as [H1 H2].
      unfold timeouts in H1, H2. rewrite repeat_length in H1, H2.
      cbn [fst snd]. split; [reflexivity | split; [exact H1 | lia]].
    + exact Hlo.
    + intros j Hj. apply (script_timeouts cmd _ j rest w s Hw). lia.
  - intro Hneg. unfold execute. cbn [snd].
    rewrite (retry_negative ScriptWorld response) by exact Hneg. reflexivity.
Qed.

(** Two retries, one timeout, then an answer: [retry] returns the answer
    after two requests, the third is not made. *)
Lemma retry_attempts_witness :
  let cmd := newCloseSessionCommand 1 in
  let out := retry ScriptWorld 2 (attempt ScriptWorld script_SendPacket cmd)
                   (peer [Err (NetError true); reply 0 []; reply 0xc9 []],
                    established) in
  snd out = Some (reply 0 []) /\
  length (sent (fst (fst out))) = 2%nat /\
  replies (fst (fst out)) = [reply 0xc9 []].
Proof.
  intros cmd out.
  destruct (retry_attempts ScriptWorld response
              (attempt ScriptWorld script_SendPacket cmd) 2
              (peer [Err (NetError true); reply 0 []; reply 0xc9 []], established))
    as (_ & H & _).
  unfold out. rewrite (H 1%nat).
  - repeat split.
  - lia.
  - intros j Hj. destruct j; [reflexivity | lia].
  - reflexivity.
Defined.

(** One retry, one timeout, then completion code 0xC9: two requests and a
    command error with 0xC9. With [Retries] at 2^63 nothing is sent and
    [execute] panics. *)
Lemma execute_after_timeouts_witness :
  let session r := {| conn := true;
                      args := {| Retries := r; PrivilegeLevel := 4;
                                 CipherSuiteID := 0 |};
                      id := 7; sequence := 1; rqSeq := 0; k1 := []; k2 := [] |} in
  let w := peer [Err (NetError true); reply 0xc9 []] in
  let out := execute ScriptWorld script_SendPacket (newCloseSessionCommand 7)
                     (w, session 1) in
  (snd out = Err (CommandError 0xc9 "Close Session") /\
   length (sent (fst (fst out))) = 2%nat) /\
  execute ScriptWorld script_SendPacket (newCloseSessionCommand 7)
          (w, session 9223372036854775808)
  = ((w, session 9223372036854775808),
     Panic "invalid memory address or nil pointer dereference").
Proof.
  intros session w out. split.
  - destruct (proj1 (execute_after_timeouts (newCloseSessionCommand 7) 1 0xc9 [] []
                       w (session 1))
                    eq_refl ltac:(unfold int; simpl; lia)) as (Hres & _ & Hlen).
    split; [exact Hres | exact Hlen].
  - apply (proj2 (proj2 (execute_after_timeouts (newCloseSessionCommand 7) 0 0 [] []
                           w (session 9223372036854775808)))).
    vm_compute. reflexivity.
Defined.

End Exchange.

(** ** client.go and payload_session.go: arguments and cipher suites *)

Module CipherSuites.

Import PayloadSession Bytes.

Definition V1_5 : Z := 1.
Definition V2_0 : Z := 2.
Definition PrivilegeAdministrator : Z := 4.

(** Modelled from the spec: the constants [passwordMaxLengthV2_0] and
    [userNameMaxLength] are declared outside the given sources; section 3
    gives username <= 16 bytes and password <= 20 bytes for v2.0. *)
Definition passwordMaxLengthV2_0 : Z := 20.
Definition userNameMaxLength : Z := 16.

(** [var cipherSuiteIDs []cipherSuite] (Table 22-20), with the algorithm
    numbers of the three [iota] blocks. *)
Definition suite (a i c : Z) : cipherSuite :=
  {| Auth := a; Integrity := i; Crypt := c |}.
Definition cipherSuiteIDs : list cipherSuite :=
  [ suite 0 0 0; suite 1 0 0; suite 1 1 0; suite 1 1 1; suite 1 1 2;
    suite 1 1 3; suite 2 0 0; suite 2 2 0; suite 2 2 1; suite 2 2 2;
    suite 2 2 3; suite 2 3 0; suite 2 3 1; suite 2 3 2; suite 2 3 3 ].

(** The shape shared by [requiredAuthentication], [requiredIntegrity] and
    [requiredConfidentiality]: index the table, 0 is "none", 1 is the one
    supported algorithm, anything else panics. *)
Definition required (field : cipherSuite -> Z) (what : string) (cid : nat)
  : result bool :=
  match nth_error cipherSuiteIDs cid with
  | None => Panic "index out of range"
  | Some s =>
      if field s =? 0 then Ok false
      else if field s =? 1 then Ok true
      else Panic what
  end.

(** [func requiredAuthentication(cid uint) bool] *)
Definition requiredAuthentication : nat -> result bool :=
  required Auth "ipmigo: unsupported authentication algorithm".

(** [func requiredIntegrity(cid uint) bool] *)
Definition requiredIntegrity : nat -> result bool :=
  required Integrity "ipmigo: unsupported integrity algorithm".

(** [func requiredConfidentiality(cid uint) bool] *)
Definition requiredConfidentiality : nat -> result bool :=
  required Crypt "ipmigo: unsupported confidentiality algorithm".

(** [type Arguments struct] (client.go). Strings are their bytes, the
    timeout is in nanoseconds. *)
Record Arguments : Type := {
  Version : Z;
  Network : list Z;
  Address : list Z;
  Timeout : Z;
  Retries : nat;
  Username : list Z;
  Password : list Z;
  PrivilegeLevel : Z;
  CipherSuiteID : nat
}.

(** [func (a *Arguments) validate() error] *)
Definition validate (a : Arguments) : option error :=
  let versionError :=
    if Version a =? V2_0 then
      if passwordMaxLengthV2_0 <? len (Password a) then
        Some (ArgumentError "Password is too long")
      else if (length cipherSuiteIDs - 1 <? CipherSuiteID a)%nat then
        Some (ArgumentError "Invalid Cipher Suite ID")
      else if (3 <? CipherSuiteID a)%nat then
        Some (ArgumentError "Unsupported Cipher Suite ID in ipmigo")
      else None
    else Some (ArgumentError "Unsupported IPMI version") in
  match versionError with
  | Some e => Some e
  | None =>
      if (PrivilegeLevel a <? 0) || (PrivilegeAdministrator <? PrivilegeLevel a) then
        Some (ArgumentError "Invalid Privilege Level")
      else if userNameMaxLength <? len (Username a) then
        Some (ArgumentError "Username is too long")
      else None
  end.

(** [func (a *Arguments) setDefault()]; "udp" and five seconds. *)
Definition setDefault (a : Arguments) : Arguments :=
  {| Version := if Version a =? 0 then V2_0 else Version a;
     Network := match Network a with [] => [117; 100; 112] | n => n end;
     Address := Address a;
     Timeout := if Timeout a =? 0 then 5 * 1000000000 else Timeout a;
     Retries := Retries a;
     Username := Username a;
     Password := Password a;
     PrivilegeLevel := if PrivilegeLevel a =? 0 then PrivilegeAdministrator
                       else PrivilegeLevel a;
     CipherSuiteID := CipherSuiteID a |}.

(** [func NewClient(args Arguments)], as far as the arguments go: the
    client keeps the defaulted copy. *)
Definition NewClient (a : Arguments) : result Arguments :=
  match validate a with
  | Some e => Err e
  | None => Ok (setDefault a)
  end.

(** X8: [NewClient] accepts exactly the arguments with version 2.0 (the
    zero value is refused, validation running before the defaults), a
    password of at most 20 bytes, a cipher suite id of at most 3, a privilege
    level of at most 4 and a user name of at most 16 bytes. The client then
    has a privilege level between 1 and 4, and the three cipher-suite
    predicates return without panic: authentication for ids 1 to 3,
    integrity for 2 and 3, confidentiality for 3. *)
Theorem NewClient_accepts (a : Arguments) :
  ((exists c, NewClient a = Ok c) <->
   (Version a = V2_0 /\ len (Password a) <= 20 /\ (CipherSuiteID a <= 3)%nat /\
    0 <= PrivilegeLevel a <= 4 /\ len (Username a) <= 16)) /\
  (forall c, NewClient a = Ok c ->
             Version c = V2_0 /\ 1 <= PrivilegeLevel c <= 4 /\
             CipherSuiteID c = CipherSuiteID a /\
             requiredAuthentication (CipherSuiteID c)
             = Ok (1 <=? CipherSuiteID c)%nat /\
             requiredIntegrity (CipherSuiteID c)
             = Ok (2 <=? CipherSuiteID c)%nat /\
             requiredConfidentiality (CipherSuiteID c)
             = Ok (3 <=? CipherSuiteID c)%nat).
Proof.
  assert (Hv : validate a = None <->
               (Version a = V2_0 /\ len (Password a) <= 20 /\
                (CipherSuiteID a <= 3)%nat /\
                0 <= PrivilegeLevel a <= 4 /\ len (Username a) <= 16)).
  { unfold validate, passwordMaxLengthV2_0, userNameMaxLength,
      PrivilegeAdministrator.
    change (length cipherSuiteIDs - 1)%nat with 14%nat.
    destruct (Version a =? V2_0) eqn:E1;
      [apply Z.eqb_eq in E1 | apply Z.eqb_neq in E1];
      [|split; [discriminate | intros (H & _); contradiction]].
    destruct (20 <? len (Password a)) eqn:E2;
      [apply Z.ltb_lt in E2 | apply Z.ltb_ge in E2];
      [split; [discriminate | intros (_ & H & _); lia]|].
    destruct (14 <? CipherSuiteID a)%nat eqn:E3;
      [apply Nat.ltb_lt in E3 | apply Nat.ltb_ge in E3];
      [split; [discriminate | intros (_ & _ & H & _); lia]|].
    destruct (3 <? CipherSuiteID a)%nat eqn:E4;
      [apply Nat.ltb_lt in E4 | apply Nat.ltb_ge in E4];
      [split; [discriminate | intros (_ & _ & H & _); lia]|].
    destruct ((PrivilegeLevel a <? 0) || (4 <? PrivilegeLevel a)) eqn:E5.
    - split; [discriminate | intros (_ & _ & _ & H & _)].
      apply orb_true_iff in E5. destruct E5 as [E5 | E5]; apply Z.ltb_lt in E5; lia.
    - apply orb_false_iff in E5. destruct E5 as [E5 E6].
      apply Z.ltb_ge in E5, E6.
      destruct (16 <? len (Username a)) eqn:E7;
        [apply Z.ltb_lt in E7 | apply Z.ltb_ge in E7].
      + split; [discriminate | intros (_ & _ & _ & _ & H); lia].
      + split; [intros _; repeat split; assumption || lia | reflexivity]. }
  unfold NewClient. split.
  - destruct (validate a) as [e|] eqn:E.
    + split; [intros [c H]; discriminate H | intro H; apply Hv in H; discriminate H].
    + split; [intros _; apply Hv; reflexivity | intros _; eexists; reflexivity].
  - intros c Hc. destruct (validate a) as [e|] eqn:E; [discriminate Hc|].
    inversion Hc as [Hc']. clear Hc.
    destruct (proj1 Hv eq_refl) as (H1 & H2 & H3 & H4 & H5).
    unfold setDefault. cbn [Version PrivilegeLevel CipherSuiteID].
    rewrite H1. change (V2_0 =? 0) with false. cbv iota.
    split; [reflexivity | split].
    + unfold PrivilegeAdministrator.
      destruct (PrivilegeLevel a =? 0) eqn:E0;
        [lia | apply Z.eqb_neq in E0; lia].
    + split; [reflexivity|].
      destruct (CipherSuiteID a) as [|[|[|[|n]]]]; [| | | | lia];
        repeat split; reflexivity.
Qed.

(** The arguments of the README example are accepted, with the privilege
    level defaulted to Administrator. *)
Lemma NewClient_accepts_witness :
  let a := {| Version := V2_0; Network := []; Address := [49; 58; 54; 50; 51];
              Timeout := 0; Retries := 0; Username := [109; 121; 117];
              Password := [109; 121; 112]; PrivilegeLevel := 0;
              CipherSuiteID := 3 |} in
  exists c, NewClient a = Ok c /\ PrivilegeLevel c = 4 /\
            requiredConfidentiality (CipherSuiteID c) = Ok true.
Proof.
  intro a.
  destruct (NewClient_accepts a) as [Hiff Hc].
  destruct (proj2 Hiff) as [c Hok].
  - vm_compute. repeat split; try discriminate; lia.
  - exists c. destruct (Hc c Hok) as (_ & _ & Hid & _ & _ & Hconf).
    split; [exact Hok | split].
    + vm_compute in Hok. inversion Hok. reflexivity.
    + rewrite Hconf, Hid. reflexivity.
Defined.

End CipherSuites.

(** ** payload_session.go: the RAKP messages and their HMACs *)

Module RAKP.

Import PayloadSession Bytes Crypto CipherSuites.

Definition rakpMessage1Size : Z := 44.

(** [copy(buf[off:], src)] on a buffer that is long enough for [off]. *)
Definition write_at (buf : list Z) (off : Z) (src : list Z) : list Z :=
  slice buf 0 off ++ copy (from buf off) src.

(** [type rakpMessage1 struct] *)
Record rakpMessage1 : Type := {
  r1_MessageTag : Z;
  r1_ManagedID : Z;
  r1_ConsoleRand : list Z;
  r1_PrivilegeLevel : Z;
  r1_PrivilegeLookup : bool;
  r1_Username : list Z
}.

(** [rand.Read(r.ConsoleRand[:])] stores the random number in the message. *)
Definition with_ConsoleRand (r : rakpMessage1) (random : list Z) : rakpMessage1 :=
  {| r1_MessageTag := r1_MessageTag r; r1_ManagedID := r1_ManagedID r;
     r1_ConsoleRand := random; r1_PrivilegeLevel := r1_PrivilegeLevel r;
     r1_PrivilegeLookup := r1_PrivilegeLookup r; r1_Username := r1_Username r |}.

(** [func (r *rakpMessage1) RequestedRole() byte] *)
Definition RequestedRole (r : rakpMessage1) : Z :=
  let b := byte (r1_PrivilegeLevel r) in
  if negb (r1_PrivilegeLookup r) then Z.lor b 0x10 else b.

(** [func (r *rakpMessage1) Marshal() ([]byte, error)]; [rnd] is the outcome
    of [rand.Read] on the 16 bytes of [ConsoleRand]. The message with the
    random number stored and the bytes are returned. *)
Definition rakpMessage1_Marshal (r : rakpMessage1) (rnd : result (list Z))
  : result (rakpMessage1 * list Z) :=
  match rnd with
  | Ok random =>
      let r := with_ConsoleRand r (copy (make 16) random) in
      let buf := make rakpMessage1Size in
      let buf := write_at buf 0 [r1_MessageTag r] in
      let buf := write_at buf 4 (le_put_uint32 (r1_ManagedID r)) in
      let buf := write_at buf 8 (copy (slice buf 8 24) (r1_ConsoleRand r)) in
      let buf := write_at buf 24 [RequestedRole r] in
      let ulen := len (r1_Username r) in
      let buf := write_at buf 27 [byte ulen] in
      let buf := write_at buf 28 (r1_Username r) in
      if len buf <? 28 + ulen then Panic "slice bounds out of range"
      else Ok (r, slice buf 0 (28 + ulen))
  | Err e => Err e
  | Panic what => Panic what
  | OutOfFuel => OutOfFuel
  end.

Section HMAC.

Variable hmac_sha1 : list Z -> list Z -> list Z.

(** [key := make([]byte, passwordMaxLengthV2_0); copy(key, args.Password)] *)
Definition passwordKey (a : Arguments) : list Z :=
  copy (make passwordMaxLengthV2_0) (Password a).

(** The HMAC input of [rakpMessage2.ValidateAuthCode]. *)
Definition rakp2Data (r1 : rakpMessage1) (r : rakpMessage2) : list Z :=
  let data := make (58 + len (r1_Username r1)) in
  let data := write_at data 0 (le_put_uint32 (r2_ConsoleID r)) in
  let data := write_at data 4 (le_put_uint32 (r1_ManagedID r1)) in
  let data := write_at data 8 (r1_ConsoleRand r1) in
  let data := write_at data 24 (r2_ManagedRand r) in
  let data := write_at data 40 (r2_ManagedGUID r) in
  let data := write_at data 56 [RequestedRole r1] in
  let data := write_at data 57 [byte (len (r1_Username r1))] in
  write_at data 58 (r1_Username r1).

(** [func (r *rakpMessage2) ValidateAuthCode(args *Arguments, r1 *rakpMessage1) error] *)
Definition rakpMessage2_ValidateAuthCode (r : rakpMessage2) (a : Arguments)
           (r1 : rakpMessage1) : result unit :=
  match requiredAuthentication (CipherSuiteID a) with
  | Ok false => Ok tt
  | Ok true =>
      let s := hmac_sha1 (passwordKey a) (rakp2Data r1 r) in
      if negb (bytes_Equal (r2_KeyExchangeAuthCode r) s) then
        Err (MessageError "RAKP 2 HMAC is invalid")
      else Ok tt
  | Err e => Err e
  | Panic what => Panic what
  | OutOfFuel => OutOfFuel
  end.

(** [type rakpMessage3 struct] *)
Record rakpMessage3 : Type := {
  r3_MessageTag : Z;
  r3_StatusCode : Z;
  r3_ManagedID : Z;
  r3_KeyExchangeAuthCode : list Z;
  SIK : list Z;
  K1 : list Z;
  K2 : list Z
}.

Definition sikSize : Z := 20.
Definition rakpMessage3Size : Z := 8.

(** [&rakpMessage3{StatusCode: rakpStatusNoErrors, ManagedID: id}]: the
    arrays are zero. *)
Definition newRakpMessage3 (managedID : Z) : rakpMessage3 :=
  {| r3_MessageTag := 0; r3_StatusCode := 0; r3_ManagedID := managedID;
     r3_KeyExchangeAuthCode := make authCodeSize; SIK := make sikSize;
     K1 := make sikSize; K2 := make sikSize |}.

Definition set_KeyExchangeAuthCode (r : rakpMessage3) (v : list Z) : rakpMessage3 :=
  {| r3_MessageTag := r3_MessageTag r; r3_StatusCode := r3_StatusCode r;
     r3_ManagedID := r3_ManagedID r; r3_KeyExchangeAuthCode := v;
     SIK := SIK r; K1 := K1 r; K2 := K2 r |}.
Definition set_SIK (r : rakpMessage3) (v : list Z) : rakpMessage3 :=
  {| r3_MessageTag := r3_MessageTag r; r3_StatusCode := r3_StatusCode r;
     r3_ManagedID := r3_ManagedID r;
     r3_KeyExchangeAuthCode := r3_KeyExchangeAuthCode r;
     SIK := v; K1 := K1 r; K2 := K2 r |}.
Definition set_K1 (r : rakpMessage3) (v : list Z) : rakpMessage3 :=
  {| r3_MessageTag := r3_MessageTag r; r3_StatusCode := r3_StatusCode r;
     r3_ManagedID := r3_ManagedID r;
     r3_KeyExchangeAuthCode := r3_KeyExchangeAuthCode r;
     SIK := SIK r; K1 := v; K2 := K2 r |}.
Definition set_K2 (r : rakpMessage3) (v : list Z) : rakpMessage3 :=
  {| r3_MessageTag := r3_MessageTag r; r3_StatusCode := r3_StatusCode r;
     r3_ManagedID := r3_ManagedID r;
     r3_KeyExchangeAuthCode := r3_KeyExchangeAuthCode r;
     SIK := SIK r; K1 := K1 r; K2 := v |}.

Definition const1 : list Z := repeat 1 20.
Definition const2 : list Z := repeat 2 20.

(** The guard shared by the generators: nothing is done when the suite has
    no authentication, a panic of [requiredAuthentication] propagates. *)
Definition whenAuthenticated {A : Type} (a : Arguments) (skip : A)
           (body : unit -> result A) : result A :=
  match requiredAuthentication (CipherSuiteID a) with
  | Ok false => Ok skip
  | Ok true => body tt
  | Err e => Err e
  | Panic what => Panic what
  | OutOfFuel => OutOfFuel
  end.

(** The HMAC input of [rakpMessage3.GenerateAuthCode]. *)
Definition rakp3Data (r1 : rakpMessage1) (r2 : rakpMessage2) : list Z :=
  let data := make (22 + len (r1_Username r1)) in
  let data := write_at data 0 (r2_ManagedRand r2) in
  let data := write_at data 16 (le_put_uint32 (r2_ConsoleID r2)) in
  let data := write_at data 20 [RequestedRole r1] in
  let data := write_at data 21 [byte (len (r1_Username r1))] in
  write_at data 22 (r1_Username r1).

(** [func (r *rakpMessage3) GenerateAuthCode(args, r1, r2)] *)
Definition GenerateAuthCode (r : rakpMessage3) (a : Arguments)
           (r1 : rakpMessage1) (r2 : rakpMessage2) : result rakpMessage3 :=
  whenAuthenticated a r (fun _ =>
    Ok (set_KeyExchangeAuthCode r
          (copy (r3_KeyExchangeAuthCode r)
                (hmac_sha1 (passwordKey a) (rakp3Data r1 r2))))).

(** The HMAC input of [rakpMessage3.GenerateSIK]. *)
Definition sikData (r1 : rakpMessage1) (r2 : rakpMessage2) : list Z :=
  let data := make (34 + len (r1_Username r1)) in
  let data := write_at data 0 (r1_ConsoleRand r1) in
  let data := write_at data 16 (r2_ManagedRand r2) in
  let data := write_at data 32 [RequestedRole r1] in
  let data := write_at data 33 [byte (len (r1_Username r1))] in
  write_at data 34 (r1_Username r1).

(** [func (r *rakpMessage3) GenerateSIK(args, r1, r2)] *)
Definition GenerateSIK (r : rakpMessage3) (a : Arguments)
           (r1 : rakpMessage1) (r2 : rakpMessage2) : result rakpMessage3 :=
  whenAuthenticated a r (fun _ =>
    Ok (set_SIK r (copy (SIK r) (hmac_sha1 (passwordKey a) (sikData r1 r2))))).

(** [func (r *rakpMessage3) GenerateK1(args)] *)
Definition GenerateK1 (r : rakpMessage3) (a : Arguments) : result rakpMessage3 :=
  whenAuthenticated a r (fun _ =>
    let key := copy (make (len (SIK r))) (SIK r) in
    Ok (set_K1 r (copy (K1 r) (hmac_sha1 key const1)))).

(** [func (r *rakpMessage3) GenerateK2(args)] *)
Definition GenerateK2 (r : rakpMessage3) (a : Arguments) : result rakpMessage3 :=
  whenAuthenticated a r (fun _ =>
    let key := copy (make (len (SIK r))) (SIK r) in
    Ok (set_K2 r (copy (K2 r) (hmac_sha1 key const2)))).

Definition andThen {A B : Type} (x : result A) (f : A -> result B) : result B :=
  match x with
  | Ok v => f v
  | Err e => Err e
  | Panic what => Panic what
  | OutOfFuel => OutOfFuel
  end.

(** The four generator calls of [openSession], in its order. *)
Definition generate (managedID : Z) (a : Arguments) (r1 : rakpMessage1)
           (r2 : rakpMessage2) : result rakpMessage3 :=
  andThen (GenerateAuthCode (newRakpMessage3 managedID) a r1 r2) (fun r3 =>
  andThen (GenerateSIK r3 a r1 r2) (fun r3 =>
  andThen (GenerateK1 r3 a) (fun r3 =>
  GenerateK2 r3 a))).

(** [func (r *rakpMessage3) Marshal() ([]byte, error)] *)
Definition rakpMessage3_Marshal (r : rakpMessage3) : list Z :=
  let size := rakpMessage3Size + len (r3_KeyExchangeAuthCode r) in
  let buf := make size in
  let buf := write_at buf 0 [r3_MessageTag r] in
  let buf := write_at buf 1 [byte (r3_StatusCode r)] in
  let buf := write_at buf 4 (le_put_uint32 (r3_ManagedID r)) in
  write_at buf 8 (r3_KeyExchangeAuthCode r).

(** The HMAC input of [rakpMessage4.ValidateAuthCode]. *)
Definition rakp4Data (r1 : rakpMessage1) (r2 : rakpMessage2) : list Z :=
  let data := make 36 in
  let data := write_at data 0 (r1_ConsoleRand r1) in
  let data := write_at data 16 (le_put_uint32 (r1_ManagedID r1)) in
  write_at data 20 (r2_ManagedGUID r2).

(** [func (r *rakpMessage4) ValidateAuthCode(args, r1, r2, r3) error] *)
Definition rakpMessage4_ValidateAuthCode (r : rakpMessage4) (a : Arguments)
           (r1 : rakpMessage1) (r2 : rakpMessage2) (r3 : rakpMessage3)
  : result unit :=
  match requiredAuthentication (CipherSuiteID a) with
  | Ok false => Ok tt
  | Ok true =>
      let key := copy (make (len (SIK r3))) (SIK r3) in
      let sum := hmac_sha1 key (rakp4Data r1 r2) in
      if len sum <? integrityCheckSize then Panic "slice bounds out of range"
      else
        let s := slice sum 0 integrityCheckSize in
        if negb (bytes_Equal (r4_IntegrityCheckValue r) s) then
          Err (MessageError "RAKP 4 HMAC is invalid")
        else Ok tt
  | Err e => Err e
  | Panic what => Panic what
  | OutOfFuel => OutOfFuel
  end.

End HMAC.

(** *** Sequential writes into a zeroed buffer *)

Lemma make_app (a b : Z) : 0 <= a -> 0 <= b -> make (a + b) = make a ++ make b.
Proof.
  intros Ha Hb. unfold make. rewrite Z2Nat.inj_add by assumption.
  apply repeat_app.
Qed.

Lemma write_at_mid (pre mid post src : list Z) (off : Z) :
  len pre = off -> length mid = length src ->
  write_at (pre ++ mid ++ post) off src = pre ++ src ++ post.
Proof.
  intros <- Hm. unfold write_at. rewrite slice_app_l, from_app_r.
  f_equal. unfold copy. rewrite length_app, <- Hm.
  rewrite firstn_all2 by (rewrite Hm; lia).
  rewrite skipn_app_exact by reflexivity. reflexivity.
Qed.

Lemma write_at_end (pre mid src : list Z) (off : Z) :
  len pre = off -> length mid = length src ->
  write_at (pre ++ mid) off src = pre ++ src.
Proof.
  intros H1 H2. rewrite <- (app_nil_r mid).
  rewrite (write_at_mid pre mid [] src off H1 H2). rewrite app_nil_r. reflexivity.
Qed.

Lemma write_at_step (pre mid post src : list Z) (off : Z) :
  len pre = off -> length mid = length src ->
  write_at (pre ++ mid ++ post) off src = (pre ++ src) ++ post.
Proof.
  intros H1 H2. rewrite (write_at_mid pre mid post src off H1 H2).
  apply app_assoc.
Qed.

Lemma length_make (n : nat) : length (make (Z.of_nat n)) = n.
Proof. unfold make. rewrite repeat_length. apply Nat2Z.id. Qed.

Lemma length_le_put_uint32 (v : Z) : length (le_put_uint32 v) = 4%nat.
Proof. reflexivity. Qed.

Ltac lens :=
  unfold len; rewrite ?length_app, ?length_le_put_uint32;
  repeat match goal with H : length _ = _ |- _ => rewrite H end;
  try reflexivity; simpl; try lia.

Lemma rakp2Data_layout (r1 : rakpMessage1) (r : rakpMessage2) :
  length (r1_ConsoleRand r1) = 16%nat ->
  length (r2_ManagedRand r) = 16%nat ->
  length (r2_ManagedGUID r) = 16%nat ->
  rakp2Data r1 r =
    le_put_uint32 (r2_ConsoleID r) ++ le_put_uint32 (r1_ManagedID r1) ++
    r1_ConsoleRand r1 ++ r2_ManagedRand r ++ r2_ManagedGUID r ++
    [RequestedRole r1; byte (len (r1_Username r1))] ++ r1_Username r1.
Proof.
  intros Hm Hc Hg. unfold rakp2Data. cbv zeta.
  set (u := r1_Username r1).
  replace (58 + len u) with (4 + (4 + (16 + (16 + (16 + (1 + (1 + len u)))))))
    by lia.
  pose proof (len_nonneg u) as Hu.
  rewrite !make_app by lia.
  rewrite <- (app_nil_l (make 4 ++ _)).
  rewrite write_at_step by reflexivity.
  rewrite write_at_step by lens.
  rewrite write_at_step by lens.
  rewrite write_at_step by lens.
  rewrite write_at_step by lens.
  rewrite write_at_step by lens.
  rewrite write_at_step by lens.
  rewrite write_at_end.
  - rewrite <- !app_assoc. reflexivity.
  - lens.
  - unfold len. rewrite length_make. reflexivity.
Qed.

Lemma length_copy (dst src : list Z) : length (copy dst src) = length dst.
Proof.
  unfold copy. rewrite length_app, length_firstn, length_skipn. lia.
Qed.

Lemma length_write_at (buf src : list Z) (off : Z) :
  length (write_at buf off src) = length buf.
Proof.
  unfold write_at, slice, from.
  rewrite length_app, length_copy, length_firstn, !length_skipn. simpl. lia.
Qed.

Lemma slice_mid (pre mid post : list Z) (lo hi : Z) :
  len pre = lo -> len mid = hi - lo -> slice (pre ++ mid ++ post) lo hi = mid.
Proof.
  intros <- Hm. unfold slice. rewrite <- Hm. unfold len. rewrite !Nat2Z.id.
  rewrite skipn_app_exact by reflexivity.
  apply firstn_app_exact. reflexivity.
Qed.

Lemma rakp3Data_layout (r1 : rakpMessage1) (r2 : rakpMessage2) :
  length (r2_ManagedRand r2) = 16%nat ->
  rakp3Data r1 r2 =
    r2_ManagedRand r2 ++ le_put_uint32 (r2_ConsoleID r2) ++
    [RequestedRole r1; byte (len (r1_Username r1))] ++ r1_Username r1.
Proof.
  intros Hc. unfold rakp3Data. cbv zeta.
  set (u := r1_Username r1).
  replace (22 + len u) with (16 + (4 + (1 + (1 + len u)))) by lia.
  pose proof (len_nonneg u) as Hu.
  rewrite !make_app by lia.
  rewrite <- (app_nil_l (make 16 ++ _)).
  rewrite write_at_step by (try reflexivity; rewrite Hc; reflexivity).
  rewrite write_at_step by lens.
  rewrite write_at_step by lens.
  rewrite write_at_step by lens.
  rewrite write_at_end.
  - rewrite <- !app_assoc. reflexivity.
  - lens.
  - unfold len. rewrite length_make. reflexivity.
Qed.

Lemma sikData_layout (r1 : rakpMessage1) (r2 : rakpMessage2) :
  length (r1_ConsoleRand r1) = 16%nat ->
  length (r2_ManagedRand r2) = 16%nat ->
  sikData r1 r2 =
    r1_ConsoleRand r1 ++ r2_ManagedRand r2 ++
    [RequestedRole r1; byte (len (r1_Username r1))] ++ r1_Username r1.
Proof.
  intros Hm Hc. unfold sikData. cbv zeta.
  set (u := r1_Username r1).
  replace (34 + len u) with (16 + (16 + (1 + (1 + len u)))) by lia.
  pose proof (len_nonneg u) as Hu.
  rewrite !make_app by lia.
  rewrite <- (app_nil_l (make 16 ++ _)).
  rewrite write_at_step by (try reflexivity; rewrite Hm; reflexivity).
  rewrite write_at_step by lens.
  rewrite write_at_step by lens.
  rewrite write_at_step by lens.
  rewrite write_at_end.
  - rewrite <- !app_assoc. reflexivity.
  - lens.
  - unfold len. rewrite length_make. reflexivity.
Qed.

Lemma rakp4Data_layout (r1 : rakpMessage1) (r2 : rakpMessage2) :
  length (r1_ConsoleRand r1) = 16%nat ->
  length (r2_ManagedGUID r2) = 16%nat ->
  rakp4Data r1 r2 =
    r1_ConsoleRand r1 ++ le_put_uint32 (r1_ManagedID r1) ++ r2_ManagedGUID r2.
Proof.
  intros Hm Hg. unfold rakp4Data. cbv zeta.
  change (make 36) with (make 16 ++ make 4 ++ make 16).
  rewrite <- (app_nil_l (make 16 ++ _)).
  rewrite write_at_step by (try reflexivity; rewrite Hm; reflexivity).
  rewrite write_at_step by lens.
  rewrite write_at_end.
  - rewrite <- !app_assoc. reflexivity.
  - lens.
  - rewrite Hg. reflexivity.
Qed.

Lemma passwordKey_pad (a : Arguments) :
  len (Password a) <= passwordMaxLengthV2_0 ->
  passwordKey a =
  Password a ++ make (passwordMaxLengthV2_0 - len (Password a)).
Proof.
  intro H. unfold passwordKey.
  pose proof (len_nonneg (Password a)) as H0.
  set (p := Password a) in *. set (n := passwordMaxLengthV2_0) in *.
  replace (make n) with (make (len p) ++ make (n - len p))
    by (rewrite <- make_app by lia; f_equal; lia).
  unfold copy. rewrite firstn_all2.
  - f_equal. apply skipn_app_exact. apply length_make.
  - rewrite length_app. unfold len at 1. rewrite length_make. lia.
Qed.

(** *** RAKP message 1 *)

(** X9. [rakpMessage1.Marshal]: with a user name of at most 16 bytes the
    message is the tag, three zero bytes, the managed session id in little
    endian, the 16 random bytes, the requested role, two zero bytes, the
    length of the user name and the user name itself; a longer user name
    does not yield an error but a panic, from slicing the 44-byte buffer
    beyond its end. *)
Theorem rakpMessage1_Marshal_layout (r : rakpMessage1) (random : list Z) :
  length random = 16%nat ->
  (len (r1_Username r) <= 16 ->
   rakpMessage1_Marshal r (Ok random) =
   Ok (with_ConsoleRand r random,
       [r1_MessageTag r; 0; 0; 0] ++ le_put_uint32 (r1_ManagedID r) ++
       random ++ [RequestedRole r; 0; 0; byte (len (r1_Username r))] ++
       r1_Username r)) /\
  (16 < len (r1_Username r) ->
   rakpMessage1_Marshal r (Ok random) = Panic "slice bounds out of range").
Proof.
  intro Hr.
  assert (Hl : forall o1 s1 o2 s2 o3 s3 o4 s4 o5 s5 o6 s6,
             len (write_at (write_at (write_at (write_at (write_at (write_at
                    (make rakpMessage1Size) o1 s1) o2 s2) o3 s3) o4 s4)
                    o5 s5) o6 s6) = 44).
  { intros. unfold len. rewrite !length_write_at. reflexivity. }
  split; intro Hu.
  - unfold rakpMessage1_Marshal. cbv zeta. rewrite Hl.
    rewrite (copy_same_length (make 16) random) by (rewrite Hr; reflexivity).
    change (r1_Username (with_ConsoleRand r random)) with (r1_Username r).
    change (r1_MessageTag (with_ConsoleRand r random)) with (r1_MessageTag r).
    change (r1_ManagedID (with_ConsoleRand r random)) with (r1_ManagedID r).
    change (r1_ConsoleRand (with_ConsoleRand r random)) with random.
    change (RequestedRole (with_ConsoleRand r random)) with (RequestedRole r).
    set (u := r1_Username r) in *.
    pose proof (len_nonneg u) as Hu0.
    destruct (44 <? 28 + len u) eqn:E; [apply Z.ltb_lt in E; lia|].
    unfold rakpMessage1Size.
    replace 44 with (1 + (3 + (4 + (16 + (1 + (2 + (1 + (len u + (16 - len u)))))))))
      by lia.
    rewrite !make_app by lia.
    rewrite <- (app_nil_l (make 1 ++ _)).
    rewrite write_at_step by reflexivity.
    rewrite (app_assoc ([] ++ _) (make 3)).
    rewrite write_at_step by lens.
    rewrite (slice_mid _ (make 16)) by lens.
    rewrite (copy_same_length (make 16) random) by (rewrite Hr; reflexivity).
    rewrite write_at_step by lens.
    rewrite write_at_step by lens.
    rewrite (app_assoc _ (make 2)).
    rewrite write_at_step by lens.
    rewrite write_at_step
      by (lens; unfold len; rewrite ?Nat2Z.id, ?length_make; try reflexivity; lia).
    f_equal. f_equal.
    match goal with |- slice (?a ++ ?b) 0 ?n = _ =>
      replace n with (len a); [rewrite slice_app_l|] end.
    + rewrite <- !app_assoc. reflexivity.
    + change (make 3) with [0; 0; 0]. change (make 2) with [0; 0].
      unfold le_put_uint32. rewrite !len_app.
      replace (len random) with 16 by (unfold len; rewrite Hr; reflexivity).
      unfold len at 1 2 3 4 5 6 7. cbn [length]. lia.
  - unfold rakpMessage1_Marshal. cbv zeta. rewrite Hl.
    change (r1_Username (with_ConsoleRand r _)) with (r1_Username r).
    destruct (44 <? 28 + len (r1_Username r)) eqn:E; [reflexivity|].
    apply Z.ltb_ge in E. lia.
Qed.

(** *** The HMACs of RAKP messages 2, 3 and 4 *)

Section AuthFacts.


Variable hmac_sha1 : list Z -> list Z -> list Z.

(** X10. [rakpMessage2.ValidateAuthCode]: when the cipher suite has
    authentication, a RAKP message 2 is accepted exactly when its key
    exchange authentication code is the HMAC, under the password key, of
    SIDm, SIDc, Rm, Rc, GUIDc, the requested role, the user name length and
    the user name, in this order; any other code gives the message error.
    Without authentication every message is accepted. *)
Theorem rakp2_auth_code (r : rakpMessage2) (a : Arguments) (r1 : rakpMessage1) :
  length (r1_ConsoleRand r1) = 16%nat ->
  length (r2_ManagedRand r) = 16%nat ->
  length (r2_ManagedGUID r) = 16%nat ->
  (requiredAuthentication (CipherSuiteID a) = Ok true ->
   (rakpMessage2_ValidateAuthCode hmac_sha1 r a r1 = Ok tt <->
    r2_KeyExchangeAuthCode r =
    hmac_sha1 (passwordKey a)
      (le_put_uint32 (r2_ConsoleID r) ++ le_put_uint32 (r1_ManagedID r1) ++
       r1_ConsoleRand r1 ++ r2_ManagedRand r ++ r2_ManagedGUID r ++
       [RequestedRole r1; byte (len (r1_Username r1))] ++ r1_Username r1)) /\
   (rakpMessage2_ValidateAuthCode hmac_sha1 r a r1 <> Ok tt ->
    rakpMessage2_ValidateAuthCode hmac_sha1 r a r1 =
    Err (MessageError "RAKP 2 HMAC is invalid"))) /\
  (requiredAuthentication (CipherSuiteID a) = Ok false ->
   rakpMessage2_ValidateAuthCode hmac_sha1 r a r1 = Ok tt).
Proof.
  intros Hm Hc Hg. unfold rakpMessage2_ValidateAuthCode.
  rewrite (rakp2Data_layout r1 r Hm Hc Hg).
  split; intros ->; [|reflexivity].
  match goal with |- context [bytes_Equal ?x ?y] =>
    pose proof (bytes_Equal_eq x y) as Heq;
    destruct (bytes_Equal x y) end; cbn [negb].
  - split; [|intro H; contradiction H; reflexivity].
    split; intro; [apply Heq|]; reflexivity.
  - split; [|reflexivity].
    split; [discriminate|]. intro H. apply Heq in H. discriminate.
Qed.

Hypothesis hmac_sha1_length : forall key msg, length (hmac_sha1 key msg) = 20%nat.

(** X11. The generators of [rakpMessage3] as [openSession] calls them: with
    authentication the code of message 3 is the HMAC of Rc, SIDm, role, user
    name length and user name, the session integrity key is the HMAC of Rm,
    Rc, role, user name length and user name, both under the password key,
    and K1 and K2 are the HMACs of the constants 1 and 2 under the session
    integrity key. Without authentication all four stay zero. *)
Theorem generate_keys (managedID : Z) (a : Arguments) (r1 : rakpMessage1)
        (r2 : rakpMessage2) :
  length (r1_ConsoleRand r1) = 16%nat ->
  length (r2_ManagedRand r2) = 16%nat ->
  (requiredAuthentication (CipherSuiteID a) = Ok true ->
   exists r3,
     generate hmac_sha1 managedID a r1 r2 = Ok r3 /\
     r3_ManagedID r3 = managedID /\
     r3_KeyExchangeAuthCode r3 =
       hmac_sha1 (passwordKey a)
         (r2_ManagedRand r2 ++ le_put_uint32 (r2_ConsoleID r2) ++
          [RequestedRole r1; byte (len (r1_Username r1))] ++ r1_Username r1) /\
     SIK r3 =
       hmac_sha1 (passwordKey a)
         (r1_ConsoleRand r1 ++ r2_ManagedRand r2 ++
          [RequestedRole r1; byte (len (r1_Username r1))] ++ r1_Username r1) /\
     K1 r3 = hmac_sha1 (SIK r3) const1 /\
     K2 r3 = hmac_sha1 (SIK r3) const2) /\
  (requiredAuthentication (CipherSuiteID a) = Ok false ->
   generate hmac_sha1 managedID a r1 r2 = Ok (newRakpMessage3 managedID)).
Proof.
  intros Hm Hc.
  assert (Hcopy : forall k m, copy (make 20) (hmac_sha1 k m) = hmac_sha1 k m).
  { intros. apply copy_same_length. rewrite hmac_sha1_length. reflexivity. }
  assert (Hkey : forall k m,
             copy (make (len (hmac_sha1 k m))) (hmac_sha1 k m) = hmac_sha1 k m).
  { intros. apply copy_same_length. unfold len, make.
    rewrite repeat_length, Nat2Z.id. reflexivity. }
  unfold generate, GenerateAuthCode, GenerateSIK, GenerateK1, GenerateK2,
    whenAuthenticated.
  split; intros ->; [|reflexivity].
  cbn [andThen set_KeyExchangeAuthCode set_SIK set_K1 set_K2 newRakpMessage3
       r3_KeyExchangeAuthCode SIK K1 K2 r3_MessageTag r3_StatusCode r3_ManagedID].
  unfold authCodeSize, sikSize. rewrite !Hcopy, !Hkey.
  rewrite (rakp3Data_layout r1 r2 Hc), (sikData_layout r1 r2 Hm Hc).
  eexists. split; [reflexivity|]. cbn [r3_ManagedID r3_KeyExchangeAuthCode SIK K1 K2].
  repeat split.
Qed.

(** X12. [rakpMessage4.ValidateAuthCode]: with authentication a RAKP
    message 4 is accepted exactly when its integrity check value is the
    first 12 bytes of the HMAC, under the session integrity key, of Rm, SIDc
    and GUIDc; otherwise the message error is returned. Without
    authentication every message is accepted. *)
Theorem rakp4_integrity_check (r : rakpMessage4) (a : Arguments)
        (r1 : rakpMessage1) (r2 : rakpMessage2) (r3 : rakpMessage3) :
  length (r1_ConsoleRand r1) = 16%nat ->
  length (r2_ManagedGUID r2) = 16%nat ->
  (requiredAuthentication (CipherSuiteID a) = Ok true ->
   (rakpMessage4_ValidateAuthCode hmac_sha1 r a r1 r2 r3 = Ok tt <->
    r4_IntegrityCheckValue r =
    firstn 12
      (hmac_sha1 (SIK r3)
         (r1_ConsoleRand r1 ++ le_put_uint32 (r1_ManagedID r1) ++
          r2_ManagedGUID r2))) /\
   (rakpMessage4_ValidateAuthCode hmac_sha1 r a r1 r2 r3 <> Ok tt ->
    rakpMessage4_ValidateAuthCode hmac_sha1 r a r1 r2 r3 =
    Err (MessageError "RAKP 4 HMAC is invalid"))) /\
  (requiredAuthentication (CipherSuiteID a) = Ok false ->
   rakpMessage4_ValidateAuthCode hmac_sha1 r a r1 r2 r3 = Ok tt).
Proof.
  intros Hm Hg. unfold rakpMessage4_ValidateAuthCode.
  rewrite (rakp4Data_layout r1 r2 Hm Hg).
  split; intros ->; [|reflexivity].
  cbv zeta.
  assert (Hkey : copy (make (len (SIK r3))) (SIK r3) = SIK r3).
  { apply copy_same_length. unfold len, make.
    rewrite repeat_length, Nat2Z.id. reflexivity. }
  rewrite Hkey.
  match goal with |- context [len ?s <? _] =>
    assert (Hl : len s = 20) by (unfold len; rewrite hmac_sha1_length; reflexivity)
  end.
  rewrite Hl. change (20 <? integrityCheckSize) with false. cbv iota.
  unfold slice, integrityCheckSize.
  change (Z.to_nat (12 - 0)) with 12%nat. change (Z.to_nat 0) with 0%nat.
  cbn [skipn].
  match goal with |- context [bytes_Equal ?x ?y] =>
    pose proof (bytes_Equal_eq x y) as Heq;
    destruct (bytes_Equal x y) end; cbn [negb].
  - split; [|intro H; contradiction H; reflexivity].
    split; intro; [apply Heq|]; reflexivity.
  - split; [|reflexivity].
    split; [discriminate|]. intro H. apply Heq in H. discriminate.
Qed.

End AuthFacts.

(** A handshake with cipher suite 3 on concrete values, with the stand-in
    MAC. *)
Definition args3 : Arguments :=
  {| Version := V2_0; Network := []; Address := [49; 58; 54; 50; 51];
     Timeout := 0; Retries := 0; Username := [109; 121; 117];
     Password := [109; 121; 112]; PrivilegeLevel := 4; CipherSuiteID := 3 |}.
Definition msg1 : rakpMessage1 :=
  {| r1_MessageTag := 0; r1_ManagedID := 0x01020304;
     r1_ConsoleRand := repeat 7 16; r1_PrivilegeLevel := 4;
     r1_PrivilegeLookup := true; r1_Username := [109; 121; 117] |}.
Definition msg2 : rakpMessage2 :=
  {| r2_MessageTag := 0; r2_StatusCode := 0; r2_ConsoleID := 0x0a0b0c0d;
     r2_ManagedRand := repeat 9 16; r2_ManagedGUID := repeat 3 16;
     r2_KeyExchangeAuthCode := 1 :: repeat 0 19 |}.
Definition msg4 : rakpMessage4 :=
  {| r4_MessageTag := 0; r4_StatusCode := 0; r4_ConsoleID := 0x0a0b0c0d;
     r4_IntegrityCheckValue := 1 :: repeat 0 11 |}.

Lemma rakpMessage1_Marshal_layout_witness :
  rakpMessage1_Marshal msg1 (Ok (repeat 7 16)) =
  Ok (msg1,
      [0; 0; 0; 0; 4; 3; 2; 1] ++ repeat 7 16 ++ [4; 0; 0; 3; 109; 121; 117]).
Proof.
  exact (proj1 (rakpMessage1_Marshal_layout msg1 (repeat 7 16) eq_refl)
               ltac:(vm_compute; discriminate)).
Defined.

Lemma rakp2_auth_code_witness :
  rakpMessage2_ValidateAuthCode toy_hmac msg2 args3 msg1 = Ok tt.
Proof.
  apply (proj1 (rakp2_auth_code toy_hmac msg2 args3 msg1
                  eq_refl eq_refl eq_refl)); reflexivity.
Defined.

Lemma generate_keys_witness :
  exists r3, generate toy_hmac 0x01020304 args3 msg1 msg2 = Ok r3 /\
             SIK r3 = repeat 0 20 /\ K1 r3 = repeat 0 20 /\
             K2 r3 = repeat 0 20.
Proof.
  destruct (proj1 (generate_keys toy_hmac toy_hmac_length 0x01020304 args3
                     msg1 msg2 eq_refl eq_refl) eq_refl)
    as (r3 & Hgen & _ & _ & Hsik & Hk1 & Hk2).
  exists r3. split; [exact Hgen|].
  rewrite Hk1, Hk2, Hsik. repeat split; reflexivity.
Defined.

Lemma rakp4_integrity_check_witness :
  rakpMessage4_ValidateAuthCode toy_hmac msg4 args3 msg1 msg2
    (newRakpMessage3 0x01020304) = Ok tt.
Proof.
  apply (proj1 (rakp4_integrity_check toy_hmac toy_hmac_length msg4 args3
                  msg1 msg2 (newRakpMessage3 0x01020304) eq_refl eq_refl));
    reflexivity.
Defined.

End RAKP.

(** ** The datagram: RMCP header, ASF ping and pong, session headers and the
    IPMI packet (packet.go, lan.go, command_message.go and the rmcpHeader,
    asfHeader and message sources) *)

Module Packet.

Import PayloadIPMI Framing Bytes PayloadType.
Import RAKP.

Definition rmcpVersion1 : Z := 0x06.
Definition rmcpNoAckSeq : Z := 0xff.
Definition rmcpClassASF : Z := 0x06.
Definition rmcpClassIPMI : Z := 0x07.
Definition asfIANA : Z := 0x000011be.
Definition asfTypePing : Z := 0x80.
Definition asfTypePong : Z := 0x40.
Definition payloadTypeIPMI : Z := 0x00.
Definition payloadTypeRMCPOpenRes : Z := 0x11.
Definition payloadTypeRAKP2 : Z := 0x13.
Definition payloadTypeRAKP4 : Z := 0x15.
Definition recvBufferSize : Z := 2048.

(** [func (r *rmcpHeader) Marshal() ([]byte, error)] *)
Definition rmcpHeader_Marshal (r : rmcpHeader) : list Z :=
  [rmcp_Version r; rmcp_Reserved r; rmcp_Sequence r; byte (rmcp_Class r)].

(** [func (a *asfHeader) Marshal() ([]byte, error)] *)
Definition asfHeader_Marshal (a : asfHeader) : list Z :=
  let buf := make asfHeaderSize in
  let buf := write_at buf 0 (be_put_uint32 (asf_IANA a)) in
  let buf := write_at buf 4 [byte (asf_Type a)] in
  let buf := write_at buf 5 [asf_Tag a] in
  let buf := write_at buf 6 [asf_Reserved a] in
  write_at buf 7 [asf_Length a].

(** [func newPingMessage() *pingMessage] and [pingMessage.Marshal]. *)
Definition newPingMessage : rmcpHeader * asfHeader :=
  ({| rmcp_Version := rmcpVersion1; rmcp_Reserved := 0;
      rmcp_Sequence := rmcpNoAckSeq; rmcp_Class := rmcpClassASF |},
   {| asf_IANA := asfIANA; asf_Type := asfTypePing; asf_Tag := 0;
      asf_Reserved := 0; asf_Length := 0 |}).
Definition pingMessage_Marshal (p : rmcpHeader * asfHeader) : list Z :=
  rmcpHeader_Marshal (fst p) ++ asfHeader_Marshal (snd p).

(** [func (p *pongMessage) SupportedIPMI() bool] *)
Definition SupportedIPMI (p : pongMessage) : bool :=
  negb (Z.land (pong_SupEntities p) 0x80 =? 0).

(** [func newRMCPHeaderForIPMI() *rmcpHeader] *)
Definition newRMCPHeaderForIPMI : rmcpHeader :=
  {| rmcp_Version := rmcpVersion1; rmcp_Reserved := 0;
     rmcp_Sequence := rmcpNoAckSeq; rmcp_Class := rmcpClassIPMI |}.

(** [func (s *sessionHeaderV1_5) Marshal() ([]byte, error)] *)
Definition sessionHeaderV1_5_Marshal (s : sessionHeaderV1_5) : list Z :=
  let buf :=
    if v15_authType s =? authTypeNone then make sessionHeaderV1_5Size
    else write_at (make sessionHeaderV1_5SizeWithAuth) (sessionHeaderV1_5Size - 1)
             (v15_authCode s) in
  let buf := write_at buf 0 [byte (v15_authType s)] in
  let buf := write_at buf 1 (le_put_uint32 (v15_sequence s)) in
  let buf := write_at buf 5 (le_put_uint32 (v15_id s)) in
  write_at buf (len buf - 1) [byte (v15_payloadLength s)].

(** [func (s *sessionHeaderV2_0) Marshal() ([]byte, error)] *)
Definition sessionHeaderV2_0_Marshal (s : sessionHeaderV2_0) : list Z :=
  let buf := make sessionHeaderV2_0Size in
  let buf := write_at buf 0 [byte (v20_authType s)] in
  let buf := write_at buf 1 [byte (v20_payloadType s)] in
  let buf := write_at buf 2 (le_put_uint32 (v20_id s)) in
  let buf := write_at buf 6 (le_put_uint32 (v20_sequence s)) in
  write_at buf 10 (le_put_uint16 (v20_payloadLength s)).

(** [type sessionHeader interface] with its two implementations. *)
Inductive sessionHeader : Type :=
| V1_5 (h : sessionHeaderV1_5)
| V2_0 (h : sessionHeaderV2_0).

Definition ID (h : sessionHeader) : Z :=
  match h with V1_5 s => v15_id s | V2_0 s => v20_id s end.
Definition AuthType (h : sessionHeader) : Z :=
  match h with V1_5 s => v15_authType s | V2_0 s => v20_authType s end.
Definition PayloadType (h : sessionHeader) : Z :=
  match h with V1_5 _ => payloadTypeIPMI | V2_0 s => v20_payloadType s end.
Definition PayloadLength (h : sessionHeader) : Z :=
  match h with V1_5 s => v15_payloadLength s | V2_0 s => v20_payloadLength s end.
Definition sessionHeader_SetPayloadLength (n : Z) (h : sessionHeader)
  : sessionHeader :=
  match h with
  | V1_5 s =>
      V1_5 {| v15_authType := v15_authType s; v15_sequence := v15_sequence s;
              v15_id := v15_id s; v15_payloadLength := byte n;
              v15_authCode := v15_authCode s |}
  | V2_0 s =>
      V2_0 {| v20_authType := v20_authType s;
              v20_payloadType := v20_payloadType s; v20_id := v20_id s;
              v20_sequence := v20_sequence s; v20_payloadLength := uint16 n |}
  end.
Definition set_payloadType (p : Z) (s : sessionHeaderV2_0) : sessionHeaderV2_0 :=
  {| v20_authType := v20_authType s; v20_payloadType := p; v20_id := v20_id s;
     v20_sequence := v20_sequence s; v20_payloadLength := v20_payloadLength s |}.
Definition sessionHeader_SetEncrypted (b : bool) (h : sessionHeader)
  : sessionHeader :=
  match h with
  | V1_5 s => V1_5 s
  | V2_0 s => V2_0 (set_payloadType (SetEncrypted b (v20_payloadType s)) s)
  end.
Definition sessionHeader_SetAuthenticated (b : bool) (h : sessionHeader)
  : sessionHeader :=
  match h with
  | V1_5 s => V1_5 s
  | V2_0 s => V2_0 (set_payloadType (SetAuthenticated b (v20_payloadType s)) s)
  end.
Definition sessionHeader_Marshal (h : sessionHeader) : list Z :=
  match h with
  | V1_5 s => sessionHeaderV1_5_Marshal s
  | V2_0 s => sessionHeaderV2_0_Marshal s
  end.
Definition sessionHeader_Unmarshal (v2 : bool) (buf : list Z)
  : result (sessionHeader * list Z) :=
  if v2 then
    match sessionHeaderV2_0_Unmarshal buf with
    | Ok (h, rest) => Ok (V2_0 h, rest)
    | Err e => Err e
    | Panic what => Panic what
    | OutOfFuel => OutOfFuel
    end
  else
    match sessionHeaderV1_5_Unmarshal buf with
    | Ok (h, rest) => Ok (V1_5 h, rest)
    | Err e => Err e
    | Panic what => Panic what
    | OutOfFuel => OutOfFuel
    end.

(** [type ipmiPacket struct] (packet.go); [Response] is kept as the kind of
    response object that [unmarshalMessage] allocates. *)
Inductive responseKind : Type :=
| KindIPMI | KindOpenSession | KindRAKP2 | KindRAKP4.

Record ipmiPacket : Type := {
  RMCPHeader : rmcpHeader;
  SessionHeader : sessionHeader;
  PayloadBytes : list Z;
  Response : option responseKind
}.

(** [func (p *ipmiPacket) Marshal() (b []byte, err error)] *)
Definition ipmiPacket_Marshal (p : ipmiPacket) : list Z :=
  rmcpHeader_Marshal (RMCPHeader p) ++ sessionHeader_Marshal (SessionHeader p)
  ++ PayloadBytes p.

(** What [unmarshalMessage] returns as its [response]. *)
Inductive message : Type :=
| Pong (r : rmcpHeader) (a : asfHeader) (p : pongMessage)
| Packet (p : ipmiPacket).

(** The [switch hdr.PayloadType().Pure()] of [unmarshalMessage]. *)
Definition responseFor (pure : Z) : option responseKind :=
  if pure =? payloadTypeIPMI then Some KindIPMI
  else if pure =? payloadTypeRMCPOpenRes then Some KindOpenSession
  else if pure =? payloadTypeRAKP2 then Some KindRAKP2
  else if pure =? payloadTypeRAKP4 then Some KindRAKP4
  else None.

(** [func unmarshalMessage(buf []byte) (response, []byte, error)]. [spare]
    holds the bytes of the backing array between the length of [buf] and
    its capacity: [rest[:plen]] may reach into them, [rest[plen:]] may not
    start beyond the length. *)
Definition unmarshalMessage (buf spare : list Z) : result (message * list Z) :=
  match rmcpHeader_Unmarshal buf with
  | Ok (rmcp, rest) =>
      if rmcp_Class rmcp =? rmcpClassASF then
        match asfHeader_Unmarshal rest with
        | Ok (asf, rest) =>
            if asf_Type asf =? asfTypePong then
              match pongMessage_Unmarshal rest with
              | Ok (pong, rest) => Ok (Pong rmcp asf pong, rest)
              | Err e => Err e
              | Panic what => Panic what
              | OutOfFuel => OutOfFuel
              end
            else Err (MessageError "Unknown ASF message type")
        | Err e => Err e
        | Panic what => Panic what
        | OutOfFuel => OutOfFuel
        end
      else if rmcp_Class rmcp =? rmcpClassIPMI then
        if len rest <=? 0 then Panic "index out of range"
        else
          match sessionHeader_Unmarshal (index rest 0 =? authTypeRMCPPlus) rest with
          | Ok (hdr, rest) =>
              match responseFor (Pure (PayloadType hdr)) with
              | Some kind =>
                  let plen := PayloadLength hdr in
                  if len rest + len spare <? plen then
                    Panic "slice bounds out of range"
                  else
                    let pkt := {| RMCPHeader := rmcp; SessionHeader := hdr;
                                  PayloadBytes := slice (rest ++ spare) 0 plen;
                                  Response := Some kind |} in
                    if len rest <? plen then Panic "slice bounds out of range"
                    else Ok (Packet pkt, from rest plen)
              | None => Err (MessageError "Unknown IPMI payload type")
              end
          | Err e => Err e
          | Panic what => Panic what
          | OutOfFuel => OutOfFuel
          end
      else Err (MessageError "Unknown RMCP class")
  | Err e => Err e
  | Panic what => Panic what
  | OutOfFuel => OutOfFuel
  end.

(** The part of [sendMessage] after [conn.Read]: a datagram of [n] bytes
    is received into a zeroed buffer of [recvBufferSize] bytes, which is cut
    to [buf[:n]]; a longer datagram is cut to the buffer. *)
Definition received (datagram : list Z) : list Z * list Z :=
  let buf := copy (make recvBufferSize) datagram in
  let n := Z.min (len datagram) recvBufferSize in
  (slice buf 0 n, from buf n).

(** [func ping(conn net.Conn, timeout time.Duration) error] on the
    datagram that [sendMessage] received. *)
Definition ping (datagram : list Z) : result unit :=
  let '(buf, spare) := received datagram in
  match unmarshalMessage buf spare with
  | Ok (Pong _ _ pong, _) =>
      if negb (SupportedIPMI pong) then Err (MessageError "Not Supported IPMI")
      else Ok tt
  | Ok (Packet _, _) => Err (MessageError "Received an unexpected message (Ping)")
  | Err e => Err e
  | Panic what => Panic what
  | OutOfFuel => OutOfFuel
  end.

(** *** Well-formed headers *)

Definition is_uint32 (v : Z) : Prop := 0 <= v < 4294967296.
Definition is_uint16 (v : Z) : Prop := 0 <= v < 65536.

Definition wf_rmcp (r : rmcpHeader) : Prop :=
  is_byte (rmcp_Version r) /\ is_byte (rmcp_Reserved r) /\
  is_byte (rmcp_Sequence r) /\ is_byte (rmcp_Class r).

Definition wf_v20 (s : sessionHeaderV2_0) : Prop :=
  is_byte (v20_authType s) /\ is_byte (v20_payloadType s) /\
  is_uint32 (v20_id s) /\ is_uint32 (v20_sequence s) /\
  is_uint16 (v20_payloadLength s).

Definition wf_v15 (s : sessionHeaderV1_5) : Prop :=
  is_byte (v15_authType s) /\ is_uint32 (v15_sequence s) /\
  is_uint32 (v15_id s) /\ is_byte (v15_payloadLength s) /\
  length (v15_authCode s) = 16%nat /\
  (v15_authType s = authTypeNone -> v15_authCode s = make 16).

Definition wf_header (h : sessionHeader) : Prop :=
  match h with
  | V1_5 s => wf_v15 s /\ v15_authType s <> authTypeRMCPPlus
  | V2_0 s => wf_v20 s /\ v20_authType s = authTypeRMCPPlus
  end.


(** *** Header round trips *)

Lemma sessionHeaderV2_0_layout (s : sessionHeaderV2_0) :
  sessionHeaderV2_0_Marshal s =
  [byte (v20_authType s); byte (v20_payloadType s)] ++
  le_put_uint32 (v20_id s) ++ le_put_uint32 (v20_sequence s) ++
  le_put_uint16 (v20_payloadLength s).
Proof. reflexivity. Qed.

Lemma sessionHeaderV2_0_roundtrip (s : sessionHeaderV2_0) (rest : list Z) :
  wf_v20 s ->
  sessionHeaderV2_0_Unmarshal (sessionHeaderV2_0_Marshal s ++ rest) = Ok (s, rest).
Proof.
  intros (Ha & Hp & Hi & Hs & Hl). rewrite sessionHeaderV2_0_layout.
  unfold sessionHeaderV2_0_Unmarshal.
  rewrite !byte_id by assumption.
  destruct s as [a p i q l]. cbn [v20_authType v20_payloadType v20_id v20_sequence
                                  v20_payloadLength] in *.
  set (I := le_put_uint32 i). set (Q := le_put_uint32 q). set (L := le_put_uint16 l).
  assert (Hlen : len (([a; p] ++ I ++ Q ++ L) ++ rest) = 12 + len rest).
  { rewrite !len_app. reflexivity. }
  rewrite Hlen. pose proof (len_nonneg rest).
  destruct (12 + len rest <? sessionHeaderV2_0Size) eqn:E;
    [apply Z.ltb_lt in E; unfold sessionHeaderV2_0Size in E; lia|].
  assert (H2 : from (([a; p] ++ I ++ Q ++ L) ++ rest) 2 = I ++ Q ++ L ++ rest).
  { subst I Q L. reflexivity. }
  assert (H6 : from (([a; p] ++ I ++ Q ++ L) ++ rest) 6 = Q ++ L ++ rest).
  { subst I Q L. reflexivity. }
  assert (H10 : from (([a; p] ++ I ++ Q ++ L) ++ rest) 10 = L ++ rest).
  { subst I Q L. reflexivity. }
  assert (H12 : from (([a; p] ++ I ++ Q ++ L) ++ rest) sessionHeaderV2_0Size = rest).
  { subst I Q L. reflexivity. }
  rewrite H2, H6, H10, H12. subst I Q L.
  rewrite !le_uint32_put, le_uint16_put by assumption.
  reflexivity.
Qed.

Lemma list16 (c : list Z) :
  length c = 16%nat ->
  exists a0 a1 a2 a3 a4 a5 a6 a7 a8 a9 a10 a11 a12 a13 a14 a15,
    c = [a0; a1; a2; a3; a4; a5; a6; a7; a8; a9; a10; a11; a12; a13; a14; a15].
Proof.
  intro H.
  do 16 (destruct c as [|? c]; [discriminate|]).
  destruct c; [|discriminate].
  repeat eexists.
Qed.

Lemma sessionHeaderV1_5_layout (s : sessionHeaderV1_5) :
  length (v15_authCode s) = 16%nat ->
  sessionHeaderV1_5_Marshal s =
  [byte (v15_authType s)] ++ le_put_uint32 (v15_sequence s) ++
  le_put_uint32 (v15_id s) ++
  (if v15_authType s =? authTypeNone then [] else v15_authCode s) ++
  [byte (v15_payloadLength s)].
Proof.
  intro Hc. destruct (list16 _ Hc) as (a0 & a1 & a2 & a3 & a4 & a5 & a6 & a7 & a8
    & a9 & a10 & a11 & a12 & a13 & a14 & a15 & Hcode).
  unfold sessionHeaderV1_5_Marshal. rewrite Hcode.
  destruct (v15_authType s =? authTypeNone); reflexivity.
Qed.

Lemma sessionHeaderV1_5_roundtrip (s : sessionHeaderV1_5) (rest : list Z) :
  wf_v15 s ->
  sessionHeaderV1_5_Unmarshal (sessionHeaderV1_5_Marshal s ++ rest) = Ok (s, rest).
Proof.
  intros (Ha & Hq & Hi & Hl & Hc & Hnone).
  rewrite sessionHeaderV1_5_layout by assumption.
  unfold sessionHeaderV1_5_Unmarshal.
  rewrite !byte_id by assumption.
  destruct s as [a q i l c].
  cbn [v15_authType v15_sequence v15_id v15_payloadLength v15_authCode] in *.
  set (Q := le_put_uint32 q). set (I := le_put_uint32 i).
  pose proof (len_nonneg rest) as Hr.
  destruct (a =? authTypeNone) eqn:Ea.
  - apply Z.eqb_eq in Ea. rewrite (Hnone Ea).
    assert (Hlen : len (([a] ++ Q ++ I ++ [] ++ [l]) ++ rest) = 10 + len rest).
    { rewrite !len_app. reflexivity. }
    rewrite Hlen.
    destruct (10 + len rest <? sessionHeaderV1_5Size) eqn:E;
      [apply Z.ltb_lt in E; unfold sessionHeaderV1_5Size in E; lia|].
    change (index (([a] ++ Q ++ I ++ [] ++ [l]) ++ rest) 0) with a.
    replace (a =? authTypeNone) with true by (symmetry; apply Z.eqb_eq; exact Ea).
    change (from (([a] ++ Q ++ I ++ [] ++ [l]) ++ rest) 1)
      with (Q ++ I ++ [l] ++ rest).
    change (from (([a] ++ Q ++ I ++ [] ++ [l]) ++ rest) 5)
      with (I ++ [l] ++ rest).
    change (index (([a] ++ Q ++ I ++ [] ++ [l]) ++ rest) (sessionHeaderV1_5Size - 1))
      with l.
    change (from (([a] ++ Q ++ I ++ [] ++ [l]) ++ rest) sessionHeaderV1_5Size)
      with rest.
    subst Q I. rewrite !le_uint32_put by assumption. reflexivity.
  - destruct (list16 _ Hc) as (a0 & a1 & a2 & a3 & a4 & a5 & a6 & a7 & a8
      & a9 & a10 & a11 & a12 & a13 & a14 & a15 & Hcode).
    rewrite Hcode.
    set (C := [a0; a1; a2; a3; a4; a5; a6; a7; a8; a9; a10; a11; a12; a13; a14; a15]).
    assert (Hlen : len (([a] ++ Q ++ I ++ C ++ [l]) ++ rest) = 26 + len rest).
    { rewrite !len_app. reflexivity. }
    rewrite Hlen.
    destruct (26 + len rest <? sessionHeaderV1_5Size) eqn:E;
      [apply Z.ltb_lt in E; unfold sessionHeaderV1_5Size in E; lia|].
    destruct (sessionHeaderV1_5SizeWithAuth <=? 26 + len rest) eqn:E2;
      [|apply Z.leb_gt in E2; unfold sessionHeaderV1_5SizeWithAuth in E2; lia].
    change (index (([a] ++ Q ++ I ++ C ++ [l]) ++ rest) 0) with a.
    rewrite Ea.
    change (from (([a] ++ Q ++ I ++ C ++ [l]) ++ rest) 1)
      with (Q ++ I ++ C ++ [l] ++ rest).
    change (from (([a] ++ Q ++ I ++ C ++ [l]) ++ rest) 5)
      with (I ++ C ++ [l] ++ rest).
    change (index (([a] ++ Q ++ I ++ C ++ [l]) ++ rest)
                  (sessionHeaderV1_5SizeWithAuth - 1)) with l.
    change (from (([a] ++ Q ++ I ++ C ++ [l]) ++ rest) sessionHeaderV1_5SizeWithAuth)
      with rest.
    change (copy (make 16) (from (([a] ++ Q ++ I ++ C ++ [l]) ++ rest)
                                 (sessionHeaderV1_5Size - 1)))
      with C.
    subst Q I. rewrite !le_uint32_put by assumption. reflexivity.
Qed.

Lemma rmcpHeader_roundtrip (r : rmcpHeader) (rest : list Z) :
  wf_rmcp r ->
  rmcpHeader_Unmarshal (rmcpHeader_Marshal r ++ rest) = Ok (r, rest).
Proof.
  intros (Hv & Hr & Hs & Hc). unfold rmcpHeader_Marshal, rmcpHeader_Unmarshal.
  rewrite byte_id by assumption.
  rewrite len_app. change (len [_; _; _; _]) with 4.
  pose proof (len_nonneg rest).
  destruct (4 + len rest <? rmcpHeaderSize) eqn:E;
    [apply Z.ltb_lt in E; unfold rmcpHeaderSize in E; lia|].
  destruct r; reflexivity.
Qed.

Lemma sessionHeader_first (h : sessionHeader) (body : list Z) :
  wf_header h ->
  0 < len (sessionHeader_Marshal h ++ body) /\
  index (sessionHeader_Marshal h ++ body) 0 = AuthType h.
Proof.
  pose proof (len_nonneg body) as Hb.
  destruct h as [s | s]; cbn [wf_header sessionHeader_Marshal AuthType].
  - intros [(Ha & Hq & Hi & Hl & Hc & Hn) _].
    rewrite sessionHeaderV1_5_layout by assumption.
    rewrite byte_id by assumption. split; [|reflexivity].
    rewrite len_app, len_app. change (len [v15_authType s]) with 1.
    pose proof (len_nonneg (le_put_uint32 (v15_sequence s) ++
      le_put_uint32 (v15_id s) ++
      (if v15_authType s =? authTypeNone then [] else v15_authCode s) ++
      [byte (v15_payloadLength s)])). lia.
  - intros [(Ha & Hp & Hi & Hs & Hl) _].
    rewrite sessionHeaderV2_0_layout. rewrite byte_id by assumption.
    split; [|reflexivity]. rewrite len_app. change (len (_ ++ _ ++ _ ++ _)) with 12. lia.
Qed.

Lemma sessionHeader_roundtrip (h : sessionHeader) (body : list Z) :
  wf_header h ->
  sessionHeader_Unmarshal (AuthType h =? authTypeRMCPPlus)
                          (sessionHeader_Marshal h ++ body) = Ok (h, body).
Proof.
  destruct h as [s | s]; cbn [wf_header sessionHeader_Marshal AuthType];
    intros [Hwf Ha]; unfold sessionHeader_Unmarshal.
  - apply Z.eqb_neq in Ha. rewrite Ha.
    rewrite sessionHeaderV1_5_roundtrip by assumption. reflexivity.
  - apply Z.eqb_eq in Ha. rewrite Ha.
    rewrite sessionHeaderV2_0_roundtrip by assumption. reflexivity.
Qed.

Lemma PayloadLength_nonneg (h : sessionHeader) :
  wf_header h -> 0 <= PayloadLength h.
Proof.
  destruct h as [s | s]; cbn [wf_header PayloadLength].
  - intros [(_ & _ & _ & Hl & _) _]. unfold is_byte in Hl. lia.
  - intros [(_ & _ & _ & _ & Hl) _]. unfold is_uint16 in Hl. lia.
Qed.

Lemma slice_app_prefix (a b : list Z) (n : Z) :
  0 <= n <= len a -> slice (a ++ b) 0 n = slice a 0 n.
Proof.
  intros Hn. unfold slice. cbn [skipn Z.to_nat]. rewrite Z.sub_0_r.
  change (Z.to_nat 0) with 0%nat. cbn [skipn].
  rewrite firstn_app.
  replace (Z.to_nat n - length a)%nat with 0%nat by (unfold len in Hn; lia).
  cbn [firstn]. apply app_nil_r.
Qed.

Lemma unmarshalMessage_ipmi (r : rmcpHeader) (h : sessionHeader)
      (body spare : list Z) :
  wf_rmcp r -> rmcp_Class r = rmcpClassIPMI -> wf_header h ->
  unmarshalMessage (rmcpHeader_Marshal r ++ sessionHeader_Marshal h ++ body) spare =
  match responseFor (Pure (PayloadType h)) with
  | None => Err (MessageError "Unknown IPMI payload type")
  | Some kind =>
      if len body <? PayloadLength h then Panic "slice bounds out of range"
      else Ok (Packet {| RMCPHeader := r; SessionHeader := h;
                         PayloadBytes := slice body 0 (PayloadLength h);
                         Response := Some kind |},
               from body (PayloadLength h))
  end.
Proof.
  intros Hr Hc Hh. unfold unmarshalMessage.
  rewrite rmcpHeader_roundtrip by assumption. rewrite Hc.
  change (rmcpClassIPMI =? rmcpClassASF) with false.
  change (rmcpClassIPMI =? rmcpClassIPMI) with true. cbv iota.
  destruct (sessionHeader_first h body Hh) as [Hpos Hfirst].
  destruct (len (sessionHeader_Marshal h ++ body) <=? 0) eqn:E;
    [apply Z.leb_le in E; lia|].
  rewrite Hfirst, sessionHeader_roundtrip by assumption.
  destruct (responseFor (Pure (PayloadType h))) as [kind|]; [|reflexivity].
  cbv zeta. pose proof (PayloadLength_nonneg h Hh) as Hp.
  pose proof (len_nonneg spare) as Hs.
  destruct (len body <? PayloadLength h) eqn:Hshort.
  - destruct (len body + len spare <? PayloadLength h); reflexivity.
  - apply Z.ltb_ge in Hshort.
    destruct (len body + len spare <? PayloadLength h) eqn:E2;
      [apply Z.ltb_lt in E2; lia|].
    rewrite slice_app_prefix by lia. reflexivity.
Qed.

(** X13. A packet written by [ipmiPacket.Marshal] is read back by
    [unmarshalMessage]: for an RMCP header of class IPMI, a session header of
    either version whose fields are in range (a v1.5 header is one whose
    authentication type is not RMCP+), a payload type that has a response
    object and a payload length equal to the number of payload bytes, the
    result is the same packet, and the bytes after the payload (the session
    trailer) are returned as the rest, whatever the spare capacity is. *)
Theorem packet_roundtrip (p : ipmiPacket) (extra spare : list Z) :
  wf_rmcp (RMCPHeader p) -> rmcp_Class (RMCPHeader p) = rmcpClassIPMI ->
  wf_header (SessionHeader p) ->
  Response p <> None ->
  responseFor (Pure (PayloadType (SessionHeader p))) = Response p ->
  PayloadLength (SessionHeader p) = len (PayloadBytes p) ->
  unmarshalMessage (ipmiPacket_Marshal p ++ extra) spare = Ok (Packet p, extra).
Proof.
  intros Hr Hc Hh Hsome Hkind Hlen. unfold ipmiPacket_Marshal.
  rewrite <- !app_assoc.
  rewrite unmarshalMessage_ipmi by assumption.
  rewrite Hkind. destruct p as [r h payload [kind|]]; [|contradiction Hsome; reflexivity].
  cbn [RMCPHeader SessionHeader PayloadBytes Response] in *.
  rewrite Hlen, len_app. pose proof (len_nonneg extra) as He.
  destruct (len payload + len extra <? len payload) eqn:E;
    [apply Z.ltb_lt in E; lia|].
  rewrite Crypto.slice_app_l, Crypto.from_app_r. reflexivity.
Qed.

(** X14. What [unmarshalMessage] does with a malformed datagram: fewer than
    4 bytes, an RMCP class other than ASF and IPMI, or a payload type without
    response object give a message error; a bare RMCP header of class IPMI
    panics on [rest[0]]; and a datagram whose session header declares more
    payload bytes than follow panics on the slice expressions, for every
    spare capacity of the receive buffer, and never returns an error. *)
Theorem unmarshalMessage_malformed :
  (forall buf spare, len buf < 4 -> is_message_error (unmarshalMessage buf spare)) /\
  (forall r spare, wf_rmcp r -> rmcp_Class r = rmcpClassIPMI ->
     unmarshalMessage (rmcpHeader_Marshal r) spare = Panic "index out of range") /\
  (forall r body spare, wf_rmcp r ->
     rmcp_Class r <> rmcpClassASF -> rmcp_Class r <> rmcpClassIPMI ->
     unmarshalMessage (rmcpHeader_Marshal r ++ body) spare =
     Err (MessageError "Unknown RMCP class")) /\
  (forall r h body spare, wf_rmcp r -> rmcp_Class r = rmcpClassIPMI ->
     wf_header h ->
     responseFor (Pure (PayloadType h)) = None ->
     unmarshalMessage (rmcpHeader_Marshal r ++ sessionHeader_Marshal h ++ body) spare =
     Err (MessageError "Unknown IPMI payload type")) /\
  (forall r h body spare, wf_rmcp r -> rmcp_Class r = rmcpClassIPMI ->
     wf_header h ->
     responseFor (Pure (PayloadType h)) <> None ->
     len body < PayloadLength h ->
     unmarshalMessage (rmcpHeader_Marshal r ++ sessionHeader_Marshal h ++ body) spare =
     Panic "slice bounds out of range").
Proof.
  split; [|split; [|split; [|split]]].
  - intros buf spare Hl. unfold unmarshalMessage, rmcpHeader_Unmarshal, rmcpHeaderSize.
    destruct (len buf <? 4) eqn:E; [eexists; reflexivity|].
    apply Z.ltb_ge in E. lia.
  - intros r spare Hr Hc. unfold unmarshalMessage.
    rewrite <- (app_nil_r (rmcpHeader_Marshal r)).
    rewrite rmcpHeader_roundtrip by assumption. rewrite Hc. reflexivity.
  - intros r body spare Hr H6 H7. unfold unmarshalMessage.
    rewrite rmcpHeader_roundtrip by assumption.
    apply Z.eqb_neq in H6, H7. rewrite H6, H7. reflexivity.
  - intros r h body spare Hr Hc Hh Hnone.
    rewrite unmarshalMessage_ipmi by assumption. rewrite Hnone. reflexivity.
  - intros r h body spare Hr Hc Hh Hsome Hshort.
    rewrite unmarshalMessage_ipmi by assumption.
    destruct (responseFor (Pure (PayloadType h))); [|contradiction Hsome; reflexivity].
    apply Z.ltb_lt in Hshort. rewrite Hshort. reflexivity.
Qed.

(** *** Ping and pong *)

Lemma received_fits (d : list Z) :
  len d <= recvBufferSize ->
  received d = (d, make (recvBufferSize - len d)).
Proof.
  intro H. unfold received. pose proof (len_nonneg d) as H0.
  rewrite Z.min_l by assumption.
  assert (Hc : copy (make recvBufferSize) d = d ++ make (recvBufferSize - len d)).
  { replace (make recvBufferSize)
      with (make (len d) ++ make (recvBufferSize - len d))
      by (rewrite <- make_app by lia; f_equal; lia).
    unfold copy. rewrite firstn_all2.
    - f_equal. apply Crypto.skipn_app_exact. apply length_make.
    - rewrite length_app. unfold len at 1. rewrite length_make. lia. }
  rewrite Hc, Crypto.slice_app_l, Crypto.from_app_r. reflexivity.
Qed.

Lemma index_from (d : list Z) (k i : Z) :
  0 <= k -> 0 <= i -> index (from d k) i = index d (k + i).
Proof.
  intros Hk Hi. unfold index, from.
  rewrite Z2Nat.inj_add by assumption.
  generalize (Z.to_nat k) as n. generalize (Z.to_nat i) as m. clear.
  intros m n. revert d. induction n as [|n IH]; intro d; [reflexivity|].
  destruct d as [|x d]; [destruct m; reflexivity|]. cbn [skipn Nat.add nth]. apply IH.
Qed.

Lemma len_from (d : list Z) (k : Z) :
  0 <= k <= len d -> len (from d k) = len d - k.
Proof.
  intro H. unfold len, from in *. rewrite length_skipn. lia.
Qed.

Lemma from_from (d : list Z) (j k : Z) :
  0 <= j -> 0 <= k -> from (from d j) k = from d (j + k).
Proof.
  intros Hj Hk. unfold from. rewrite skipn_skipn.
  f_equal. lia.
Qed.

(** X15. The ping request is the 12 bytes 06 00 ff 06 00 00 11 be 80 00 00
    00, and on a received datagram of class ASF of at most [recvBufferSize]
    bytes [ping] returns, in this order of tests: the ASF header size error
    below 12 bytes, the unknown type error unless byte 8 is 0x40, the pong
    body size error below 28 bytes, "Not Supported IPMI" unless bit 7 of
    byte 20 is set, and nil otherwise; it never panics. *)
Theorem ping_pong :
  pingMessage_Marshal newPingMessage =
    [0x06; 0x00; 0xff; 0x06; 0x00; 0x00; 0x11; 0xbe; 0x80; 0x00; 0x00; 0x00] /\
  forall d, 4 <= len d <= recvBufferSize -> index d 3 = rmcpClassASF ->
    ping d =
    if len d <? 12 then Err (MessageError "Invalid ASF header size")
    else if negb (index d 8 =? asfTypePong) then
      Err (MessageError "Unknown ASF message type")
    else if len d <? 28 then Err (MessageError "Invalid Pong body size")
    else if Z.land (index d 20) 0x80 =? 0 then
      Err (MessageError "Not Supported IPMI")
    else Ok tt.
Proof.
  split; [reflexivity|].
  intros d [Hlo Hhi] Hclass. unfold ping. rewrite received_fits by assumption.
  unfold unmarshalMessage, rmcpHeader_Unmarshal, rmcpHeaderSize.
  destruct (len d <? 4) eqn:E; [apply Z.ltb_lt in E; lia|].
  cbn [rmcp_Class]. rewrite Hclass.
  change (rmcpClassASF =? rmcpClassASF) with true. cbv iota.
  unfold asfHeader_Unmarshal, asfHeaderSize.
  rewrite len_from by lia.
  destruct (len d <? 12) eqn:E12.
  - apply Z.ltb_lt in E12.
    destruct (len d - 4 <? 8) eqn:E8; [reflexivity|apply Z.ltb_ge in E8; lia].
  - apply Z.ltb_ge in E12.
    destruct (len d - 4 <? 8) eqn:E8; [apply Z.ltb_lt in E8; lia|].
    cbn [asf_Type]. rewrite index_from by lia. change (4 + 4) with 8.
    destruct (index d 8 =? asfTypePong); cbn [negb]; [|reflexivity].
    unfold pongMessage_Unmarshal, pongBodySize.
    rewrite from_from by lia. change (4 + 8) with 12.
    rewrite len_from by lia.
    destruct (len d <? 28) eqn:E28.
    + apply Z.ltb_lt in E28.
      destruct (len d - 12 <? 16) eqn:E16; [reflexivity|apply Z.ltb_ge in E16; lia].
    + apply Z.ltb_ge in E28.
      destruct (len d - 12 <? 16) eqn:E16; [apply Z.ltb_lt in E16; lia|].
      unfold SupportedIPMI. cbn [pong_SupEntities].
      rewrite index_from by lia. change (12 + 8) with 20.
      destruct (Z.land (index d 20) 128 =? 0); reflexivity.
Qed.

(** An encrypted and authenticated v2.0 packet followed by two more bytes. *)
Lemma packet_roundtrip_witness :
  let p := {| RMCPHeader := newRMCPHeaderForIPMI;
              SessionHeader :=
                V2_0 {| v20_authType := authTypeRMCPPlus; v20_payloadType := 0xc0;
                        v20_id := 0x49504d49; v20_sequence := 1;
                        v20_payloadLength := 3 |};
              PayloadBytes := [1; 2; 3]; Response := Some KindIPMI |} in
  ipmiPacket_Marshal p =
    [0x06; 0; 0xff; 0x07; 0x06; 0xc0; 0x49; 0x4d; 0x50; 0x49; 1; 0; 0; 0; 3; 0;
     1; 2; 3] /\
  unmarshalMessage (ipmiPacket_Marshal p ++ [9; 9]) [] = Ok (Packet p, [9; 9]).
Proof.
  intro p. split; [reflexivity|].
  apply (packet_roundtrip p [9; 9] []);
    vm_compute; intuition (discriminate || lia).
Defined.

(** A v2.0 header that declares 5 payload bytes, followed by 3. *)
Lemma unmarshalMessage_malformed_witness :
  unmarshalMessage
    ([0x06; 0; 0xff; 0x07; 0x06; 0x00; 0x49; 0x4d; 0x50; 0x49; 1; 0; 0; 0; 5; 0]
     ++ [1; 2; 3]) (make 2029) = Panic "slice bounds out of range".
Proof.
  apply (proj2 (proj2 (proj2 (proj2 unmarshalMessage_malformed)))
           newRMCPHeaderForIPMI
           (V2_0 {| v20_authType := authTypeRMCPPlus; v20_payloadType := 0;
                    v20_id := 0x49504d49; v20_sequence := 1;
                    v20_payloadLength := 5 |}) [1; 2; 3] (make 2029));
    vm_compute; intuition (discriminate || lia).
Defined.

(** A pong that announces IPMI support. *)
Lemma ping_pong_witness :
  ping ([0x06; 0; 0xff; 0x06; 0; 0; 0x11; 0xbe; 0x40; 0; 0; 0x10;
         0; 0; 0x11; 0xbe; 0; 0; 0; 0; 0x81; 0; 0; 0; 0; 0; 0; 0]) = Ok tt.
Proof.
  rewrite (proj2 ping_pong); [reflexivity | vm_compute; intuition discriminate
                             | reflexivity].
Defined.

End Packet.
